(** * Sedov-Taylor supernova model and its statistics aggregator

    A shallow embedding of [nova-model.js] (class [SupernovaModel]), of
    [data-manager.js] (class [DataManager]) and of the projection of the
    view (class [Visualization]), with the properties the specification
    states about them and further properties of the code.

    Numbers.  A JavaScript number is an IEEE 754 double.  The embedding keeps
    the special values the program's control flow depends on ([NaN] and the two
    infinities, as produced by [0/0], [x/0], [sqrt] of a negative number, ...)
    and takes every other number as the real number it stands for: rounding,
    overflow and the sign of zero are not modelled.  The host's [Math]
    functions follow the ECMAScript case tables on the special values and are
    the mathematical functions elsewhere.  A property that would not survive
    an overflow, an underflow or the rounding at the edge of a bin is stated
    for the working ranges of the section [Ranges], inside which the doubles
    of the program stay numbers, and with a relative margin of 1e-9 at the
    edges.

    Randomness.  [Math.random] and the sampler returned by [d3.randomNormal]
    are functions of the host.  The embedding reads their results from two
    tapes, the n-th call of each returning the n-th value of its tape, and
    threads the two call counters through the program.

    Objects.  A method that mutates [this] is a function from the object
    before the call to the object after it.  The only exception the two
    classes can raise is the [TypeError] of reading a property of
    [undefined]; the only loop that may not end is the particle loop of the
    constructor, on a species whose particle count is [Infinity]. *)

From Stdlib Require Import Reals Lra Lia ZArith String Bool Arith List.
Import ListNotations.

Set Implicit Arguments.

(** ** JavaScript numbers *)

Inductive num : Type :=
| NaN
| PInf
| NInf
| Fin (r : R).

Module Num.

Local Open Scope R_scope.

Definition of_nat (n : nat) : num := Fin (INR n).

(** Unary minus. *)
Definition neg (a : num) : num :=
  match a with
  | NaN => NaN
  | PInf => NInf
  | NInf => PInf
  | Fin x => Fin (- x)
  end.

(** [a + b] *)
Definition add (a b : num) : num :=
  match a, b with
  | NaN, _ | _, NaN => NaN
  | PInf, NInf | NInf, PInf => NaN
  | PInf, _ | _, PInf => PInf
  | NInf, _ | _, NInf => NInf
  | Fin x, Fin y => Fin (x + y)
  end.

(** [a - b] *)
Definition sub (a b : num) : num := add a (neg b).

(** An infinity of the given sign ([true] for [+Infinity]) times a finite
    number. *)
Definition mul_inf (positive : bool) (x : R) : num :=
  if Req_dec_T x 0 then NaN
  else if Rlt_dec 0 x then (if positive then PInf else NInf)
  else (if positive then NInf else PInf).

(** [a * b] *)
Definition mul (a b : num) : num :=
  match a, b with
  | NaN, _ | _, NaN => NaN
  | PInf, PInf | NInf, NInf => PInf
  | PInf, NInf | NInf, PInf => NInf
  | PInf, Fin x | Fin x, PInf => mul_inf true x
  | NInf, Fin x | Fin x, NInf => mul_inf false x
  | Fin x, Fin y => Fin (x * y)
  end.

(** [a / b]; a zero divisor counts as [+0]. *)
Definition div (a b : num) : num :=
  match a, b with
  | NaN, _ | _, NaN => NaN
  | PInf, PInf | PInf, NInf | NInf, PInf | NInf, NInf => NaN
  | PInf, Fin y => if Rlt_dec y 0 then NInf else PInf
  | NInf, Fin y => if Rlt_dec y 0 then PInf else NInf
  | Fin _, PInf | Fin _, NInf => Fin 0
  | Fin x, Fin y =>
      if Req_dec_T y 0 then
        (if Req_dec_T x 0 then NaN
         else if Rlt_dec 0 x then PInf else NInf)
      else Fin (x / y)
  end.

(** [a < b] *)
Definition lt (a b : num) : bool :=
  match a, b with
  | NaN, _ | _, NaN => false
  | _, NInf => false
  | NInf, _ => true
  | PInf, _ => false
  | _, PInf => true
  | Fin x, Fin y => if Rlt_dec x y then true else false
  end.

(** [a > b] *)
Definition gt (a b : num) : bool := lt b a.

(** [a <= b] *)
Definition le (a b : num) : bool :=
  match a, b with
  | NaN, _ | _, NaN => false
  | NInf, _ => true
  | _, PInf => true
  | PInf, _ => false
  | _, NInf => false
  | Fin x, Fin y => if Rle_dec x y then true else false
  end.

(** ToBoolean on a number: [0] and [NaN] are falsy. *)
Definition truthy (a : num) : bool :=
  match a with
  | NaN => false
  | Fin x => if Req_dec_T x 0 then false else true
  | _ => true
  end.

(** [a || b] on numbers. *)
Definition or (a b : num) : num := if truthy a then a else b.

(** [v || d] where [v] is a property that may be [undefined] ([None]). *)
Definition or_default (v : option num) (d : num) : num :=
  match v with
  | Some a => or a d
  | None => d
  end.

End Num.

(** ** The host's [Math] object *)

Module Math.

Local Open Scope R_scope.

Definition PI : num := Fin Rtrigo1.PI.

Definition abs (a : num) : num :=
  match a with
  | NaN => NaN
  | PInf | NInf => PInf
  | Fin x => Fin (Rabs x)
  end.

Definition sqrt (a : num) : num :=
  match a with
  | NaN | NInf => NaN
  | PInf => PInf
  | Fin x => if Rlt_dec x 0 then NaN else Fin (R_sqrt.sqrt x)
  end.

Definition floor (a : num) : num :=
  match a with
  | Fin x => Fin (IZR (Int_part x))
  | _ => a
  end.

(** [Math.min(a, b)] and [Math.max(a, b)]: [NaN] when an argument is. *)
Definition min (a b : num) : num :=
  match a, b with
  | NaN, _ | _, NaN => NaN
  | _, _ => if Num.lt b a then b else a
  end.

Definition max (a b : num) : num :=
  match a, b with
  | NaN, _ | _, NaN => NaN
  | _, _ => if Num.lt a b then b else a
  end.

Definition is_integer (y : R) : bool :=
  if Req_dec_T y (IZR (Int_part y)) then true else false.

Definition is_odd_integer (y : R) : bool :=
  is_integer y && Z.odd (Int_part y).

(** [Math.pow(base, exponent)], also the operator [**]
    (Number::exponentiate). *)
Definition pow (base exponent : num) : num :=
  match exponent with
  | NaN => NaN
  | PInf =>
      match base with
      | NaN => NaN
      | PInf | NInf => PInf
      | Fin b =>
          if Rlt_dec 1 (Rabs b) then PInf
          else if Req_dec_T (Rabs b) 1 then NaN else Fin 0
      end
  | NInf =>
      match base with
      | NaN => NaN
      | PInf | NInf => Fin 0
      | Fin b =>
          if Rlt_dec 1 (Rabs b) then Fin 0
          else if Req_dec_T (Rabs b) 1 then NaN else PInf
      end
  | Fin y =>
      if Req_dec_T y 0 then Fin 1
      else
        match base with
        | NaN => NaN
        | PInf => if Rlt_dec 0 y then PInf else Fin 0
        | NInf =>
            if Rlt_dec 0 y
            then (if is_odd_integer y then NInf else PInf)
            else Fin 0
        | Fin b =>
            if Req_dec_T b 0 then (if Rlt_dec 0 y then Fin 0 else PInf)
            else if Rlt_dec 0 b then Fin (Rpower b y)
            else if is_integer y then Fin (powerRZ b (Int_part y))
            else NaN
        end
  end.

Definition acos (a : num) : num :=
  match a with
  | Fin x =>
      if Rlt_dec x (-1) then NaN
      else if Rlt_dec 1 x then NaN
      else Fin (Ratan.acos x)
  | _ => NaN
  end.

Definition cos (a : num) : num :=
  match a with
  | Fin x => Fin (Rtrigo_def.cos x)
  | _ => NaN
  end.

Definition sin (a : num) : num :=
  match a with
  | Fin x => Fin (Rtrigo_def.sin x)
  | _ => NaN
  end.

(** [Math.atan2(y, x)] between finite arguments. *)
Definition atan2_fin (y x : R) : R :=
  if Rlt_dec 0 x then atan (y / x)
  else if Rlt_dec x 0 then
    (if Rlt_dec y 0 then atan (y / x) - Rtrigo1.PI
     else atan (y / x) + Rtrigo1.PI)
  else if Rlt_dec 0 y then Rtrigo1.PI / 2
  else if Rlt_dec y 0 then - (Rtrigo1.PI / 2)
  else 0.

Definition atan2 (y x : num) : num :=
  match y, x with
  | NaN, _ | _, NaN => NaN
  | PInf, PInf => Fin (Rtrigo1.PI / 4)
  | PInf, NInf => Fin (3 * Rtrigo1.PI / 4)
  | PInf, Fin _ => Fin (Rtrigo1.PI / 2)
  | NInf, PInf => Fin (- (Rtrigo1.PI / 4))
  | NInf, NInf => Fin (- (3 * Rtrigo1.PI / 4))
  | NInf, Fin _ => Fin (- (Rtrigo1.PI / 2))
  | Fin _, PInf => Fin 0
  | Fin b, NInf => if Rlt_dec b 0 then Fin (- Rtrigo1.PI) else Fin Rtrigo1.PI
  | Fin b, Fin a => Fin (atan2_fin b a)
  end.

End Math.

Declare Scope num_scope.
Delimit Scope num_scope with num.
Bind Scope num_scope with num.
Infix "+" := Num.add : num_scope.
Infix "-" := Num.sub : num_scope.
Infix "*" := Num.mul : num_scope.
Infix "/" := Num.div : num_scope.
Notation "- a" := (Num.neg a) : num_scope.
Infix "<?" := Num.lt : num_scope.
Infix ">?" := Num.gt (at level 70) : num_scope.
Infix "<=?" := Num.le : num_scope.
Infix "**" := Math.pow (at level 30, right associativity) : num_scope.

(** ** The host's random samplers *)

(** [Math_random h n] is what the n-th call of [Math.random()] returns and
    [d3_randomNormal h n] what the n-th call of a sampler made by
    [d3.randomNormal(0, 0.1)] returns. *)
Record host : Type := Host {
  Math_random : nat -> num;
  d3_randomNormal : nat -> num
}.

(** How many calls of each sampler the program has made so far. *)
Record calls : Type := Calls {
  n_random : nat;
  n_normal : nat
}.

Definition more_calls (c : calls) (r n : nat) : calls :=
  {| n_random := n_random c + r; n_normal := n_normal c + n |}.

(** ** Data model *)

Module Element.
Record t : Type := mk {
  name : string;
  A : num;
  color : string;
  massFrac : num;
  D0 : num
}.
End Element.

Module Particle.
Record t : Type := mk {
  id : nat;
  element : string;
  mass : num;
  A : num;
  color : string;
  diffusionCoeff : num;
  xi : num;
  theta : num;
  phi : num;
  x : num;
  y : num;
  z : num;
  vx : num;
  vy : num;
  vz : num;
  temperature : num;
  density : num
}.
End Particle.

(** The [config] argument of the constructor; [None] is a missing property. *)
Module Config.
Record t : Type := mk {
  energy : option num;
  density : option num;
  elements : option (list Element.t)
}.

(** [{}] *)
Definition empty : t := mk None None None.
End Config.

(** The object [getState] returns. *)
Module State.
Record t : Type := mk {
  time : num;
  radius : num;
  velocity : num;
  temperature : num
}.
End State.

(** ** [class SupernovaModel] *)

Module SupernovaModel.

Local Open Scope string_scope.
Local Open Scope num_scope.

Record t : Type := mk {
  energy : num;
  density : num;
  time : num;
  elements : list Element.t;
  particles : list Particle.t
}.

Definition default_elements : list Element.t :=
  [ Element.mk "Fe" (Fin 56) "#e74c3c" (Fin 0.15) (Fin 1e18);
    Element.mk "Si" (Fin 28) "#f39c12" (Fin 0.25) (Fin 2e18);
    Element.mk "O" (Fin 16) "#3498db" (Fin 0.35) (Fin 3e18);
    Element.mk "C" (Fin 12) "#2ecc71" (Fin 0.25) (Fin 4e18) ].

Definition getShockRadius (this : t) : num :=
  let t_sec := time this * Fin 3.156e7 in
  let beta := Fin 1.15 in
  let factor := beta * Math.pow (energy this / density this) (Fin 0.2) in
  let radius_cm := factor * Math.pow t_sec (Fin 0.4) in
  radius_cm / Fin 3.086e18.

Definition getShockVelocity (this : t) : num :=
  let R_pc := getShockRadius this in
  let R_cm := R_pc * Fin 3.086e18 in
  let t_sec := time this * Fin 3.156e7 in
  Fin 0.4 * R_cm / t_sec / Fin 1e5.

Definition getShockTemperature (this : t) : num :=
  let v_shock := getShockVelocity this * Fin 1e5 in
  let mu := Fin 0.6 in
  let k_B := Fin 1.38e-16 in
  (Fin 3 / Fin 16) * mu * (v_shock ** Fin 2) / k_B.

(** The number of turns of [for (let i = 0; i < n; i++)]; [None] when the
    loop never ends. *)
Definition loop_count (n : num) : option nat :=
  match n with
  | NaN | NInf => Some O
  | PInf => None
  | Fin r => Some (Z.to_nat (- Int_part (- r)))
  end.

(** The object pushed by one turn of the inner loop of
    [initializeParticles]. *)
Definition new_particle (h : host) (c : calls) (particleId : nat)
    (elem : Element.t) : Particle.t :=
  let r0 := Math.abs (d3_randomNormal h (n_normal c)) * Fin 0.1 in
  let u := Math_random h (n_random c) * Fin 2 - Fin 1 in
  let phi := Math.acos u in
  let theta := Math_random h (n_random c + 1) * Fin 2 * Math.PI in
  let mass :=
    Element.A elem * Fin 1.66e-24
    * (Fin 0.5 + Math_random h (n_random c + 2)) in
  {| Particle.id := particleId;
     Particle.element := Element.name elem;
     Particle.mass := mass;
     Particle.A := Element.A elem;
     Particle.color := Element.color elem;
     Particle.diffusionCoeff := Element.D0 elem / Math.sqrt (Element.A elem);
     Particle.xi := r0;
     Particle.theta := theta;
     Particle.phi := phi;
     Particle.x := Fin 0;
     Particle.y := Fin 0;
     Particle.z := Fin 0;
     Particle.vx := Fin 0;
     Particle.vy := Fin 0;
     Particle.vz := Fin 0;
     Particle.temperature := Fin 0;
     Particle.density := Fin 0 |}.

(** What [initializeParticles] carries from turn to turn: the samplers'
    call counters, [particleId] and [this.particles]. *)
Record init_state : Type := InitState {
  i_calls : calls;
  i_particleId : nat;
  i_particles : list Particle.t
}.

(** [n] turns of the inner [for] loop. *)
Fixpoint for_particles (h : host) (elem : Element.t) (n : nat)
    (s : init_state) : init_state :=
  match n with
  | O => s
  | S n' =>
      for_particles h elem n'
        {| i_calls := more_calls (i_calls s) 3 1;
           i_particleId := S (i_particleId s);
           i_particles :=
             i_particles s
             ++ [new_particle h (i_calls s) (i_particleId s) elem] |}
  end.

(** [this.elements.forEach(elem => ...)] *)
Fixpoint forEach_element (h : host) (elems : list Element.t)
    (s : init_state) : option init_state :=
  match elems with
  | [] => Some s
  | elem :: rest =>
      let totalParticles := Fin 2000 in
      let nParticles := Math.floor (totalParticles * Element.massFrac elem) in
      match loop_count nParticles with
      | None => None
      | Some n => forEach_element h rest (for_particles h elem n s)
      end
  end.

(** [initializeParticles()]: the new [this.particles] and call counters. *)
Definition initializeParticles (h : host) (c : calls) (this : t)
    : option (t * calls) :=
  match forEach_element h (elements this)
          {| i_calls := c; i_particleId := O;
             i_particles := particles this |} with
  | None => None
  | Some s =>
      Some (mk (energy this) (density this) (time this) (elements this)
              (i_particles s),
            i_calls s)
  end.

(** [new SupernovaModel(config)].  The constructor has no [throw]; [None]
    is a particle loop that never ends. *)
Definition constructor (h : host) (c : calls) (config : Config.t)
    : option (t * calls) :=
  initializeParticles h c
    {| energy := Num.or_default (Config.energy config) (Fin 1e51);
       density := Num.or_default (Config.density config) (Fin 1e-24);
       time := Fin 0;
       elements :=
         match Config.elements config with
         | Some es => es
         | None => default_elements
         end;
       particles := [] |}.

Definition velocityProfile (xi : num) : num :=
  if xi <? Fin 0.8 then Fin 1.0 - Fin 1.2 * xi + Fin 0.8 * xi * xi
  else Fin 0.5 * (Fin 1 - xi) / (Fin 1 - Fin 0.8).

Definition densityProfile (xi : num) : num :=
  let gamma := Fin 5 / Fin 3 in
  let alpha := (gamma + Fin 1) / (gamma - Fin 1) in
  Math.pow (Fin 1 - xi) (Fin 1 / (gamma - Fin 1))
  * Math.pow (Fin 1 - xi / alpha) (Fin (-1)).

(** The body of [this.particles.forEach(p => ...)] in [update]; it calls
    [Math.random()] four times. *)
Definition update_particle (this : t)
    (dt R_shock_pc R_shock_cm v_shock_kms T_shock : num)
    (h : host) (c : calls) (p : Particle.t) : Particle.t :=
  let v_factor := velocityProfile (Particle.xi p) in
  let v_radial := v_shock_kms * Fin 1e5 * v_factor in
  let dt_sec := dt * Fin 3.156e7 in
  let diffusionDist :=
    Math.sqrt (Fin 2 * Particle.diffusionCoeff p * dt_sec) in
  let u := Math_random h (n_random c) * Fin 2 - Fin 1 in
  let diffPhi := Math.acos u in
  let diffTheta := Math_random h (n_random c + 1) * Fin 2 * Math.PI in
  let radialStep := v_radial * dt_sec + diffusionDist * Math.cos diffPhi in
  let dxi := radialStep / R_shock_cm in
  let xi := Math.min (Fin 1.0) (Math.max (Fin 0) (Particle.xi p + dxi)) in
  let theta :=
    Particle.theta p + (Math_random h (n_random c + 2) - Fin 0.5) * Fin 0.15 in
  let phi0 :=
    Particle.phi p + (Math_random h (n_random c + 3) - Fin 0.5) * Fin 0.15 in
  let phi1 := if phi0 <? Fin 0 then - phi0 else phi0 in
  let phi := if phi1 >? Math.PI then Fin 2 * Math.PI - phi1 else phi1 in
  let r_pc := xi * R_shock_pc in
  let sinPhi := Math.sin phi in
  let cosPhi := Math.cos phi in
  let cosTheta := Math.cos theta in
  let sinTheta := Math.sin theta in
  let v_cart := v_radial in
  {| Particle.id := Particle.id p;
     Particle.element := Particle.element p;
     Particle.mass := Particle.mass p;
     Particle.A := Particle.A p;
     Particle.color := Particle.color p;
     Particle.diffusionCoeff := Particle.diffusionCoeff p;
     Particle.xi := xi;
     Particle.theta := theta;
     Particle.phi := phi;
     Particle.x := r_pc * sinPhi * cosTheta;
     Particle.y := r_pc * sinPhi * sinTheta;
     Particle.z := r_pc * cosPhi;
     Particle.vx := v_cart * sinPhi * cosTheta;
     Particle.vy := v_cart * sinPhi * sinTheta;
     Particle.vz := v_cart * cosPhi;
     Particle.temperature := T_shock * Math.pow (Fin 1 - xi) (Fin 0.5);
     Particle.density := density this * densityProfile xi |}.

(** [ps.forEach(f)] where each call of [f] makes four calls of
    [Math.random()]. *)
Fixpoint forEach_particle (f : calls -> Particle.t -> Particle.t)
    (c : calls) (ps : list Particle.t) : list Particle.t * calls :=
  match ps with
  | [] => ([], c)
  | p :: rest =>
      let p' := f c p in
      let (rest', c') := forEach_particle f (more_calls c 4 0) rest in
      (p' :: rest', c')
  end.

Definition update (h : host) (c : calls) (dt : num) (this : t)
    : t * calls :=
  let this1 :=
    mk (energy this) (density this) (time this + dt) (elements this)
      (particles this) in
  let R_shock_pc := getShockRadius this1 in
  let R_shock_cm := R_shock_pc * Fin 3.086e18 in
  let v_shock_kms := getShockVelocity this1 in
  let T_shock := getShockTemperature this1 in
  let (ps, c') :=
    forEach_particle
      (update_particle this1 dt R_shock_pc R_shock_cm v_shock_kms T_shock h)
      c (particles this1) in
  (mk (energy this1) (density this1) (time this1) (elements this1) ps, c').

Definition getParticles (this : t) : list Particle.t := particles this.

Definition getState (this : t) : State.t :=
  {| State.time := time this;
     State.radius := getShockRadius this;
     State.velocity := getShockVelocity this;
     State.temperature := getShockTemperature this |}.

End SupernovaModel.

(** ** JavaScript arrays *)

Module JsArray.

Local Open Scope R_scope.

(** The array index a number denotes when used as a property key: a
    non-negative integer below [2^32 - 1]; any other key names a property
    that is not an element. *)
Definition to_index (k : num) : option nat :=
  match k with
  | Fin r =>
      if Math.is_integer r && (0 <=? Int_part r)%Z
         && (Int_part r <? 4294967295)%Z
      then Some (Z.to_nat (Int_part r))
      else None
  | _ => None
  end.

(** [a[i] = v] inside the array. *)
Fixpoint set (A : Type) (i : nat) (v : A) (a : list A) : list A :=
  match a, i with
  | [], _ => []
  | _ :: rest, O => v :: rest
  | e :: rest, S i' => e :: set i' v rest
  end.

(** [a.map((e, i) => f(e, i))], the first element having index [start]. *)
Fixpoint mapi_from (A B : Type) (f : A -> nat -> B) (start : nat)
    (a : list A) : list B :=
  match a with
  | [] => []
  | e :: rest => f e start :: mapi_from f (S start) rest
  end.

Definition mapi (A B : Type) (f : A -> nat -> B) (a : list A) : list B :=
  mapi_from f O a.

(** An array that may have holes: [None] is an index with no element. *)
Definition sparse (A : Type) : Type := list (option A).

(** [a[i]] on a sparse array; [None] is [undefined]. *)
Definition get (A : Type) (a : sparse A) (i : nat) : option A :=
  match nth_error a i with
  | Some e => e
  | None => None
  end.

(** [a[i] = v] on a sparse array: writing past the end lengthens the
    array and leaves holes in between. *)
Definition put (A : Type) (i : nat) (v : A) (a : sparse A) : sparse A :=
  if (i <? length a)%nat then set i (Some v) a
  else a ++ repeat None (i - length a) ++ [Some v].

End JsArray.

(** ** [class DataManager] *)

Module DataManager.

Local Open Scope num_scope.

(** An element of the local [hist] of [updateRadialDistribution]. *)
Record hist_bin : Type := HistBin {
  h_count : num;
  h_mass : num
}.

(** An element of [data.radialDist]. *)
Record radial_bin : Type := RadialBin {
  r_radius : num;
  r_count : num;
  r_density : num
}.

(** An element of [data.angularDist]. *)
Record angular_bin : Type := AngularBin {
  a_angle : num;
  a_count : num
}.

(** An element of [data.timeSeries]. *)
Record sample : Type := Sample {
  s_time : num;
  s_radius : num;
  s_velocity : num;
  s_temperature : num;
  s_particleCount : nat
}.

(** [this.data] and [this.binConfig].  [this.model] is a reference to the
    model object: every method below takes the model as it is when the
    method is called. *)
Record t : Type := mk {
  particles : list Particle.t;
  radialDist : list radial_bin;
  angularDist : JsArray.sparse angular_bin;
  timeSeries : list sample;
  radial : nat;
  angular : nat;
  maxHistory : nat
}.

Definition constructor : t :=
  {| particles := []; radialDist := []; angularDist := []; timeSeries := [];
     radial := 50; angular := 36; maxHistory := 100 |}.

(** What a method call ends in: a normal return, or a [TypeError] thrown
    with the object left as given. *)
Inductive outcome : Type :=
| Returns (this : t)
| TypeError (this : t).

(** *** [updateRadialDistribution] *)

(** The radius [r] computed for a particle. *)
Definition radius3d (p : Particle.t) : num :=
  Math.sqrt (Particle.x p ** Fin 2 + Particle.y p ** Fin 2
             + Num.or (Particle.z p) (Fin 0) ** Fin 2).

Definition radial_binIdx (bins : nat) (maxRadius : num) (p : Particle.t)
    : num :=
  let r := radius3d p in
  Math.min (Num.of_nat bins - Fin 1)
    (Math.floor ((r / maxRadius) * Num.of_nat bins)).

(** [this.data.particles.forEach(p => ...)]; [None] when [hist[binIdx]] is
    [undefined], whose property [count] cannot be read. *)
Fixpoint radial_forEach (bins : nat) (maxRadius : num)
    (ps : list Particle.t) (hist : list hist_bin) : option (list hist_bin) :=
  match ps with
  | [] => Some hist
  | p :: rest =>
      let binIdx := radial_binIdx bins maxRadius p in
      match JsArray.to_index binIdx with
      | None => None
      | Some i =>
          match nth_error hist i with
          | None => None
          | Some hb =>
              radial_forEach bins maxRadius rest
                (JsArray.set i
                   {| h_count := h_count hb + Fin 1;
                      h_mass := h_mass hb + Particle.mass p |} hist)
          end
      end
  end.

Definition radial_entry (bins : nat) (maxRadius : num) (h : hist_bin)
    (i : nat) : radial_bin :=
  {| r_radius := (Num.of_nat i + Fin 0.5) * maxRadius / Num.of_nat bins;
     r_count := h_count h;
     r_density :=
       h_mass h
       / (Math.PI
          * ((Num.of_nat i + Fin 1) ** Fin 2 - Num.of_nat i ** Fin 2)
          * (maxRadius / Num.of_nat bins) ** Fin 2) |}.

Definition updateRadialDistribution (model : SupernovaModel.t) (this : t)
    : outcome :=
  let bins := radial this in
  let maxRadius := SupernovaModel.getShockRadius model in
  let hist := repeat {| h_count := Fin 0; h_mass := Fin 0 |} bins in
  match radial_forEach bins maxRadius (particles this) hist with
  | None => TypeError this
  | Some hist' =>
      Returns
        (mk (particles this)
           (JsArray.mapi (radial_entry bins maxRadius) hist')
           (angularDist this) (timeSeries this)
           (radial this) (angular this) (maxHistory this))
  end.

(** *** [updateAngularDistribution] *)

Definition angular_binIdx (bins : nat) (p : Particle.t) : num :=
  let angle := Math.atan2 (Particle.y p) (Particle.x p) + Math.PI in
  Math.floor ((angle / (Fin 2 * Math.PI)) * Num.of_nat bins).

(** [hist[binIdx]++]: an [undefined] element counts as [NaN]; a key that is
    not an index names a property that is no element of the array. *)
Definition increment (binIdx : num) (hist : JsArray.sparse num)
    : JsArray.sparse num :=
  match JsArray.to_index binIdx with
  | None => hist
  | Some i =>
      let old :=
        match JsArray.get hist i with
        | Some v => v
        | None => NaN
        end in
      JsArray.put i (old + Fin 1) hist
  end.

Fixpoint angular_forEach (bins : nat) (ps : list Particle.t)
    (hist : JsArray.sparse num) : JsArray.sparse num :=
  match ps with
  | [] => hist
  | p :: rest =>
      angular_forEach bins rest (increment (angular_binIdx bins p) hist)
  end.

(** The callback of [hist.map] in [updateAngularDistribution]; [map] skips
    the holes. *)
Definition angular_entry (bins : nat) (e : option num) (i : nat)
    : option angular_bin :=
  match e with
  | None => None
  | Some count =>
      Some {| a_angle :=
                (Num.of_nat i + Fin 0.5) * Fin 2 * Math.PI / Num.of_nat bins;
              a_count := count |}
  end.

Definition updateAngularDistribution (this : t) : t :=
  let bins := angular this in
  let hist := repeat (Some (Fin 0)) bins in
  let hist' := angular_forEach bins (particles this) hist in
  mk (particles this) (radialDist this)
    (JsArray.mapi (angular_entry bins) hist')
    (timeSeries this) (radial this) (angular this) (maxHistory this).

(** *** [updateTimeSeries] *)

Definition new_sample (model : SupernovaModel.t) (this : t) : sample :=
  let state := SupernovaModel.getState model in
  {| s_time := State.time state;
     s_radius := State.radius state;
     s_velocity := State.velocity state;
     s_temperature := State.temperature state;
     s_particleCount := length (particles this) |}.

Definition updateTimeSeries (model : SupernovaModel.t) (this : t) : t :=
  let pushed := timeSeries this ++ [new_sample model this] in
  let series :=
    if (maxHistory this <? length pushed)%nat then tl pushed else pushed in
  mk (particles this) (radialDist this) (angularDist this) series
    (radial this) (angular this) (maxHistory this).

(** *** [update] *)

Definition update (model : SupernovaModel.t) (this : t) : outcome :=
  let this1 :=
    mk (SupernovaModel.getParticles model) (radialDist this)
      (angularDist this) (timeSeries this)
      (radial this) (angular this) (maxHistory this) in
  match updateRadialDistribution model this1 with
  | TypeError this2 => TypeError this2
  | Returns this2 =>
      Returns (updateTimeSeries model (updateAngularDistribution this2))
  end.

Definition getParticles (this : t) : list Particle.t := particles this.
Definition getRadialDist (this : t) : list radial_bin := radialDist this.
Definition getAngularDist (this : t) : JsArray.sparse angular_bin :=
  angularDist this.
Definition getTimeSeries (this : t) : list sample := timeSeries this.

End DataManager.

(** ** [class Visualization]: the view and the projection *)

Module Visualization.

Local Open Scope num_scope.

(** The fields [project3DTo2D] reads: the view angles, in degrees, and the
    view range, in pc.  The other fields of the object hold the container,
    the D3 scales and the SVG selections. *)
Record t : Type := mk {
  azimuth : num;
  elevation : num;
  viewRange : num
}.

(** The view the constructor sets. *)
Definition constructor : t :=
  {| azimuth := Fin 45; elevation := Fin 20; viewRange := Fin 10 |}.

Definition setViewAngles (azimuthDeg elevationDeg : num) (this : t) : t :=
  {| azimuth := azimuthDeg; elevation := elevationDeg;
     viewRange := viewRange this |}.

(** [setViewRange] then redraws the scales and the axes, which are not
    part of the view. *)
Definition setViewRange (rangePc : num) (this : t) : t :=
  {| azimuth := azimuth this; elevation := elevation this;
     viewRange := rangePc |}.

(** The object [project3DTo2D] returns. *)
Record projected : Type := Projected {
  xp : num;
  yp : num
}.

Definition project3DTo2D (this : t) (p : Particle.t) : projected :=
  let az := (azimuth this * Math.PI) / Fin 180 in
  let el := (elevation this * Math.PI) / Fin 180 in
  let cosAz := Math.cos az in
  let sinAz := Math.sin az in
  let x1 := Particle.x p * cosAz - Particle.y p * sinAz in
  let y1 := Particle.x p * sinAz + Particle.y p * cosAz in
  let z1 := Particle.z p in
  let cosEl := Math.cos el in
  let sinEl := Math.sin el in
  let x2 := x1 in
  let y2 := y1 * cosEl - z1 * sinEl in
  let z2 := y1 * sinEl + z1 * cosEl in
  let perspective := Fin 1 / (Fin 1 + z2 / (viewRange this * Fin 2)) in
  {| xp := x2 * perspective; yp := y2 * perspective |}.

End Visualization.

(** ** The caller *)

(** The driver's frame ([run] in the simulation controller) calls
    [model.update(dt)] and then [dataManager.update()]. *)
Module Driver.

(** [model.update(dt)] for each [dt] of the list, in order. *)
Fixpoint steps (h : host) (c : calls) (dts : list num)
    (model : SupernovaModel.t) : SupernovaModel.t * calls :=
  match dts with
  | [] => (model, c)
  | dt :: rest =>
      let (model', c') := SupernovaModel.update h c dt model in
      steps h c' rest model'
  end.

(** One frame: [model.update(dt); dataManager.update()]. *)
Definition frame (h : host) (c : calls) (dt : num)
    (model : SupernovaModel.t) (dm : DataManager.t)
    : SupernovaModel.t * DataManager.outcome * calls :=
  let (model', c') := SupernovaModel.update h c dt model in
  (model', DataManager.update model' dm, c').

(** Frame after frame; an exception ends the run. *)
Fixpoint frames (h : host) (c : calls) (dts : list num)
    (model : SupernovaModel.t) (dm : DataManager.t)
    : SupernovaModel.t * DataManager.outcome * calls :=
  match dts with
  | [] => (model, DataManager.Returns dm, c)
  | dt :: rest =>
      match frame h c dt model dm with
      | (model', DataManager.Returns dm', c') => frames h c' rest model' dm'
      | stopped => stopped
      end
  end.

(** [dataManager.updateTimeSeries()] once for each model state of the list,
    in order. *)
Definition record_all (models : list SupernovaModel.t) (dm : DataManager.t)
    : DataManager.t :=
  fold_left (fun d model => DataManager.updateTimeSeries model d) models dm.

(** [dataManager.update()] once for each model state of the list, in
    order; an exception ends the run. *)
Fixpoint ingest_all (models : list SupernovaModel.t) (dm : DataManager.t)
    : DataManager.outcome :=
  match models with
  | [] => DataManager.Returns dm
  | model :: rest =>
      match DataManager.update model dm with
      | DataManager.Returns dm' => ingest_all rest dm'
      | stopped => stopped
      end
  end.

End Driver.

(** ** Ranges and reference inputs *)

Section Ranges.

Local Open Scope R_scope.

(** [a] is a number between [lo] and [hi]. *)
Definition in_range (lo hi : R) (a : num) : Prop :=
  exists r, a = Fin r /\ lo <= r <= hi.

(** [a] is a number greater than 0. *)
Definition positive (a : num) : Prop :=
  exists r, a = Fin r /\ 0 < r.

(** [Math.random()] returns numbers of [0, 1). *)
Definition uniform_host (h : host) : Prop :=
  forall n, exists r, Math_random h n = Fin r /\ 0 <= r < 1.

(** The normal sampler (mean 0, deviation 0.1) returns numbers that are at
    most 10 in magnitude, a hundred deviations. *)
Definition bounded_normal_host (h : host) : Prop :=
  forall n, exists r, d3_randomNormal h n = Fin r /\ Rabs r <= 10.

(** The two hosts return the same samples up to the call counts [c]. *)
Definition same_samples (h1 h2 : host) (c : calls) : Prop :=
  (forall n, (n < n_random c)%nat -> Math_random h1 n = Math_random h2 n)
  /\ (forall n, (n < n_normal c)%nat ->
                d3_randomNormal h1 n = d3_randomNormal h2 n).

(** A species as the configuration contract has it: positive mass number,
    a mass fraction that is a number, non-negative diffusion scale. *)
Definition valid_element (elem : Element.t) : Prop :=
  positive (Element.A elem)
  /\ (exists f, Element.massFrac elem = Fin f)
  /\ (exists d, Element.D0 elem = Fin d /\ 0 <= d).

Definition valid_config (config : Config.t) : Prop :=
  (forall e, Config.energy config = Some e -> positive e)
  /\ (forall d, Config.density config = Some d -> positive d)
  /\ (forall es, Config.elements config = Some es -> Forall valid_element es).

(** The ranges of the self-similar radius and of the polar angle. *)
Definition xi_phi_in_range (p : Particle.t) : Prop :=
  in_range 0 1 (Particle.xi p) /\ in_range 0 Rtrigo1.PI (Particle.phi p).

(** What the update of a particle relies on: those ranges, an
    azimuth that is a number and a diffusion coefficient that is a
    non-negative number. *)
Definition particle_inv (p : Particle.t) : Prop :=
  xi_phi_in_range p
  /\ (exists th, Particle.theta p = Fin th)
  /\ exists D, Particle.diffusionCoeff p = Fin D /\ 0 <= D.

(** What a step relies on: positive energy and density, a time that is a
    non-negative number, particles as above. *)
Definition model_inv (m : SupernovaModel.t) : Prop :=
  positive (SupernovaModel.energy m)
  /\ positive (SupernovaModel.density m)
  /\ (exists t, SupernovaModel.time m = Fin t /\ 0 <= t)
  /\ Forall particle_inv (SupernovaModel.particles m).

(** The Sedov-Taylor power law for the shock radius (pc) over the reals,
    with the energy in erg, the density in g/cm3 and the time in years. *)
Definition sedov_radius_pc (e d t : R) : R :=
  1.15 * Rpower (e / d) 0.2 * Rpower (t * 3.156e7) 0.4 / 3.086e18.

(** A host whose samplers always return one half. *)
Definition host_half : host :=
  {| Math_random := fun _ => Fin (1 / 2);
     d3_randomNormal := fun _ => Fin (1 / 2) |}.

(** The same host with a normal sampler that always returns one. *)
Definition host_one : host :=
  {| Math_random := fun _ => Fin (1 / 2);
     d3_randomNormal := fun _ => Fin 1 |}.

(** A host that returns one half for the first [r] uniform and the first
    [n] normal samples, and one quarter afterwards. *)
Definition host_half_until (r n : nat) : host :=
  {| Math_random := fun k => if (k <? r)%nat then Fin (1 / 2) else Fin (1 / 4);
     d3_randomNormal :=
       fun k => if (k <? n)%nat then Fin (1 / 2) else Fin (1 / 4) |}.

Definition no_calls : calls := {| n_random := 0; n_normal := 0 |}.

(** A configuration with one species, of which there is one particle. *)
Definition one_particle_config : Config.t :=
  Config.mk None None
    (Some [Element.mk "Fe" (Fin 56) "#e74c3c" (Fin 0.0005) (Fin 1e18)]).

(** What the constructor returns on [one_particle_config] with
    [host_half]. *)
Definition one_particle_model : SupernovaModel.t :=
  let Fe := Element.mk "Fe" (Fin 56) "#e74c3c" (Fin 0.0005) (Fin 1e18) in
  SupernovaModel.mk (Fin 1e51) (Fin 1e-24) (Fin 0) [Fe]
    [SupernovaModel.new_particle host_half no_calls 0 Fe].

(** A model with the default parameters and the given particles, at the
    given time. *)
Definition model_with (t : num) (ps : list Particle.t) : SupernovaModel.t :=
  SupernovaModel.mk (Fin 1e51) (Fin 1e-24) t SupernovaModel.default_elements
    ps.

Definition bare_model (t : num) : SupernovaModel.t := model_with t [].

(** [this] with [this.time = t]. *)
Definition at_time (t : num) (m : SupernovaModel.t) : SupernovaModel.t :=
  SupernovaModel.mk (SupernovaModel.energy m) (SupernovaModel.density m) t
    (SupernovaModel.elements m) (SupernovaModel.particles m).

(** A particle at rest at the given position. *)
Definition particle_at (x y z : num) : Particle.t :=
  {| Particle.id := 0; Particle.element := "Fe"%string;
     Particle.mass := Fin 1; Particle.A := Fin 56;
     Particle.color := "#e74c3c"%string; Particle.diffusionCoeff := Fin 0;
     Particle.xi := Fin 0; Particle.theta := Fin 0; Particle.phi := Fin 0;
     Particle.x := x; Particle.y := y; Particle.z := z;
     Particle.vx := Fin 0; Particle.vy := Fin 0; Particle.vz := Fin 0;
     Particle.temperature := Fin 0; Particle.density := Fin 0 |}.

(** [this] with [this.data.particles = ps]. *)
Definition with_particles (ps : list Particle.t) (dm : DataManager.t)
    : DataManager.t :=
  DataManager.mk ps (DataManager.radialDist dm) (DataManager.angularDist dm)
    (DataManager.timeSeries dm) (DataManager.radial dm)
    (DataManager.angular dm) (DataManager.maxHistory dm).

(** The sample an ingest of [model] pushes on the time series. *)
Definition sample_of_model (model : SupernovaModel.t) : DataManager.sample :=
  let state := SupernovaModel.getState model in
  {| DataManager.s_time := State.time state;
     DataManager.s_radius := State.radius state;
     DataManager.s_velocity := State.velocity state;
     DataManager.s_temperature := State.temperature state;
     DataManager.s_particleCount := length (SupernovaModel.particles model) |}.

(** A particle whose [x] and [y] are not [NaN]. *)
Definition located (p : Particle.t) : Prop :=
  Particle.x p <> NaN /\ Particle.y p <> NaN.

(** [a] is [+Infinity] or a number that is not negative. *)
Definition nonneg (a : num) : Prop :=
  a = PInf \/ exists r, a = Fin r /\ 0 <= r.

(** The counts are the natural numbers [ks]. *)
Definition counts_are (counts : list num) (ks : list nat) : Prop :=
  counts = map Num.of_nat ks.

(** [i] is the bin of the particle [p] in a histogram of 50 bins of the
    same width over the radii from 0 to [Rs]: the radius of [p] lies between
    the edges [i * Rs / 50] and [(i + 1) * Rs / 50] of the bin, to the
    relative 1e-9 that the rounding of the quotient may move a particle at
    an edge; the last bin has no outer edge and takes every particle at or
    beyond [Rs]. *)
Definition radial_bin_of (Rs : R) (p : Particle.t) (i : nat) : Prop :=
  (i < 50)%nat
  /\ (forall r,
        DataManager.radius3d p = Fin r ->
        INR i * (Rs / 50) <= r * (1 + 1e-9)
        /\ ((i < 49)%nat -> r <= (INR i + 1) * (Rs / 50) * (1 + 1e-9))
        /\ (Rs <= r -> i = 49%nat))
  /\ (DataManager.radius3d p = PInf -> i = 49%nat).

(** [i] is the index [updateRadialDistribution] computes for [p], and it
    is the bin of [p]. *)
Definition binned (Rs : R) (p : Particle.t) (i : nat) : Prop :=
  JsArray.to_index (DataManager.radial_binIdx 50 (Fin Rs) p) = Some i
  /\ radial_bin_of Rs p i.

(** The number of particles in bin [i], given the bins of the particles. *)
Definition count_in_bin (bins : list nat) (i : nat) : nat :=
  count_occ Nat.eq_dec bins i.

(** The mass in bin [i], given the bins and the masses of the particles, in
    the order of the ensemble. *)
Fixpoint mass_in_bin (bins : list nat) (ms : list R) (i : nat) : R :=
  match bins, ms with
  | j :: bins', m :: ms' =>
      (if Nat.eqb j i then m else 0) + mass_in_bin bins' ms' i
  | _, _ => 0
  end.

(** [p] lies at the fraction [xi] of the radius [Rs] from the origin. *)
Definition placed_at (Rs : R) (p : Particle.t) : Prop :=
  exists xi,
    Particle.xi p = Fin xi /\ 0 <= xi <= 1
    /\ DataManager.radius3d p = Fin (xi * Rs).

(** The velocity of [p] is made of numbers and its magnitude is at most
    [vmax]. *)
Definition speed_at_most (vmax : R) (p : Particle.t) : Prop :=
  exists vx vy vz,
    Particle.vx p = Fin vx /\ Particle.vy p = Fin vy
    /\ Particle.vz p = Fin vz
    /\ vx * vx + vy * vy + vz * vz <= vmax * vmax.

(** The angles of [p'] are those of [p] turned by at most 0.075 rad
    each. *)
Definition turned (p p' : Particle.t) : Prop :=
  exists th ph th' ph',
    Particle.theta p = Fin th /\ Particle.phi p = Fin ph
    /\ Particle.theta p' = Fin th' /\ Particle.phi p' = Fin ph'
    /\ Rabs (th' - th) <= 0.075 /\ Rabs (ph' - ph) <= 0.075.

(** The sum of a list of reals. *)
Definition Rsum (l : list R) : R := fold_right Rplus 0 l.

(** A particle as the constructor makes it for one of the species [elems]:
    the name, the positive mass number and the colour of the species, its
    diffusion coefficient [D0 / sqrt(A)], a mass between one half and three
    halves of [A] atomic mass units, an azimuth in [0, 2 PI], at rest at the
    origin with no temperature and no density yet. *)
Definition fresh (elems : list Element.t) (p : Particle.t) : Prop :=
  exists elem a,
    In elem elems /\ Element.A elem = Fin a /\ 0 < a
    /\ Particle.element p = Element.name elem
    /\ Particle.A p = Fin a
    /\ Particle.color p = Element.color elem
    /\ Particle.diffusionCoeff p
       = Num.div (Element.D0 elem) (Math.sqrt (Element.A elem))
    /\ in_range (a * 1.66e-24 * 0.5) (a * 1.66e-24 * 1.5) (Particle.mass p)
    /\ in_range 0 (2 * Rtrigo1.PI) (Particle.theta p)
    /\ Particle.x p = Fin 0 /\ Particle.y p = Fin 0 /\ Particle.z p = Fin 0
    /\ Particle.vx p = Fin 0 /\ Particle.vy p = Fin 0
    /\ Particle.vz p = Fin 0
    /\ Particle.temperature p = Fin 0 /\ Particle.density p = Fin 0.

(** A particle whose [x] and [y] are numbers that do not put it on the
    negative x axis ([y = 0], [x < 0]). *)
Definition off_negative_x_axis (p : Particle.t) : Prop :=
  exists x y,
    Particle.x p = Fin x /\ Particle.y p = Fin y /\ (y <> 0 \/ 0 <= x).

(** The angular histogram has no hole and its counts are the natural
    numbers [ks]. *)
Definition angular_counts_are (dist : JsArray.sparse DataManager.angular_bin)
    (ks : list nat) : Prop :=
  map (option_map DataManager.a_count) dist
  = map (fun k => Some (Num.of_nat k)) ks.

(** The masses of the particles are the numbers [ms]. *)
Definition masses_are (ps : list Particle.t) (ms : list R) : Prop :=
  map Particle.mass ps = map Fin ms.

(** [p] has a position made of numbers, at most [Rs] from the origin. *)
Definition within (Rs : R) (p : Particle.t) : Prop :=
  exists x y z,
    Particle.x p = Fin x /\ Particle.y p = Fin y /\ Particle.z p = Fin z
    /\ x * x + y * y + z * z <= Rs * Rs.

(** The view [v] projects [p] to numbers, no further than [2 * Rs] from
    the centre of the picture. *)
Definition projects_within (v : Visualization.t) (Rs : R) (p : Particle.t)
    : Prop :=
  exists a b,
    Visualization.project3DTo2D v p
    = {| Visualization.xp := Fin a; Visualization.yp := Fin b |}
    /\ a * a + b * b <= (2 * Rs) * (2 * Rs).

(** The times reached by steps of [ds] years from the time [t]. *)
Fixpoint elapsed (t : R) (ds : list R) : list R :=
  match ds with
  | [] => []
  | d :: rest => (t + d) :: elapsed (t + d) rest
  end.

(** *** Working ranges

    A double overflows to [Infinity] above 1.8e308 and underflows to 0
    below 4.9e-324; the real numbers of the embedding do neither.  The
    properties of the Sedov-Taylor formulas are stated for an energy and a
    density whose quotient stays away from both ends, and the properties of
    runs for configurations and steps in the ranges below, inside which no
    operation of [update], of the aggregator and of the projection leaves
    the numbers: with [1e-100 <= energy / density <= 1e200] and a time
    between 1e-6 and 1e15 years the shock radius lies between 4e-20 and
    2e49 cm, the shock velocity between 1e-34 and 1e39 cm/s and the
    post-shock temperature between 1e-53 and 1e93 K. *)

(** A positive energy and density whose quotient is between 1e-300 and
    1e300. *)
Definition quotient_in_range (e d : R) : Prop :=
  0 < e /\ 0 < d /\ 1e-300 <= e / d <= 1e300.

(** A positive energy and density whose quotient is between 1e-100 and
    1e200. *)
Definition moderate_quotient (e d : R) : Prop :=
  0 < e /\ 0 < d /\ 1e-100 <= e / d <= 1e200.

(** A species with a mass number between 1 and 1e6, a mass fraction
    between 0 and 1 and a diffusion scale between 0 and 1e100. *)
Definition moderate_element (elem : Element.t) : Prop :=
  in_range 1 1e6 (Element.A elem)
  /\ in_range 0 1 (Element.massFrac elem)
  /\ in_range 0 1e100 (Element.D0 elem).

(** A valid configuration whose energy and density, given or by default,
    have a quotient between 1e-100 and 1e200, and whose species are as
    above. *)
Definition moderate_config (config : Config.t) : Prop :=
  valid_config config
  /\ (exists e d,
        Num.or_default (Config.energy config) (Fin 1e51) = Fin e
        /\ Num.or_default (Config.density config) (Fin 1e-24) = Fin d
        /\ moderate_quotient e d)
  /\ (forall es,
        Config.elements config = Some es -> Forall moderate_element es).

(** Steps of at least 1e-6 years each that add up to at most 1e15 years. *)
Definition moderate_steps (ds : list R) : Prop :=
  Forall (fun d => 1e-6 <= d) ds /\ Rsum ds <= 1e15.

(** A particle whose [x] and [y] are numbers that keep it clear of the
    negative x axis: either [x > 0], or [y < 0], or [y > 0] with
    [y >= 1e-9 * |x|], so that the rounding of [atan2] cannot return [PI].
    The origin is not clear of the axis: the program makes it with
    [x = -0], where [atan2(0, -0)] is [PI]. *)
Definition clear_of_negative_x_axis (p : Particle.t) : Prop :=
  exists x y,
    Particle.x p = Fin x /\ Particle.y p = Fin y
    /\ (0 < x \/ y < 0 \/ (0 < y /\ 1e-9 * - x <= y)).

End Ranges.

(** * Properties *)

Unset Implicit Arguments.

(** ** Integer parts *)

Section IntegerParts.

Local Open Scope R_scope.

Lemma Int_part_between (r : R) (z : Z) :
  IZR z <= r < IZR z + 1 -> Int_part r = z.
Proof.
  intros [Hlo Hhi]. symmetry. apply Int_part_spec. lra.
Qed.

Lemma Int_part_IZR (z : Z) : Int_part (IZR z) = z.
Proof. apply Int_part_between. lra. Qed.

Lemma Int_part_bounds (r : R) : IZR (Int_part r) <= r < IZR (Int_part r) + 1.
Proof. destruct (base_Int_part r). lra. Qed.

Lemma is_integer_IZR (z : Z) : Math.is_integer (IZR z) = true.
Proof.
  unfold Math.is_integer. rewrite Int_part_IZR.
  destruct (Req_dec_T (IZR z) (IZR z)); congruence.
Qed.

Lemma loop_count_floor (r : R) (z : Z) :
  IZR z <= r < IZR z + 1 ->
  SupernovaModel.loop_count (Math.floor (Fin r)) = Some (Z.to_nat z).
Proof.
  intros H. simpl. rewrite (Int_part_between r z H).
  rewrite <- opp_IZR, Int_part_IZR. f_equal. lia.
Qed.

End IntegerParts.

(** ** The constructor *)

Section Constructor.

Import SupernovaModel.

Variable h : host.

Lemma for_particles_spec (elem : Element.t) (n : nat) (s : init_state) :
  i_calls (for_particles h elem n s) = more_calls (i_calls s) (3 * n) n
  /\ i_particleId (for_particles h elem n s) = (i_particleId s + n)%nat
  /\ length (i_particles (for_particles h elem n s))
     = (length (i_particles s) + n)%nat.
Proof.
  revert s. induction n as [|n IH]; intros s.
  - simpl. destruct s as [[r m] i ps]. unfold more_calls. simpl.
    repeat split; try lia. f_equal; lia.
  - simpl for_particles. destruct (IH
      {| i_calls := more_calls (i_calls s) 3 1;
         i_particleId := S (i_particleId s);
         i_particles :=
           i_particles s
           ++ [new_particle h (i_calls s) (i_particleId s) elem] |})
      as (Hc & Hi & Hl).
    rewrite Hc, Hi, Hl. simpl. rewrite length_app. simpl.
    unfold more_calls. simpl. repeat split; try lia. f_equal; lia.
Qed.

Lemma forEach_element_spec (elems : list Element.t) (ns : list nat) :
  Forall2
    (fun elem n =>
       loop_count (Math.floor (Num.mul (Fin 2000) (Element.massFrac elem)))
       = Some n) elems ns ->
  forall s : init_state,
  exists s',
    forEach_element h elems s = Some s'
    /\ i_calls s' = more_calls (i_calls s) (3 * list_sum ns) (list_sum ns)
    /\ i_particleId s' = (i_particleId s + list_sum ns)%nat
    /\ length (i_particles s')
       = (length (i_particles s) + list_sum ns)%nat.
Proof.
  induction 1 as [|elem n elems ns Hn _ IH]; intros s.
  - exists s. simpl. destruct s as [[r m] i ps]. unfold more_calls. simpl.
    repeat split; try lia. f_equal; lia.
  - cbn [forEach_element]. rewrite Hn.
    destruct (for_particles_spec elem n s) as (Hc & Hi & Hl).
    destruct (IH (for_particles h elem n s)) as (s' & Hs & Hc' & Hi' & Hl').
    exists s'. split; [exact Hs|].
    rewrite Hc', Hi', Hl', Hc, Hi, Hl.
    change (list_sum (n :: ns)) with (n + list_sum ns)%nat.
    unfold more_calls. cbn [n_random n_normal].
    repeat split; try lia. f_equal; lia.
Qed.

Lemma default_counts :
  Forall2
    (fun elem n =>
       loop_count (Math.floor (Num.mul (Fin 2000) (Element.massFrac elem)))
       = Some n) default_elements [300; 500; 700; 500]%nat.
Proof.
  unfold default_elements.
  repeat constructor; cbn [Element.massFrac Num.mul].
  - rewrite (loop_count_floor (2000 * 0.15) 300) by lra. f_equal.
  - rewrite (loop_count_floor (2000 * 0.25) 500) by lra. f_equal.
  - rewrite (loop_count_floor (2000 * 0.35) 700) by lra. f_equal.
  - rewrite (loop_count_floor (2000 * 0.25) 500) by lra. f_equal.
Qed.

Lemma default_total : list_sum [300; 500; 700; 500]%nat = 2000%nat.
Proof. reflexivity. Qed.

(** With no [elements] in the configuration the constructor returns, having
    made 2000 particles with 2000 normal and 6000 uniform samples. *)
Lemma constructor_default_elements (c : calls) (oe od : option num) :
  exists m,
    constructor h c (Config.mk oe od None)
    = Some (m, more_calls c (3 * 2000) 2000)
    /\ energy m = Num.or_default oe (Fin 1e51)
    /\ density m = Num.or_default od (Fin 1e-24)
    /\ time m = Fin 0
    /\ length (particles m) = 2000%nat.
Proof.
  unfold constructor, initializeParticles.
  cbn [Config.energy Config.density Config.elements elements particles
       energy density time].
  destruct (forEach_element_spec _ _ default_counts
              {| i_calls := c; i_particleId := 0; i_particles := [] |})
    as (s' & Hs & Hc & _ & Hl).
  rewrite Hs, Hc. rewrite default_total in *. cbn [i_calls].
  eexists. split; [reflexivity|].
  cbn [energy density time particles]. repeat split. exact Hl.
Qed.

End Constructor.

(** ** Arithmetic on numbers *)

Section NumLemmas.

Local Open Scope R_scope.

Lemma div_fin (a b : R) : b <> 0 -> Num.div (Fin a) (Fin b) = Fin (a / b).
Proof.
  intros Hb. simpl. destruct (Req_dec_T b 0); [contradiction|reflexivity].
Qed.

Lemma div_zero_by_zero (a b : R) :
  a = 0 -> b = 0 -> Num.div (Fin a) (Fin b) = NaN.
Proof.
  intros Ha Hb. simpl.
  destruct (Req_dec_T b 0); [|contradiction].
  destruct (Req_dec_T a 0); [reflexivity|contradiction].
Qed.

Lemma lt_fin (a b : R) : Num.lt (Fin a) (Fin b) = true <-> a < b.
Proof.
  simpl. destruct (Rlt_dec a b); split; intros; try assumption;
    try reflexivity; try discriminate; contradiction.
Qed.

Lemma lt_fin_false (a b : R) : Num.lt (Fin a) (Fin b) = false <-> b <= a.
Proof.
  simpl. destruct (Rlt_dec a b); split; intros; try reflexivity;
    try discriminate; lra.
Qed.

Lemma le_fin (a b : R) : Num.le (Fin a) (Fin b) = true <-> a <= b.
Proof.
  simpl. destruct (Rle_dec a b); split; intros; try assumption;
    try reflexivity; try discriminate; contradiction.
Qed.

Lemma truthy_fin (a : R) : a <> 0 -> Num.truthy (Fin a) = true.
Proof.
  intros Ha. simpl. destruct (Req_dec_T a 0); [contradiction|reflexivity].
Qed.

Lemma sqrt_fin (a : R) : 0 <= a -> Math.sqrt (Fin a) = Fin (sqrt a).
Proof.
  intros Ha. simpl. destruct (Rlt_dec a 0); [lra|reflexivity].
Qed.

Lemma acos_fin (a : R) : -1 <= a <= 1 -> Math.acos (Fin a) = Fin (acos a).
Proof.
  intros Ha. simpl.
  destruct (Rlt_dec a (-1)); [lra|]. destruct (Rlt_dec 1 a); [lra|].
  reflexivity.
Qed.

Lemma pow_fin_pos (b y : R) :
  0 < b -> y <> 0 -> Math.pow (Fin b) (Fin y) = Fin (Rpower b y).
Proof.
  intros Hb Hy. simpl.
  destruct (Req_dec_T y 0); [contradiction|].
  destruct (Req_dec_T b 0); [lra|].
  destruct (Rlt_dec 0 b); [reflexivity|lra].
Qed.

Lemma pow_zero_base (b y : R) :
  b = 0 -> 0 < y -> Math.pow (Fin b) (Fin y) = Fin 0.
Proof.
  intros Hb Hy. simpl.
  destruct (Req_dec_T y 0); [lra|].
  destruct (Req_dec_T b 0); [|contradiction].
  destruct (Rlt_dec 0 y); [reflexivity|lra].
Qed.

Lemma Rpower_pos (b y : R) : 0 < Rpower b y.
Proof. unfold Rpower. apply exp_pos. Qed.

(** [Math.min(1.0, Math.max(0, s))] on a number [s] lies in [0, 1]. *)
Lemma clamp_in_range (s : R) :
  in_range 0 1 (Math.min (Fin 1.0) (Math.max (Fin 0) (Fin s))).
Proof.
  unfold Math.max. destruct (Num.lt (Fin 0) (Fin s)) eqn:E0.
  - apply lt_fin in E0. unfold Math.min.
    destruct (Num.lt (Fin s) (Fin 1.0)) eqn:E1.
    + apply lt_fin in E1. exists s. split; [reflexivity|lra].
    + exists 1.0. split; [reflexivity|lra].
  - unfold Math.min. destruct (Num.lt (Fin 0) (Fin 1.0)) eqn:E1.
    + exists 0. split; [reflexivity|lra].
    + apply lt_fin_false in E1. lra.
Qed.

Lemma Fin_eq (a b : R) : a = b -> Fin a = Fin b.
Proof. intros ->. reflexivity. Qed.

End NumLemmas.

(** ** The shock laws *)

Section ShockLaws.

Import SupernovaModel.
Local Open Scope R_scope.

Variable m : t.
Variables e d : R.
Hypothesis energy_m : energy m = Fin e.
Hypothesis density_m : density m = Fin d.
Hypothesis e_pos : 0 < e.
Hypothesis d_pos : 0 < d.

Lemma ratio_pos : 0 < e / d.
Proof. apply Rdiv_lt_0_compat; assumption. Qed.

(** At a positive time the radius is the power law's. *)
Lemma getShockRadius_positive_time (t : R) :
  time m = Fin t -> 0 < t ->
  getShockRadius m = Fin (sedov_radius_pc e d t).
Proof.
  intros Ht Hpos. unfold getShockRadius, sedov_radius_pc.
  rewrite energy_m, density_m, Ht.
  rewrite div_fin by lra.
  rewrite pow_fin_pos by (try apply ratio_pos; lra).
  cbn [Num.mul].
  rewrite pow_fin_pos by lra.
  cbn [Num.mul]. rewrite div_fin by lra. reflexivity.
Qed.

Lemma sedov_radius_pos (t : R) : 0 < t -> 0 < sedov_radius_pc e d t.
Proof.
  intros Ht. unfold sedov_radius_pc.
  pose proof (Rpower_pos (e / d) 0.2).
  pose proof (Rpower_pos (t * 3.156e7) 0.4).
  apply Rdiv_lt_0_compat; [|lra].
  apply Rmult_lt_0_compat; [|assumption].
  apply Rmult_lt_0_compat; [lra|assumption].
Qed.

(** At time 0 the radius is 0. *)
Lemma getShockRadius_time_zero :
  time m = Fin 0 -> getShockRadius m = Fin 0.
Proof.
  intros Ht. unfold getShockRadius.
  rewrite energy_m, density_m, Ht.
  rewrite div_fin by lra.
  rewrite pow_fin_pos by (try apply ratio_pos; lra).
  cbn [Num.mul].
  rewrite pow_zero_base by lra.
  cbn [Num.mul]. rewrite div_fin by lra. apply Fin_eq. lra.
Qed.

(** At time 0 the velocity is [0/0]. *)
Lemma getShockVelocity_time_zero :
  time m = Fin 0 -> getShockVelocity m = NaN.
Proof.
  intros Ht. unfold getShockVelocity.
  rewrite (getShockRadius_time_zero Ht), Ht. cbn [Num.mul].
  rewrite div_zero_by_zero by lra. reflexivity.
Qed.

Lemma getShockTemperature_time_zero :
  time m = Fin 0 -> getShockTemperature m = NaN.
Proof.
  intros Ht. unfold getShockTemperature.
  rewrite (getShockVelocity_time_zero Ht). cbn [Num.mul].
  unfold Math.pow. destruct (Req_dec_T 2 0); [lra|].
  rewrite div_fin by lra. reflexivity.
Qed.

Lemma getShockVelocity_positive_time (t : R) :
  time m = Fin t -> 0 < t ->
  getShockVelocity m
  = Fin (0.4 * (sedov_radius_pc e d t * 3.086e18) / (t * 3.156e7) / 1e5).
Proof.
  intros Ht Hpos. unfold getShockVelocity.
  rewrite (getShockRadius_positive_time t Ht Hpos), Ht. cbn [Num.mul].
  rewrite div_fin by lra. rewrite div_fin by lra. reflexivity.
Qed.

Lemma shock_velocity_pos (t : R) :
  0 < t ->
  0 < 0.4 * (sedov_radius_pc e d t * 3.086e18) / (t * 3.156e7) / 1e5.
Proof.
  intros Ht. pose proof (sedov_radius_pos t Ht).
  apply Rdiv_lt_0_compat; [|lra].
  apply Rdiv_lt_0_compat; [|lra].
  apply Rmult_lt_0_compat; [lra|].
  apply Rmult_lt_0_compat; lra.
Qed.

Lemma getShockTemperature_positive_time (t : R) :
  time m = Fin t -> 0 < t ->
  exists T, getShockTemperature m = Fin T /\ 0 < T.
Proof.
  intros Ht Hpos. unfold getShockTemperature.
  rewrite (getShockVelocity_positive_time t Ht Hpos). cbn [Num.mul].
  pose proof (shock_velocity_pos t Hpos) as Hv.
  rewrite div_fin by lra. cbn [Num.mul].
  rewrite pow_fin_pos by (try lra; apply Rmult_lt_0_compat; lra).
  cbn [Num.mul]. rewrite div_fin by lra.
  eexists. split; [reflexivity|].
  pose proof (Rpower_pos
    (0.4 * (sedov_radius_pc e d t * 3.086e18) / (t * 3.156e7) / 1e5 * 1e5) 2).
  apply Rdiv_lt_0_compat; [|lra].
  apply Rmult_lt_0_compat; [lra|assumption].
Qed.

End ShockLaws.

(** ** One particle, one step *)

Section ParticleStep.

Import SupernovaModel.
Local Open Scope R_scope.

Variable h : host.
Hypothesis uniform_h : uniform_host h.

Lemma velocityProfile_fin (x : R) :
  exists vf, velocityProfile (Fin x) = Fin vf.
Proof.
  unfold velocityProfile. destruct (Num.lt (Fin x) (Fin 0.8)).
  - eexists. reflexivity.
  - cbn [Num.sub Num.neg Num.add Num.mul]. rewrite div_fin by lra.
    eexists. reflexivity.
Qed.

(** The sampled direction cosine [u = Math.random() * 2 - 1] and the angle
    [Math.acos(u)]. *)
Lemma sampled_angle (n : nat) :
  exists a,
    Math.acos (Num.sub (Num.mul (Math_random h n) (Fin 2)) (Fin 1)) = Fin a
    /\ 0 <= a <= PI.
Proof.
  destruct (uniform_h n) as (r & -> & Hr).
  cbn [Num.sub Num.neg Num.add Num.mul].
  rewrite acos_fin by lra. eexists. split; [reflexivity|].
  apply acos_bound.
Qed.

(** The jitter [(Math.random() - 0.5) * 0.15]. *)
Lemma jitter (n : nat) :
  exists j,
    Num.mul (Num.sub (Math_random h n) (Fin 0.5)) (Fin 0.15) = Fin j
    /\ -0.075 <= j < 0.075.
Proof.
  destruct (uniform_h n) as (r & -> & Hr).
  cbn [Num.sub Num.neg Num.add Num.mul].
  eexists. split; [reflexivity|]. lra.
Qed.

Lemma PI_gt_3 : 3 < PI.
Proof. pose proof PI2_3_2. lra. Qed.

(** The reflection of the perturbed polar angle. *)
Lemma reflected_phi (f j : R) :
  0 <= f <= PI -> -0.075 <= j < 0.075 ->
  let phi0 := Fin (f + j) in
  let phi1 := if Num.lt phi0 (Fin 0) then Num.neg phi0 else phi0 in
  let phi :=
    if Num.gt phi1 Math.PI
    then Num.sub (Num.mul (Fin 2) Math.PI) phi1 else phi1 in
  in_range 0 PI phi.
Proof.
  intros Hf Hj. pose proof PI_gt_3 as Hpi. cbv zeta.
  unfold Num.gt, Math.PI.
  destruct (Num.lt (Fin (f + j)) (Fin 0)) eqn:E0.
  - apply lt_fin in E0. cbn [Num.neg].
    destruct (Num.lt (Fin PI) (Fin (- (f + j)))) eqn:E1.
    + apply lt_fin in E1. lra.
    + exists (- (f + j)). split; [reflexivity|lra].
  - apply lt_fin_false in E0.
    destruct (Num.lt (Fin PI) (Fin (f + j))) eqn:E1.
    + apply lt_fin in E1. cbn [Num.sub Num.neg Num.add Num.mul].
      eexists. split; [reflexivity|lra].
    + apply lt_fin_false in E1. exists (f + j). split; [reflexivity|lra].
Qed.

Variable this : t.
Variables dt R_shock_pc R_shock_cm v_shock_kms T_shock : num.
Variables d Rc v : R.
Hypothesis dt_fin : dt = Fin d.
Hypothesis d_pos : 0 < d.
Hypothesis Rc_fin : R_shock_cm = Fin Rc.
Hypothesis Rc_pos : 0 < Rc.
Hypothesis v_fin : v_shock_kms = Fin v.

Lemma update_particle_xi (c : calls) (p : Particle.t) :
  particle_inv p ->
  in_range 0 1
    (Particle.xi
       (update_particle this dt R_shock_pc R_shock_cm v_shock_kms T_shock
          h c p)).
Proof.
  intros ([(x & Hx & Hxr) _] & _ & (D & HD & HDpos)).
  unfold update_particle. cbn [Particle.xi].
  rewrite Hx, HD, dt_fin, Rc_fin, v_fin.
  destruct (velocityProfile_fin x) as (vf & ->).
  destruct (sampled_angle (n_random c)) as (a & -> & _).
  cbn [Num.mul Math.cos].
  rewrite sqrt_fin by nra.
  cbn [Num.mul Num.add]. rewrite div_fin by lra. cbn [Num.add].
  apply clamp_in_range.
Qed.

Lemma update_particle_phi (c : calls) (p : Particle.t) :
  particle_inv p ->
  in_range 0 PI
    (Particle.phi
       (update_particle this dt R_shock_pc R_shock_cm v_shock_kms T_shock
          h c p)).
Proof.
  intros ([_ (f & Hf & Hfr)] & _).
  unfold update_particle. cbn [Particle.phi].
  rewrite Hf. destruct (jitter (n_random c + 3)) as (j & -> & Hj).
  cbn [Num.add]. apply reflected_phi; assumption.
Qed.

Lemma update_particle_inv (c : calls) (p : Particle.t) :
  particle_inv p ->
  particle_inv
    (update_particle this dt R_shock_pc R_shock_cm v_shock_kms T_shock
       h c p).
Proof.
  intros Hp. split; [split|split].
  - apply update_particle_xi; assumption.
  - apply update_particle_phi; assumption.
  - destruct Hp as (_ & (th & Hth) & _).
    unfold update_particle. cbn [Particle.theta]. rewrite Hth.
    destruct (jitter (n_random c + 2)) as (j & -> & _).
    eexists. reflexivity.
  - destruct Hp as (_ & _ & HD). exact HD.
Qed.

(** The position of the updated particle: numbers, given by the spherical
    coordinates [xi * R_shock_pc], [phi] and [theta]. *)
Lemma update_particle_position (Rp : R) (c : calls) (p : Particle.t) :
  R_shock_pc = Fin Rp ->
  particle_inv p ->
  let p' :=
    update_particle this dt R_shock_pc R_shock_cm v_shock_kms T_shock h c p in
  exists xi' ph' th',
    Particle.xi p' = Fin xi' /\ Particle.phi p' = Fin ph'
    /\ Particle.theta p' = Fin th'
    /\ Particle.x p' = Fin (xi' * Rp * sin ph' * cos th')
    /\ Particle.y p' = Fin (xi' * Rp * sin ph' * sin th')
    /\ Particle.z p' = Fin (xi' * Rp * cos ph').
Proof.
  intros HRp Hp p'.
  destruct (update_particle_inv c p Hp)
    as ([(xi' & Hxi & _) (ph' & Hph & _)] & (th' & Hth) & _).
  fold p' in Hxi, Hph, Hth.
  exists xi', ph', th'. repeat split; try assumption.
  - change (Particle.x p')
      with (Num.mul (Num.mul (Num.mul (Particle.xi p') R_shock_pc)
                       (Math.sin (Particle.phi p')))
              (Math.cos (Particle.theta p'))).
    rewrite Hxi, Hph, Hth, HRp. reflexivity.
  - change (Particle.y p')
      with (Num.mul (Num.mul (Num.mul (Particle.xi p') R_shock_pc)
                       (Math.sin (Particle.phi p')))
              (Math.sin (Particle.theta p'))).
    rewrite Hxi, Hph, Hth, HRp. reflexivity.
  - change (Particle.z p')
      with (Num.mul (Num.mul (Particle.xi p') R_shock_pc)
              (Math.cos (Particle.phi p'))).
    rewrite Hxi, Hph, HRp. reflexivity.
Qed.

Lemma velocityProfile_nonneg (x : R) :
  0 <= x <= 1 -> exists vf, velocityProfile (Fin x) = Fin vf /\ 0 <= vf.
Proof.
  intros Hx. unfold velocityProfile. destruct (Num.lt (Fin x) (Fin 0.8)).
  - cbn [Num.sub Num.neg Num.add Num.mul].
    eexists. split; [reflexivity|]. nra.
  - cbn [Num.sub Num.neg Num.add Num.mul]. rewrite div_fin by lra.
    eexists. split; [reflexivity|].
    apply Rmult_le_pos; [lra|]. apply Rlt_le, Rinv_0_lt_compat. lra.
Qed.

Lemma clamp_positive (s : R) :
  0 < s ->
  exists r, Math.min (Fin 1.0) (Math.max (Fin 0) (Fin s)) = Fin r /\ 0 < r <= 1.
Proof.
  intros Hs. unfold Math.max.
  rewrite (proj2 (lt_fin 0 s) Hs). unfold Math.min.
  destruct (Num.lt (Fin s) (Fin 1.0)) eqn:E.
  - apply lt_fin in E. exists s. split; [reflexivity|lra].
  - exists 1.0. split; [reflexivity|lra].
Qed.

(** A particle that points along the negative x axis ([theta = PI],
    [phi = PI / 2]) still does after a step in which [Math.random()] returns
    one half: it comes to lie on that axis, at [x < 0], [y = 0]. *)
Lemma update_particle_due_west (Rp x : R) (c : calls) (p : Particle.t) :
  R_shock_pc = Fin Rp -> 0 < Rp -> 0 <= v ->
  particle_inv p ->
  Particle.xi p = Fin x -> 0 < x ->
  Particle.theta p = Fin PI -> Particle.phi p = Fin (PI / 2) ->
  Math_random h (n_random c) = Fin (1 / 2) ->
  Math_random h (n_random c + 2) = Fin (1 / 2) ->
  Math_random h (n_random c + 3) = Fin (1 / 2) ->
  let p' :=
    update_particle this dt R_shock_pc R_shock_cm v_shock_kms T_shock h c p in
  exists x', Particle.x p' = Fin x' /\ x' < 0 /\ Particle.y p' = Fin 0.
Proof.
  intros HRp HRpos Hv Hp Hx Hxpos Hth Hph Hr0 Hr2 Hr3 p'.
  pose proof PI_gt_3 as Hpi.
  assert (Hxi : exists xi', Particle.xi p' = Fin xi' /\ 0 < xi').
  { destruct Hp as ([(x0 & Hx0 & Hx0r) _] & _ & (D & HD & HDpos)).
    rewrite Hx in Hx0. injection Hx0 as <-.
    unfold p', update_particle. cbn [Particle.xi].
    rewrite Hx, HD, dt_fin, Rc_fin, v_fin, Hr0.
    destruct (velocityProfile_nonneg x Hx0r) as (vf & -> & Hvf).
    cbn [Num.sub Num.neg Num.add Num.mul].
    rewrite acos_fin by lra. cbn [Math.cos].
    rewrite cos_acos by lra.
    rewrite sqrt_fin by nra.
    cbn [Num.mul Num.add]. rewrite div_fin by lra. cbn [Num.add].
    match goal with
    | |- context [Math.max (Fin 0) (Fin ?s)] =>
        destruct (clamp_positive s) as (r & -> & Hr)
    end.
    - assert (0 <= v * 1e5 * vf * (d * 3.156e7)).
      { apply Rmult_le_pos; [apply Rmult_le_pos; [lra|exact Hvf]|lra]. }
      assert (0 <= (v * 1e5 * vf * (d * 3.156e7)
                    + sqrt (2 * D * (d * 3.156e7)) * (1 / 2 * 2 + -1)) / Rc).
      { apply Rmult_le_pos; [|apply Rlt_le, Rinv_0_lt_compat; lra].
        replace (1 / 2 * 2 + -1) with 0 by lra. lra. }
      lra.
    - exists r. split; [reflexivity|lra]. }
  destruct Hxi as (xi' & Hxi & Hxipos).
  assert (Hph' : Particle.phi p' = Fin (PI / 2)).
  { unfold p', update_particle. cbn [Particle.phi].
    rewrite Hph, Hr3. cbn [Num.sub Num.neg Num.add Num.mul].
    match goal with
    | |- context [Num.lt (Fin ?a) (Fin 0)] =>
        rewrite (proj2 (lt_fin_false a 0)) by lra
    end.
    unfold Num.gt, Math.PI.
    match goal with
    | |- context [Num.lt (Fin PI) (Fin ?a)] =>
        rewrite (proj2 (lt_fin_false PI a)) by lra
    end.
    apply Fin_eq. lra. }
  assert (Hth' : Particle.theta p' = Fin PI).
  { unfold p', update_particle. cbn [Particle.theta].
    rewrite Hth, Hr2. cbn [Num.sub Num.neg Num.add Num.mul].
    apply Fin_eq. lra. }
  exists (- (xi' * Rp)). split; [|split].
  - change (Particle.x p')
      with (Num.mul (Num.mul (Num.mul (Particle.xi p') R_shock_pc)
                       (Math.sin (Particle.phi p')))
              (Math.cos (Particle.theta p'))).
    rewrite Hxi, Hph', Hth', HRp. cbn [Num.mul Math.sin Math.cos].
    apply Fin_eq. rewrite sin_PI2, cos_PI. ring.
  - assert (0 < xi' * Rp) by (apply Rmult_lt_0_compat; lra). lra.
  - change (Particle.y p')
      with (Num.mul (Num.mul (Num.mul (Particle.xi p') R_shock_pc)
                       (Math.sin (Particle.phi p')))
              (Math.sin (Particle.theta p'))).
    rewrite Hxi, Hph', Hth', HRp. cbn [Num.mul Math.sin].
    apply Fin_eq. rewrite sin_PI. ring.
Qed.

End ParticleStep.

(** ** The step and the constructor keep the invariant *)

Section ModelInvariant.

Import SupernovaModel.
Local Open Scope R_scope.

Variable h : host.
Hypothesis uniform_h : uniform_host h.
Hypothesis bounded_h : bounded_normal_host h.

Lemma forEach_particle_Forall (P Q : Particle.t -> Prop)
    (f : calls -> Particle.t -> Particle.t) :
  (forall c p, P p -> Q (f c p)) ->
  forall ps c, Forall P ps -> Forall Q (fst (forEach_particle f c ps)).
Proof.
  intros Hf ps. induction ps as [|p ps IH]; intros c Hps.
  - constructor.
  - inversion Hps as [|? ? Hp Hrest]; subst. cbn [forEach_particle].
    specialize (IH (more_calls c 4 0) Hrest).
    destruct (forEach_particle f (more_calls c 4 0) ps) as [rest' c'].
    cbn [fst] in *. constructor; [apply Hf; exact Hp|exact IH].
Qed.

Lemma forEach_particle_length (f : calls -> Particle.t -> Particle.t)
    (ps : list Particle.t) (c : calls) :
  length (fst (forEach_particle f c ps)) = length ps
  /\ snd (forEach_particle f c ps) = more_calls c (4 * length ps) 0.
Proof.
  revert c. induction ps as [|p ps IH]; intros c.
  - cbn. split; [reflexivity|]. destruct c. unfold more_calls. cbn.
    f_equal; lia.
  - cbn [forEach_particle]. destruct (IH (more_calls c 4 0)) as [Hl Hc].
    destruct (forEach_particle f (more_calls c 4 0) ps) as [rest' c'].
    cbn [fst snd length] in *. split; [lia|]. rewrite Hc.
    unfold more_calls. cbn [n_random n_normal]. f_equal; lia.
Qed.

(** The fields [update] leaves alone, and the time it advances. *)
Lemma update_fields (c : calls) (dt : num) (m : t) :
  energy (fst (update h c dt m)) = energy m
  /\ density (fst (update h c dt m)) = density m
  /\ time (fst (update h c dt m)) = Num.add (time m) dt
  /\ elements (fst (update h c dt m)) = elements m
  /\ length (particles (fst (update h c dt m))) = length (particles m).
Proof.
  unfold update. cbn [particles energy density time elements].
  match goal with
  | |- context [forEach_particle ?f c (particles m)] =>
      pose proof (proj1 (forEach_particle_length f (particles m) c)) as Hl;
      destruct (forEach_particle f c (particles m)) as [ps c']
  end.
  cbn [fst particles energy density time elements] in *. auto.
Qed.

Lemma update_inv (c : calls) (dt : num) (m : t) :
  positive dt -> model_inv m -> model_inv (fst (update h c dt m)).
Proof.
  intros (d & -> & Hd) ((e & He & Hepos) & (rho & Hrho & Hrhopos)
                        & (t0 & Ht & Ht0) & Hps).
  destruct (update_fields c (Fin d) m) as (HE & HD & HT & _ & _).
  split; [|split; [|split]].
  - rewrite HE. exists e. auto.
  - rewrite HD. exists rho. auto.
  - rewrite HT, Ht. exists (t0 + d). split; [reflexivity|lra].
  - unfold update. cbn [particles energy density time elements].
    set (this1 := mk (energy m) (density m) (Num.add (time m) (Fin d))
                    (elements m) (particles m)).
    assert (Ht1 : time this1 = Fin (t0 + d)) by (cbn; rewrite Ht; reflexivity).
    assert (Hpos1 : 0 < t0 + d) by lra.
    pose proof (getShockRadius_positive_time this1 e rho He Hrho Hepos
                  Hrhopos (t0 + d) Ht1 Hpos1) as HR.
    pose proof (getShockVelocity_positive_time this1 e rho He Hrho Hepos
                  Hrhopos (t0 + d) Ht1 Hpos1) as HV.
    pose proof (sedov_radius_pos e rho (t0 + d) Hpos1) as HRp.
    rewrite HR, HV. cbn [Num.mul].
    match goal with
    | |- context [forEach_particle ?f c (particles m)] =>
        pose proof (forEach_particle_Forall particle_inv particle_inv f) as HF;
        specialize (fun H => HF H (particles m) c Hps);
        destruct (forEach_particle f c (particles m)) as [ps c']
    end.
    cbn [fst particles] in *. apply HF. intros c0 p Hp.
    eapply update_particle_inv with (d := d);
      try reflexivity; try assumption. lra.
Qed.

Lemma steps_inv (dts : list num) :
  Forall positive dts ->
  forall c m, model_inv m -> model_inv (fst (Driver.steps h c dts m)).
Proof.
  induction 1 as [|dt dts Hdt _ IH]; intros c m Hm.
  - exact Hm.
  - cbn [Driver.steps]. pose proof (update_inv c dt m Hdt Hm) as Hm'.
    destruct (update h c dt m) as [m' c']. cbn [fst] in Hm'.
    apply IH. exact Hm'.
Qed.

(** A new particle of a valid species. *)
Lemma new_particle_inv (c : calls) (particleId : nat) (elem : Element.t) :
  valid_element elem -> particle_inv (new_particle h c particleId elem).
Proof.
  intros ((a & Ha & Hapos) & _ & (d0 & Hd0 & Hd0pos)).
  unfold new_particle, particle_inv, xi_phi_in_range.
  cbn [Particle.xi Particle.phi Particle.theta Particle.diffusionCoeff].
  split; [split|split].
  - destruct (bounded_h (n_normal c)) as (n & -> & Hn).
    cbn [Math.abs Num.mul]. eexists. split; [reflexivity|].
    pose proof (Rabs_pos n). lra.
  - destruct (sampled_angle h uniform_h (n_random c)) as (ang & -> & Hang).
    exists ang. auto.
  - destruct (uniform_h (n_random c + 1)%nat) as (r & -> & _).
    eexists. reflexivity.
  - rewrite Ha, Hd0. rewrite sqrt_fin by lra.
    pose proof (sqrt_lt_R0 a Hapos) as Hs.
    rewrite div_fin by lra. eexists. split; [reflexivity|].
    apply Rmult_le_pos; [assumption|].
    apply Rlt_le, Rinv_0_lt_compat; assumption.
Qed.

Lemma for_particles_Forall (P : Particle.t -> Prop) (elem : Element.t) :
  (forall c particleId, P (new_particle h c particleId elem)) ->
  forall n s,
    Forall P (i_particles s) ->
    Forall P (i_particles (for_particles h elem n s)).
Proof.
  intros Hnew n. induction n as [|n IH]; intros s Hs.
  - exact Hs.
  - cbn [for_particles]. apply IH. cbn [i_particles].
    apply Forall_app. split; [exact Hs|]. constructor; [apply Hnew|constructor].
Qed.

Lemma forEach_element_inv (elems : list Element.t) :
  Forall valid_element elems ->
  forall s,
    Forall particle_inv (i_particles s) ->
    exists s',
      forEach_element h elems s = Some s'
      /\ Forall particle_inv (i_particles s').
Proof.
  induction 1 as [|elem elems Helem _ IH]; intros s Hs.
  - exists s. split; [reflexivity|exact Hs].
  - cbn [forEach_element].
    destruct Helem as (HA & (f & Hf) & HD0) eqn:Hv. rewrite Hf.
    cbn [Num.mul Math.floor loop_count].
    apply IH. apply for_particles_Forall; [|exact Hs].
    intros c particleId. apply new_particle_inv. exact Helem.
Qed.

Lemma default_elements_valid : Forall valid_element default_elements.
Proof.
  unfold default_elements.
  repeat constructor; cbn [Element.A Element.massFrac Element.D0];
    try (eexists; split; [reflexivity|lra]); eexists; reflexivity.
Qed.

Lemma or_default_positive (v : option num) (dflt : num) :
  (forall a, v = Some a -> positive a) -> positive dflt ->
  positive (Num.or_default v dflt).
Proof.
  intros Hv Hd. destruct v as [a|]; [|exact Hd].
  destruct (Hv a eq_refl) as (r & -> & Hr). cbn [Num.or_default].
  unfold Num.or. rewrite truthy_fin by lra. exists r. auto.
Qed.

(** The constructor returns on a valid configuration and what it returns
    has the invariant. *)
Lemma constructor_inv (c : calls) (config : Config.t) :
  valid_config config ->
  exists m c', constructor h c config = Some (m, c') /\ model_inv m.
Proof.
  intros (He & Hd & Hes). unfold constructor, initializeParticles.
  cbn [elements particles energy density time].
  assert (Hvalid : Forall valid_element
            match Config.elements config with
            | Some es => es
            | None => default_elements
            end).
  { destruct (Config.elements config) as [es|];
      [apply Hes; reflexivity|apply default_elements_valid]. }
  destruct (forEach_element_inv _ Hvalid
              {| i_calls := c; i_particleId := 0; i_particles := [] |})
    as (s' & -> & Hs'); [constructor|].
  eexists. eexists. split; [reflexivity|].
  repeat split; cbn [energy density time particles].
  - apply or_default_positive; [exact He|]. exists 1e51. split; [reflexivity|lra].
  - apply or_default_positive; [exact Hd|]. exists 1e-24. split; [reflexivity|lra].
  - exists 0. split; [reflexivity|lra].
  - exact Hs'.
Qed.

Lemma inv_in_range (ps : list Particle.t) :
  Forall particle_inv ps -> Forall xi_phi_in_range ps.
Proof.
  apply Forall_impl. intros p [Hp _]. exact Hp.
Qed.

End ModelInvariant.

(** ** The reference host and configurations *)

Section ReferenceInputs.

Import SupernovaModel.
Local Open Scope R_scope.

Lemma uniform_host_half : uniform_host host_half.
Proof. intros n. exists (1 / 2). split; [reflexivity|lra]. Defined.

Lemma bounded_normal_host_half : bounded_normal_host host_half.
Proof.
  intros n. exists (1 / 2). split; [reflexivity|].
  unfold Rabs. destruct (Rcase_abs (1 / 2)); lra.
Defined.

Lemma valid_config_empty : valid_config Config.empty.
Proof. repeat split; cbn; intros ? H; discriminate H. Defined.

Lemma one_particle_model_inv : model_inv one_particle_model.
Proof.
  unfold one_particle_model. repeat split;
    cbn [energy density time particles].
  - exists 1e51. split; [reflexivity|lra].
  - exists 1e-24. split; [reflexivity|lra].
  - exists 0. split; [reflexivity|lra].
  - constructor; [|constructor].
    apply (new_particle_inv host_half uniform_host_half
             bounded_normal_host_half).
    unfold valid_element, positive. cbn [Element.A Element.massFrac Element.D0].
    repeat split; try (eexists; split; [reflexivity|lra]).
    eexists. reflexivity.
Qed.

Lemma constructor_one_particle :
  constructor host_half no_calls one_particle_config
  = Some (one_particle_model, Calls 3 1).
Proof.
  unfold constructor, initializeParticles, one_particle_config.
  cbn [Config.elements Config.energy Config.density elements particles
       forEach_element Element.massFrac Num.mul].
  rewrite (loop_count_floor (2000 * 0.0005) 1) by lra.
  reflexivity.
Qed.

End ReferenceInputs.

(** ** The time series *)

Section TimeSeries.

Import DataManager.

Lemma skipn_skipn_app (A : Type) (a b : nat) (l l' : list A) :
  (b <= length l)%nat ->
  skipn a (skipn b l ++ l') = skipn (a + b) (l ++ l').
Proof.
  intros Hb. rewrite <- (firstn_skipn b l) at 2.
  rewrite <- app_assoc.
  replace (a + b)%nat with (length (firstn b l) + a)%nat
    by (rewrite length_firstn; lia).
  rewrite (skipn_app _ (firstn b l)).
  rewrite (skipn_all2 (firstn b l)) by lia. cbn [app].
  replace (length (firstn b l) + a - length (firstn b l))%nat with a by lia.
  reflexivity.
Qed.

(** One call: the sample goes to the back and, when that makes the series
    longer than the cap, the front sample goes. *)
Lemma updateTimeSeries_step (model : SupernovaModel.t) (this : t) :
  (length (timeSeries this) <= maxHistory this)%nat ->
  let pushed := timeSeries this ++ [new_sample model this] in
  timeSeries (updateTimeSeries model this)
  = skipn (length pushed - maxHistory this) pushed
  /\ (length (timeSeries (updateTimeSeries model this))
      <= maxHistory this)%nat.
Proof.
  intros Hlen pushed. unfold updateTimeSeries. cbn [timeSeries].
  fold pushed.
  assert (Hp : length pushed = S (length (timeSeries this))).
  { unfold pushed. rewrite length_app. cbn. lia. }
  destruct (maxHistory this <? length pushed)%nat eqn:E.
  - apply Nat.ltb_lt in E.
    replace (length pushed - maxHistory this)%nat with 1%nat by lia.
    split; [reflexivity|].
    destruct pushed as [|s0 rest]; cbn in *; lia.
  - apply Nat.ltb_ge in E.
    replace (length pushed - maxHistory this)%nat with 0%nat by lia.
    split; [reflexivity|lia].
Qed.

Lemma updateTimeSeries_keeps (model : SupernovaModel.t) (this : t) :
  particles (updateTimeSeries model this) = particles this
  /\ maxHistory (updateTimeSeries model this) = maxHistory this.
Proof. split; reflexivity. Qed.

(** Calls of [updateTimeSeries] one after the other. *)
Lemma record_all_timeSeries (models : list SupernovaModel.t) :
  forall this : t,
    (length (timeSeries this) <= maxHistory this)%nat ->
    let pushed :=
      timeSeries this ++ map (fun model => new_sample model this) models in
    timeSeries (Driver.record_all models this)
    = skipn (length pushed - maxHistory this) pushed
    /\ (length (timeSeries (Driver.record_all models this))
        <= maxHistory this)%nat.
Proof.
  induction models as [|model rest IH]; intros this Hlen.
  - cbn [Driver.record_all fold_left map]. rewrite app_nil_r.
    replace (length (timeSeries this) - maxHistory this)%nat with 0%nat
      by lia.
    split; [reflexivity|exact Hlen].
  - unfold Driver.record_all. cbn [fold_left].
    fold (Driver.record_all rest (updateTimeSeries model this)).
    destruct (updateTimeSeries_step model this Hlen) as [H1 H2].
    destruct (updateTimeSeries_keeps model this) as [Hp Hmax].
    destruct (IH (updateTimeSeries model this)) as [H4 H5];
      [rewrite Hmax; exact H2|].
    rewrite Hmax in H4, H5. cbv zeta. split; [|exact H5].
    rewrite H4, H1. cbn [map].
    assert (Hs : forall m0,
               new_sample m0 (updateTimeSeries model this) = new_sample m0 this).
    { intros m0. unfold new_sample. rewrite Hp. reflexivity. }
    rewrite (map_ext _ _ Hs).
    set (ts := timeSeries this) in *. set (cap := maxHistory this) in *.
    set (s := new_sample model this).
    set (ss := map (fun m0 => new_sample m0 this) rest).
    rewrite skipn_skipn_app by (rewrite length_app; cbn; lia).
    rewrite <- app_assoc. cbn [app]. f_equal.
    rewrite !length_app, length_skipn, !length_app. cbn [length]. lia.
Qed.

Lemma radial_keeps (model : SupernovaModel.t) (this this' : t) :
  updateRadialDistribution model this = Returns this' ->
  particles this' = particles this
  /\ timeSeries this' = timeSeries this
  /\ maxHistory this' = maxHistory this
  /\ radial this' = radial this
  /\ angular this' = angular this.
Proof.
  unfold updateRadialDistribution.
  destruct (radial_forEach _ _ _ _); [|discriminate].
  intros [= <-]. cbn. auto.
Qed.

(** An ingest that returns has pushed the sample of the model. *)
Lemma update_timeSeries (model : SupernovaModel.t) (this this' : t) :
  (length (timeSeries this) <= maxHistory this)%nat ->
  update model this = Returns this' ->
  let pushed := timeSeries this ++ [sample_of_model model] in
  timeSeries this' = skipn (length pushed - maxHistory this) pushed
  /\ (length (timeSeries this') <= maxHistory this)%nat
  /\ maxHistory this' = maxHistory this.
Proof.
  intros Hlen. unfold update.
  match goal with
  | |- context [updateRadialDistribution model ?d] =>
      destruct (updateRadialDistribution model d) as [this2|this2] eqn:E
  end; [|discriminate].
  intros [= <-]. apply radial_keeps in E.
  cbn [particles timeSeries maxHistory] in E.
  destruct E as (Hp & Hts & Hmax & _ & _).
  set (this3 := updateAngularDistribution this2).
  assert (H3 : particles this3 = SupernovaModel.getParticles model
               /\ timeSeries this3 = timeSeries this
               /\ maxHistory this3 = maxHistory this).
  { unfold this3, updateAngularDistribution.
    cbn [particles timeSeries maxHistory]. auto. }
  destruct H3 as (Hp3 & Hts3 & Hmax3).
  assert (Hs : new_sample model this3 = sample_of_model model).
  { unfold new_sample, sample_of_model. rewrite Hp3. reflexivity. }
  destruct (updateTimeSeries_step model this3) as [H1 H2];
    [rewrite Hts3, Hmax3; exact Hlen|].
  rewrite Hs, Hts3, Hmax3 in H1. rewrite Hmax3 in H2.
  cbv zeta. split; [exact H1|]. split; [exact H2|].
  unfold updateTimeSeries. cbn [maxHistory]. exact Hmax3.
Qed.

Lemma ingest_all_timeSeries (models : list SupernovaModel.t) :
  forall this this' : t,
    (length (timeSeries this) <= maxHistory this)%nat ->
    Driver.ingest_all models this = Returns this' ->
    let pushed := timeSeries this ++ map sample_of_model models in
    timeSeries this' = skipn (length pushed - maxHistory this) pushed
    /\ (length (timeSeries this') <= maxHistory this)%nat.
Proof.
  induction models as [|model rest IH]; intros this this' Hlen Hrun.
  - cbn in Hrun. injection Hrun as <-. cbn [map]. rewrite app_nil_r.
    replace (length (timeSeries this) - maxHistory this)%nat with 0%nat
      by lia.
    split; [reflexivity|exact Hlen].
  - cbn [Driver.ingest_all] in Hrun.
    destruct (update model this) as [this1|this1] eqn:E; [|discriminate].
    destruct (update_timeSeries model this this1 Hlen E) as (H1 & H2 & H3).
    rewrite <- H3 in H2.
    destruct (IH this1 this' H2 Hrun) as [H4 H5].
    rewrite H3 in H4, H5. cbv zeta. split; [|exact H5].
    rewrite H4, H1. cbn [map].
    set (ts := timeSeries this) in *. set (cap := maxHistory this) in *.
    set (s := sample_of_model model). set (ss := map sample_of_model rest).
    rewrite skipn_skipn_app by (rewrite length_app; cbn; lia).
    rewrite <- app_assoc. cbn [app]. f_equal.
    rewrite !length_app, length_skipn, !length_app. cbn [length]. lia.
Qed.

End TimeSeries.

(** ** Arrays *)

Section Arrays.

Lemma set_length (A : Type) (i : nat) (v : A) (a : list A) :
  length (JsArray.set i v a) = length a.
Proof.
  revert i. induction a as [|e a IH]; intros [|i]; cbn; auto.
Qed.

Lemma set_map (A B : Type) (f : A -> B) (i : nat) (v : A) (a : list A) :
  map f (JsArray.set i v a) = JsArray.set i (f v) (map f a).
Proof.
  revert i. induction a as [|e a IH]; intros [|i]; cbn; auto.
  rewrite IH. reflexivity.
Qed.

Lemma list_sum_set_succ (ks : list nat) (i k : nat) :
  nth_error ks i = Some k ->
  list_sum (JsArray.set i (S k) ks) = S (list_sum ks).
Proof.
  revert i. induction ks as [|k0 ks IH]; intros [|i] H;
    cbn [nth_error JsArray.set] in *; try discriminate.
  - injection H as ->. reflexivity.
  - change (k0 + list_sum (JsArray.set i (S k) ks) = S (k0 + list_sum ks))%nat.
    rewrite (IH i H). lia.
Qed.

Lemma mapi_from_length (A B : Type) (f : A -> nat -> B) (a : list A) :
  forall start, length (JsArray.mapi_from f start a) = length a.
Proof.
  induction a as [|e a IH]; intros start; cbn; auto.
Qed.

Lemma mapi_from_map (A B C : Type) (f : A -> nat -> B) (g : B -> C)
    (g' : A -> C) (a : list A) :
  (forall e i, g (f e i) = g' e) ->
  forall start, map g (JsArray.mapi_from f start a) = map g' a.
Proof.
  intros Hg. induction a as [|e a IH]; intros start; cbn; auto.
  rewrite Hg, IH. reflexivity.
Qed.

Lemma nth_set (A : Type) (i j : nat) (v d : A) (a : list A) :
  (i < length a)%nat ->
  nth j (JsArray.set i v a) d = if Nat.eqb i j then v else nth j a d.
Proof.
  revert i j. induction a as [|e a IH]; intros i j Hi; [cbn in Hi; lia|].
  destruct i as [|i], j as [|j]; cbn [JsArray.set nth Nat.eqb]; auto.
  apply IH. cbn [length] in Hi. lia.
Qed.

End Arrays.

(** ** The radial histogram *)

Section RadialHistogram.

Import DataManager.
Local Open Scope R_scope.

Lemma of_nat_IZR (n : nat) : Num.of_nat n = Fin (IZR (Z.of_nat n)).
Proof. unfold Num.of_nat. rewrite INR_IZR_INZ. reflexivity. Qed.

Lemma of_nat_succ (k : nat) :
  Num.add (Num.of_nat k) (Fin 1) = Num.of_nat (S k).
Proof. unfold Num.of_nat. cbn [Num.add]. rewrite S_INR. reflexivity. Qed.

Lemma to_index_IZR (z : Z) :
  (0 <= z < 4294967295)%Z ->
  JsArray.to_index (Fin (IZR z)) = Some (Z.to_nat z).
Proof.
  intros Hz. unfold JsArray.to_index.
  rewrite is_integer_IZR, Int_part_IZR.
  destruct (Z.leb_spec 0 z); [|lia].
  destruct (Z.ltb_spec z 4294967295); [|lia]. reflexivity.
Qed.

Lemma Int_part_nonneg (v : R) : 0 <= v -> (0 <= Int_part v)%Z.
Proof.
  intros Hv. pose proof (Int_part_bounds v) as [_ Hhi].
  assert (H : IZR (-1) < IZR (Int_part v)) by lra.
  apply lt_IZR in H. lia.
Qed.

Lemma square_nonneg (a : num) : a <> NaN -> nonneg (Math.pow a (Fin 2)).
Proof.
  intros Ha. unfold Math.pow.
  destruct (Req_dec_T 2 0) as [H|_]; [lra|].
  destruct (Rlt_dec 0 2) as [_|H]; [|lra].
  destruct a as [| | |x]; [contradiction|left; reflexivity| |].
  - assert (H2 : Math.is_odd_integer 2 = false).
    { unfold Math.is_odd_integer. change 2 with (IZR 2).
      rewrite Int_part_IZR. apply andb_false_r. }
    rewrite H2. left. reflexivity.
  - right. destruct (Req_dec_T x 0).
    + exists 0. split; [reflexivity|lra].
    + destruct (Rlt_dec 0 x).
      * eexists. split; [reflexivity|]. apply Rlt_le, Rpower_pos.
      * change 2 with (IZR 2). rewrite is_integer_IZR, Int_part_IZR.
        eexists. split; [reflexivity|].
        replace (powerRZ x 2) with (x * x) by (simpl; ring). nra.
Qed.

Lemma or_zero_not_NaN (z : num) : Num.or z (Fin 0) <> NaN.
Proof.
  unfold Num.or. destruct z as [| | |x]; cbn [Num.truthy]; try discriminate.
  destruct (Req_dec_T x 0); discriminate.
Qed.

Lemma add_nonneg (a b : num) : nonneg a -> nonneg b -> nonneg (Num.add a b).
Proof.
  intros [->|(x & -> & Hx)] [->|(y & -> & Hy)]; cbn [Num.add];
    try (left; reflexivity).
  right. exists (x + y). split; [reflexivity|lra].
Qed.

Lemma sqrt_nonneg (a : num) : nonneg a -> nonneg (Math.sqrt a).
Proof.
  intros [->|(x & -> & Hx)]; [left; reflexivity|].
  rewrite sqrt_fin by exact Hx. right. eexists. split; [reflexivity|].
  apply sqrt_pos.
Qed.

Lemma radius3d_nonneg (p : Particle.t) : located p -> nonneg (radius3d p).
Proof.
  intros [Hx Hy]. unfold radius3d. apply sqrt_nonneg.
  repeat apply add_nonneg; apply square_nonneg;
    [exact Hx|exact Hy|apply or_zero_not_NaN].
Qed.

Variable maxR : R.
Hypothesis maxR_pos : 0 < maxR.

Lemma fifty : Num.of_nat 50 = Fin 50.
Proof. rewrite of_nat_IZR. reflexivity. Qed.

Lemma forty_nine : Num.sub (Num.of_nat 50) (Fin 1) = Fin 49.
Proof. rewrite fifty. cbn [Num.sub Num.neg Num.add]. apply Fin_eq. lra. Qed.

(** The scaled radius [(r / maxRadius) * bins] of a located particle. *)
Lemma scaled_radius_nonneg (p : Particle.t) :
  located p ->
  nonneg (Num.mul (Num.div (radius3d p) (Fin maxR)) (Num.of_nat 50)).
Proof.
  intros Hp. rewrite fifty.
  destruct (radius3d_nonneg p Hp) as [->|(r & -> & Hr)].
  - left. cbn [Num.div]. destruct (Rlt_dec maxR 0); [lra|].
    cbn [Num.mul]. unfold Num.mul_inf.
    destruct (Req_dec_T 50 0); [lra|]. destruct (Rlt_dec 0 50); [|lra].
    reflexivity.
  - right. rewrite div_fin by lra. cbn [Num.mul].
    eexists. split; [reflexivity|].
    apply Rmult_le_pos; [|lra].
    apply Rmult_le_pos; [exact Hr|].
    apply Rlt_le, Rinv_0_lt_compat, maxR_pos.
Qed.

(** [Math.min(49, Math.floor(v))] is an index of the 50 bins when [v] is
    not negative and not [NaN]. *)
Lemma min_floor_index (v : num) :
  nonneg v ->
  exists i,
    JsArray.to_index (Math.min (Fin 49) (Math.floor v)) = Some i
    /\ (i < 50)%nat.
Proof.
  intros [->|(x & -> & Hx)].
  - exists 49%nat. split; [|lia]. cbn [Math.floor Math.min Num.lt].
    change 49 with (IZR 49). rewrite to_index_IZR by lia. reflexivity.
  - cbn [Math.floor]. pose proof (Int_part_nonneg x Hx) as Hz.
    unfold Math.min.
    destruct (Num.lt (Fin (IZR (Int_part x))) (Fin 49)) eqn:E.
    + apply lt_fin in E. change 49 with (IZR 49) in E. apply lt_IZR in E.
      exists (Z.to_nat (Int_part x)). split; [|lia].
      apply to_index_IZR. lia.
    + exists 49%nat. split; [|lia].
      change 49 with (IZR 49). rewrite to_index_IZR by lia. reflexivity.
Qed.

Lemma radial_binIdx_index (p : Particle.t) :
  located p ->
  exists i,
    JsArray.to_index (radial_binIdx 50 (Fin maxR) p) = Some i
    /\ (i < 50)%nat.
Proof.
  intros Hp. unfold radial_binIdx. rewrite forty_nine.
  apply min_floor_index, scaled_radius_nonneg, Hp.
Qed.

(** The loop over the particles: every particle adds one to the count of
    one of the 50 bins. *)
Lemma radial_forEach_counts (ps : list Particle.t) :
  Forall located ps ->
  forall (hist : list hist_bin) (ks : list nat),
    length hist = 50%nat ->
    counts_are (map h_count hist) ks ->
    exists hist' ks',
      radial_forEach 50 (Fin maxR) ps hist = Some hist'
      /\ length hist' = 50%nat
      /\ counts_are (map h_count hist') ks'
      /\ list_sum ks' = (list_sum ks + length ps)%nat.
Proof.
  induction 1 as [|p ps Hp _ IH]; intros hist ks Hlen Hks.
  - exists hist, ks. cbn [radial_forEach length]. repeat split; auto.
  - cbn [radial_forEach].
    destruct (radial_binIdx_index p Hp) as (i & -> & Hi).
    destruct (nth_error hist i) as [hb|] eqn:Hnth;
      [|apply nth_error_None in Hnth; lia].
    assert (Hk : exists k, nth_error ks i = Some k
                           /\ h_count hb = Num.of_nat k).
    { pose proof (map_nth_error h_count i hist Hnth) as Hm.
      unfold counts_are in Hks. rewrite Hks in Hm.
      rewrite nth_error_map in Hm.
      destruct (nth_error ks i) as [k|]; [|discriminate].
      exists k. split; [reflexivity|]. cbn in Hm. congruence. }
    destruct Hk as (k & Hki & Hkc).
    destruct (IH (JsArray.set i
                    {| h_count := Num.add (h_count hb) (Fin 1);
                       h_mass := Num.add (h_mass hb) (Particle.mass p) |}
                    hist)
                 (JsArray.set i (S k) ks)) as (hist' & ks' & H1 & H2 & H3 & H4).
    + rewrite set_length. exact Hlen.
    + unfold counts_are in *. rewrite !set_map. cbn [h_count].
      rewrite Hkc, of_nat_succ, Hks. reflexivity.
    + exists hist', ks'. repeat split; auto.
      rewrite H4, (list_sum_set_succ ks i k Hki). cbn [length]. lia.
Qed.

Lemma repeat_zero_counts (n : nat) :
  counts_are (map h_count (repeat {| h_count := Fin 0; h_mass := Fin 0 |} n))
    (repeat 0%nat n)
  /\ list_sum (repeat 0%nat n) = 0%nat.
Proof.
  unfold counts_are. induction n as [|n [IH1 IH2]]; [split; reflexivity|].
  split.
  - cbn [repeat map]. rewrite IH1. reflexivity.
  - cbn [repeat]. change (0 + list_sum (repeat 0 n) = 0)%nat.
    rewrite IH2. reflexivity.
Qed.

(** With a positive shock radius and located particles the radial
    histogram is made, with 50 bins whose counts are natural numbers that
    add up to the number of particles. *)
Lemma updateRadialDistribution_counts (model : SupernovaModel.t) (this : t) :
  SupernovaModel.getShockRadius model = Fin maxR ->
  radial this = 50%nat ->
  Forall located (particles this) ->
  exists this' ks,
    updateRadialDistribution model this = Returns this'
    /\ length (radialDist this') = 50%nat
    /\ counts_are (map r_count (radialDist this')) ks
    /\ list_sum ks = length (particles this)
    /\ particles this' = particles this
    /\ radial this' = 50%nat.
Proof.
  intros HR Hbins Hps. unfold updateRadialDistribution.
  rewrite HR, Hbins.
  destruct (repeat_zero_counts 50) as [Hz1 Hz2].
  destruct (radial_forEach_counts (particles this) Hps _ (repeat 0%nat 50)
              (repeat_length _ 50) Hz1) as (hist' & ks' & -> & Hl & Hk & Hs).
  eexists. exists ks'. split; [reflexivity|].
  cbn [radialDist particles radial]. unfold JsArray.mapi.
  rewrite mapi_from_length. split; [exact Hl|]. split; [|split; [|auto]].
  - unfold counts_are in *.
    rewrite (mapi_from_map _ _ _ _ r_count h_count) by reflexivity. exact Hk.
  - rewrite Hs, Hz2. reflexivity.
Qed.

(** The index of a located particle is the bin of its radius. *)
Lemma radial_binIdx_binned (p : Particle.t) :
  located p -> exists i, binned maxR p i.
Proof.
  intros Hp. unfold binned, radial_bin_of, radial_binIdx.
  rewrite forty_nine, fifty.
  assert (H49 : JsArray.to_index (Fin 49) = Some 49%nat).
  { change 49 with (IZR 49). rewrite to_index_IZR by lia. reflexivity. }
  destruct (radius3d_nonneg p Hp) as [Hr|(r & Hr & Hr0)]; rewrite Hr.
  - exists 49%nat. cbn [Num.div]. destruct (Rlt_dec maxR 0); [lra|].
    cbn [Num.mul]. unfold Num.mul_inf.
    destruct (Req_dec_T 50 0); [lra|]. destruct (Rlt_dec 0 50); [|lra].
    cbn [Math.floor Math.min Num.lt]. split; [exact H49|].
    split; [lia|]. split; [intros r0 H; discriminate H|reflexivity].
  - rewrite div_fin by lra. cbn [Num.mul Math.floor].
    set (w := maxR / 50). assert (Hw : 0 < w) by (unfold w; lra).
    set (s := r / maxR * 50).
    assert (Hrs : r = s * w) by (unfold s, w; field; lra).
    assert (Hs : 0 <= s).
    { unfold s. apply Rmult_le_pos; [|lra].
      apply Rmult_le_pos; [exact Hr0|].
      apply Rlt_le, Rinv_0_lt_compat, maxR_pos. }
    pose proof (Int_part_bounds s) as [Hlo Hhi].
    pose proof (Int_part_nonneg s Hs) as Hz.
    unfold Math.min.
    destruct (Num.lt (Fin (IZR (Int_part s))) (Fin 49)) eqn:E.
    + apply lt_fin in E. change 49 with (IZR 49) in E. apply lt_IZR in E.
      exists (Z.to_nat (Int_part s)).
      split; [apply to_index_IZR; lia|]. split; [lia|].
      split; [|intros H; discriminate H].
      intros r0 [= <-]. rewrite INR_IZR_INZ, Z2Nat.id by exact Hz.
      assert (H1 : IZR (Int_part s) * w <= r)
        by (rewrite Hrs; apply Rmult_le_compat_r; lra).
      assert (H2 : r <= (IZR (Int_part s) + 1) * w)
        by (rewrite Hrs; apply Rmult_le_compat_r; lra).
      assert (H3 : 0 <= (IZR (Int_part s) + 1) * w).
      { apply Rmult_le_pos; [|lra]. apply IZR_le in Hz. lra. }
      split; [nra|]. split; [intros _; nra|].
      intros Hbeyond. exfalso.
      assert (H50 : 50 * w <= s * w) by (rewrite <- Hrs; unfold w; lra).
      apply IZR_lt in E. nra.
    + apply lt_fin_false in E. exists 49%nat.
      split; [exact H49|]. split; [lia|].
      split; [|intros H; discriminate H].
      intros r0 [= <-]. split; [|split; [lia|reflexivity]].
      assert (H1 : 49 * w <= r)
        by (rewrite Hrs; apply Rmult_le_compat_r; lra).
      replace (INR 49) with 49 by (rewrite INR_IZR_INZ; reflexivity).
      nra.
Qed.

Lemma located_binned (ps : list Particle.t) :
  Forall located ps -> exists bins, Forall2 (binned maxR) ps bins.
Proof.
  induction 1 as [|p ps Hp _ (bins & IH)]; [exists []; constructor|].
  destruct (radial_binIdx_binned p Hp) as (i & Hi).
  exists (i :: bins). constructor; assumption.
Qed.

Lemma binned_bins (ps : list Particle.t) (bins : list nat) :
  Forall2 (binned maxR) ps bins -> Forall2 (radial_bin_of maxR) ps bins.
Proof.
  induction 1 as [|p i ps bins [_ Hi] _ IH]; constructor; assumption.
Qed.

(** The ingest: the radial histogram of [update]. *)
Lemma update_radial_counts (model : SupernovaModel.t) (this : t) :
  SupernovaModel.getShockRadius model = Fin maxR ->
  radial this = 50%nat ->
  Forall located (SupernovaModel.particles model) ->
  exists this' ks,
    update model this = Returns this'
    /\ particles this' = SupernovaModel.particles model
    /\ length (radialDist this') = 50%nat
    /\ counts_are (map r_count (radialDist this')) ks
    /\ list_sum ks = length (SupernovaModel.particles model)
    /\ radial this' = 50%nat.
Proof.
  intros HR Hbins Hps. unfold update.
  match goal with
  | |- context [updateRadialDistribution model ?d] =>
      destruct (updateRadialDistribution_counts model d HR Hbins Hps)
        as (this2 & ks & -> & Hl & Hk & Hs & Hp & Hb)
  end.
  cbn [particles] in Hs, Hp. unfold SupernovaModel.getParticles in *.
  eexists. exists ks. split; [reflexivity|].
  unfold updateTimeSeries, updateAngularDistribution.
  cbn [particles radialDist radial]. auto 6.
Qed.

Lemma update_returns (model : SupernovaModel.t) (this : t) :
  SupernovaModel.getShockRadius model = Fin maxR ->
  radial this = 50%nat ->
  Forall located (SupernovaModel.particles model) ->
  exists this', update model this = Returns this' /\ radial this' = 50%nat.
Proof.
  intros HR Hbins Hps.
  destruct (update_radial_counts model this HR Hbins Hps)
    as (this' & ks & Hu & _ & _ & _ & _ & Hb).
  exists this'. auto.
Qed.

End RadialHistogram.

(** ** After a step the particles are located *)

Section Located.

Import SupernovaModel.
Local Open Scope R_scope.

Variable h : host.
Hypothesis uniform_h : uniform_host h.

(** After a step with a positive [dt] the shock radius is a positive number
    and every particle has a position made of numbers. *)
Lemma update_located (c : calls) (dt : num) (m : t) :
  positive dt -> model_inv m ->
  positive (getShockRadius (fst (update h c dt m)))
  /\ Forall located (particles (fst (update h c dt m))).
Proof.
  intros (d & -> & Hd) ((e & He & Hepos) & (rho & Hrho & Hrhopos)
                        & (t0 & Ht & Ht0) & Hps).
  destruct (update_fields h c (Fin d) m) as (HE & HD & HT & _ & _).
  rewrite He in HE. rewrite Hrho in HD. rewrite Ht in HT.
  cbn [Num.add] in HT.
  assert (Hpos1 : 0 < t0 + d) by lra.
  split.
  - rewrite (getShockRadius_positive_time _ e rho HE HD Hepos Hrhopos
               (t0 + d) HT Hpos1).
    eexists. split; [reflexivity|]. apply sedov_radius_pos. exact Hpos1.
  - unfold update. cbn [particles energy density time elements].
    set (this1 := mk (energy m) (density m) (Num.add (time m) (Fin d))
                    (elements m) (particles m)).
    assert (Ht1 : time this1 = Fin (t0 + d)) by (cbn; rewrite Ht; reflexivity).
    pose proof (getShockRadius_positive_time this1 e rho He Hrho Hepos
                  Hrhopos (t0 + d) Ht1 Hpos1) as HR.
    pose proof (getShockVelocity_positive_time this1 e rho He Hrho Hepos
                  Hrhopos (t0 + d) Ht1 Hpos1) as HV.
    pose proof (sedov_radius_pos e rho (t0 + d) Hpos1) as HRp.
    rewrite HR, HV. cbn [Num.mul].
    match goal with
    | |- context [forEach_particle ?f c (particles m)] =>
        pose proof (forEach_particle_Forall particle_inv located f) as HF;
        specialize (fun H => HF H (particles m) c Hps);
        destruct (forEach_particle f c (particles m)) as [ps c']
    end.
    cbn [fst particles] in *. apply HF. intros c0 p Hp.
    match goal with
    | |- located (update_particle ?a ?b ?r ?rc ?v ?T h c0 p) =>
        destruct (update_particle_position h uniform_h a b r rc v T d
                    (sedov_radius_pc e rho (t0 + d) * 3.086e18)
                    (0.4 * (sedov_radius_pc e rho (t0 + d) * 3.086e18)
                     / ((t0 + d) * 3.156e7) / 1e5)
                    eq_refl Hd eq_refl ltac:(lra) eq_refl
                    (sedov_radius_pc e rho (t0 + d)) c0 p eq_refl Hp)
          as (xi' & ph' & th' & _ & _ & _ & Hx & Hy & _)
    end.
    split; [rewrite Hx|rewrite Hy]; discriminate.
Qed.

End Located.

(** ** Runs of frames *)

Section Runs.

Import SupernovaModel.
Local Open Scope R_scope.

Variable h : host.
Hypothesis uniform_h : uniform_host h.

(** What an ingest of [model] leaves in the aggregator. *)
Let ingested (model : t) (dm : DataManager.t) : Prop :=
  DataManager.particles dm = particles model
  /\ length (DataManager.radialDist dm) = 50%nat
  /\ exists ks,
       counts_are (map DataManager.r_count (DataManager.radialDist dm)) ks
       /\ list_sum ks = length (particles model).

(** In a run of frames with positive [dt]s from a model with the invariant,
    every ingest returns, and the last one has counted every particle. *)
Lemma frames_return (dts : list num) :
  Forall positive dts ->
  forall c m dm,
    model_inv m -> DataManager.radial dm = 50%nat ->
    (dts = [] -> ingested m dm) ->
    exists m' dm' c',
      Driver.frames h c dts m dm = (m', DataManager.Returns dm', c')
      /\ model_inv m'
      /\ length (particles m') = length (particles m)
      /\ ingested m' dm'.
Proof.
  induction 1 as [|dt dts Hdt _ IH]; intros c m dm Hm Hbins Hnil.
  - exists m, dm, c. cbn [Driver.frames]. auto.
  - cbn [Driver.frames]. unfold Driver.frame.
    pose proof (update_inv h uniform_h c dt m Hdt Hm) as Hm1.
    destruct (update_located h uniform_h c dt m Hdt Hm)
      as ((maxR & HR & HRpos) & Hloc).
    destruct (update_fields h c dt m) as (_ & _ & _ & _ & Hlen).
    destruct (update h c dt m) as [m1 c1]. cbn [fst] in *.
    destruct (update_radial_counts maxR HRpos m1 dm HR Hbins Hloc)
      as (dm1 & ks & -> & Hp1 & Hl1 & Hk1 & Hs1 & Hb1).
    destruct (IH c1 m1 dm1 Hm1 Hb1) as (m' & dm' & c' & Hrun & Hm' & Hl' & Hi').
    + intros _. split; [exact Hp1|]. split; [exact Hl1|]. exists ks. auto.
    + exists m', dm', c'. split; [exact Hrun|]. split; [exact Hm'|].
      split; [congruence|exact Hi'].
Qed.

End Runs.

(** ** The angular histogram *)

Section AngularHistogram.

Import DataManager.
Local Open Scope R_scope.

Lemma thirty_six : Num.of_nat 36 = Fin 36.
Proof. rewrite of_nat_IZR. reflexivity. Qed.

(** On the negative x axis [Math.atan2(0, x)] is [PI]. *)
Lemma atan2_negative_x_axis (x : R) :
  x < 0 -> Math.atan2 (Fin 0) (Fin x) = Math.PI.
Proof.
  intros Hx. unfold Math.atan2, Math.atan2_fin, Math.PI.
  destruct (Rlt_dec 0 x); [lra|]. destruct (Rlt_dec x 0); [|lra].
  destruct (Rlt_dec 0 0); [lra|].
  apply Fin_eq. replace (0 / x) with 0 by (field; lra).
  rewrite atan_0. lra.
Qed.

(** A particle on the negative x axis gets the bin index 36. *)
Lemma angular_binIdx_negative_x_axis (p : Particle.t) (x : R) :
  Particle.x p = Fin x -> x < 0 -> Particle.y p = Fin 0 ->
  angular_binIdx 36 p = Fin 36.
Proof.
  intros Hpx Hx Hpy. unfold angular_binIdx. rewrite Hpx, Hpy.
  rewrite (atan2_negative_x_axis x Hx), thirty_six.
  unfold Math.PI. cbn [Num.add Num.mul].
  pose proof PI_RGT_0 as Hpi.
  rewrite div_fin by lra. cbn [Num.mul Math.floor].
  replace ((PI + PI) / (2 * PI) * 36) with (IZR 36) by (field; lra).
  rewrite Int_part_IZR. reflexivity.
Qed.

Lemma to_index_36 : JsArray.to_index (Fin 36) = Some 36%nat.
Proof. change 36 with (IZR 36). rewrite to_index_IZR by lia. reflexivity. Qed.

(** The histogram of one particle with bin index 36: the 36 bins keep the
    count 0 and a 37th element holds [NaN]. *)
Lemma angular_counts_missed (p : Particle.t) :
  angular_binIdx 36 p = Fin 36 ->
  map (option_map a_count)
    (JsArray.mapi (angular_entry 36)
       (angular_forEach 36 [p] (repeat (Some (Fin 0)) 36)))
  = repeat (Some (Fin 0)) 36 ++ [Some NaN].
Proof.
  intros Hp. cbn [angular_forEach]. rewrite Hp.
  unfold increment. rewrite to_index_36. reflexivity.
Qed.

(** The angular histogram an ingest leaves. *)
Lemma update_angularDist (model : SupernovaModel.t) (this this' : t) :
  update model this = Returns this' ->
  angularDist this'
  = JsArray.mapi (angular_entry (angular this))
      (angular_forEach (angular this) (SupernovaModel.particles model)
         (repeat (Some (Fin 0)) (angular this))).
Proof.
  unfold update.
  match goal with
  | |- context [updateRadialDistribution model ?d] =>
      destruct (updateRadialDistribution model d) as [this2|this2] eqn:E
  end; [|discriminate].
  intros [= <-]. apply radial_keeps in E.
  cbn [particles angular] in E. destruct E as (Hp & _ & _ & _ & Ha).
  unfold updateTimeSeries, updateAngularDistribution. cbn [angularDist].
  rewrite Hp, Ha. reflexivity.
Qed.

End AngularHistogram.

(** ** A run that ends on the negative x axis *)

Section DueWest.

Import SupernovaModel.
Local Open Scope R_scope.

(** With [Math.random()] always one half the one particle of
    [one_particle_model] points along the negative x axis and, after a step
    of 100 years, lies on it. *)
Lemma update_one_particle_model :
  exists p x,
    particles (fst (update host_half (Calls 3 1) (Fin 100) one_particle_model))
    = [p]
    /\ Particle.x p = Fin x /\ x < 0 /\ Particle.y p = Fin 0.
Proof.
  unfold update. cbn [particles energy density time elements].
  set (this1 := mk (energy one_particle_model) (density one_particle_model)
                  (Num.add (time one_particle_model) (Fin 100))
                  (elements one_particle_model)
                  (particles one_particle_model)).
  assert (Ht1 : time this1 = Fin (0 + 100)) by reflexivity.
  assert (Hpos1 : 0 < 0 + 100) by lra.
  assert (He : energy this1 = Fin 1e51) by reflexivity.
  assert (Hd : density this1 = Fin 1e-24) by reflexivity.
  assert (Hepos : 0 < 1e51) by lra.
  assert (Hdpos : 0 < 1e-24) by lra.
  pose proof (getShockRadius_positive_time this1 _ _ He Hd Hepos Hdpos
                (0 + 100) Ht1 Hpos1) as HR.
  pose proof (getShockVelocity_positive_time this1 _ _ He Hd Hepos Hdpos
                (0 + 100) Ht1 Hpos1) as HV.
  pose proof (sedov_radius_pos 1e51 1e-24 (0 + 100) Hpos1) as HRp.
  pose proof (shock_velocity_pos 1e51 1e-24 (0 + 100) Hpos1) as HVp.
  rewrite HR, HV. cbn [Num.mul].
  unfold one_particle_model at 1. cbn [particles forEach_particle fst].
  pose proof one_particle_model_inv as (_ & _ & _ & Hps).
  inversion Hps as [|p0 ps0 Hp0 _ Hp0eq]; subst.
  match goal with
  | |- exists p x, [?p'] = [p] /\ _ =>
      assert (H : exists x, Particle.x p' = Fin x /\ x < 0
                            /\ Particle.y p' = Fin 0);
      [|destruct H as (x & H); exists p', x; split; [reflexivity|exact H]]
  end.
  eapply (update_particle_due_west host_half) with (x := Rabs (1 / 2) * 0.1);
    try reflexivity; try exact Hp0; try lra.
  - rewrite Rabs_right by lra. lra.
  - unfold new_particle. cbn [Particle.theta host_half Math_random Num.mul].
    unfold Math.PI. cbn [Num.mul]. apply Fin_eq. lra.
  - unfold new_particle. cbn [Particle.phi host_half Math_random].
    cbn [Num.sub Num.neg Num.add Num.mul]. rewrite acos_fin by lra.
    apply Fin_eq.
    match goal with |- acos ?a = _ => replace a with 0 by lra end.
    apply acos_0.
Qed.

(** The whole run: the constructor on [one_particle_config], one frame of
    100 years.  The ingest returns, and its angular histogram has no count
    for the particle. *)
Lemma due_west_run :
  exists m' dm' c' p,
    Driver.frames host_half (Calls 3 1) [Fin 100] one_particle_model
      DataManager.constructor = (m', DataManager.Returns dm', c')
    /\ particles m' = [p]
    /\ map (option_map DataManager.a_count) (DataManager.angularDist dm')
       = repeat (Some (Fin 0)) 36 ++ [Some NaN].
Proof.
  assert (H100 : positive (Fin 100)) by (exists 100; split; [reflexivity|lra]).
  destruct (update_located host_half uniform_host_half (Calls 3 1) (Fin 100)
              one_particle_model H100 one_particle_model_inv)
    as ((maxR & HR & HRpos) & Hloc).
  destruct update_one_particle_model as (p & x & Hp & Hx & Hxneg & Hy).
  cbn [Driver.frames]. unfold Driver.frame.
  destruct (update host_half (Calls 3 1) (Fin 100) one_particle_model)
    as [m1 c1]. cbn [fst] in *.
  destruct (update_radial_counts maxR HRpos m1 DataManager.constructor HR
              eq_refl Hloc) as (dm1 & ks & Hu & _).
  rewrite Hu. exists m1, dm1, c1, p. split; [reflexivity|].
  split; [exact Hp|].
  rewrite (update_angularDist m1 DataManager.constructor dm1 Hu), Hp.
  apply angular_counts_missed.
  exact (angular_binIdx_negative_x_axis p x Hx Hxneg Hy).
Qed.

End DueWest.

(** ** What a run reads of the samplers *)

Section Samples.

Import SupernovaModel.

Variables h1 h2 : host.

(** The two hosts agree on the uniform samples below [r] and on the normal
    samples below [n]. *)
Let agree (r n : nat) : Prop :=
  (forall k, (k < r)%nat -> Math_random h1 k = Math_random h2 k)
  /\ (forall k, (k < n)%nat -> d3_randomNormal h1 k = d3_randomNormal h2 k).

Lemma agree_same_samples (c : calls) :
  same_samples h1 h2 c <-> agree (n_random c) (n_normal c).
Proof. reflexivity. Qed.

Lemma agree_weaken (r n r' n' : nat) :
  (r' <= r)%nat -> (n' <= n)%nat -> agree r n -> agree r' n'.
Proof.
  intros Hr Hn [H1 H2]. split; intros k Hk; [apply H1|apply H2]; lia.
Qed.

Ltac weaken H :=
  let H1 := fresh in
  let H2 := fresh in
  let k := fresh "k" in
  let Hk := fresh "Hk" in
  destruct H as [H1 H2];
  split; intros k Hk; [apply H1|apply H2];
  cbn [more_calls n_random n_normal i_calls] in *; lia.

Lemma new_particle_agree (c : calls) (particleId : nat) (elem : Element.t) :
  agree (n_random c + 3) (n_normal c + 1) ->
  new_particle h1 c particleId elem = new_particle h2 c particleId elem.
Proof.
  intros [H1 H2]. unfold new_particle.
  rewrite (H2 (n_normal c)), (H1 (n_random c)), (H1 (n_random c + 1)%nat),
    (H1 (n_random c + 2)%nat) by lia.
  reflexivity.
Qed.

Lemma for_particles_agree (elem : Element.t) (n : nat) :
  forall s,
    agree (n_random (i_calls s) + 3 * n) (n_normal (i_calls s) + n) ->
    for_particles h1 elem n s = for_particles h2 elem n s.
Proof.
  induction n as [|n IH]; intros s Hs; [reflexivity|].
  cbn [for_particles].
  rewrite (new_particle_agree (i_calls s) (i_particleId s) elem)
    by (weaken Hs).
  apply IH. weaken Hs.
Qed.

Lemma forEach_element_calls (h : host) (elems : list Element.t) :
  forall s s',
    forEach_element h elems s = Some s' ->
    (n_random (i_calls s) <= n_random (i_calls s'))%nat
    /\ (n_normal (i_calls s) <= n_normal (i_calls s'))%nat.
Proof.
  induction elems as [|elem elems IH]; intros s s' H.
  - injection H as <-. lia.
  - cbn [forEach_element] in H.
    destruct (loop_count _) as [n|]; [|discriminate].
    apply IH in H.
    destruct (for_particles_spec h elem n s) as (Hc & _ & _).
    rewrite Hc in H. cbn [more_calls n_random n_normal] in H. lia.
Qed.

Lemma forEach_element_agree (elems : list Element.t) :
  forall s s',
    forEach_element h1 elems s = Some s' ->
    same_samples h1 h2 (i_calls s') ->
    forEach_element h2 elems s = Some s'.
Proof.
  induction elems as [|elem elems IH]; intros s s' H Hs; [exact H|].
  cbn [forEach_element] in *.
  destruct (loop_count _) as [n|]; [|discriminate].
  pose proof (forEach_element_calls h1 elems _ _ H) as [Hr Hn].
  destruct (for_particles_spec h1 elem n s) as (Hc & _ & _).
  rewrite Hc in Hr, Hn. cbn [more_calls n_random n_normal] in Hr, Hn.
  rewrite <- (for_particles_agree elem n s)
    by (apply (agree_weaken _ _ _ _ Hr Hn), Hs).
  apply IH; assumption.
Qed.

(** The constructor reads the samples below the call counts it returns. *)
Lemma constructor_agree (c c' : calls) (config : Config.t) (m : t) :
  constructor h1 c config = Some (m, c') ->
  same_samples h1 h2 c' ->
  constructor h2 c config = Some (m, c').
Proof.
  unfold constructor, initializeParticles. intros H Hs.
  destruct (forEach_element h1 _ _) as [s'|] eqn:E; [|discriminate].
  injection H as <- <-.
  rewrite (forEach_element_agree _ _ _ E Hs). reflexivity.
Qed.

Lemma update_particle_agree (this : t)
    (dt R_shock_pc R_shock_cm v_shock_kms T_shock : num)
    (c : calls) (p : Particle.t) :
  agree (n_random c + 4) 0 ->
  update_particle this dt R_shock_pc R_shock_cm v_shock_kms T_shock h1 c p
  = update_particle this dt R_shock_pc R_shock_cm v_shock_kms T_shock h2 c p.
Proof.
  intros [H1 _]. unfold update_particle.
  rewrite (H1 (n_random c)), (H1 (n_random c + 2)%nat),
    (H1 (n_random c + 3)%nat) by lia.
  reflexivity.
Qed.

Lemma forEach_particle_agree (f1 f2 : calls -> Particle.t -> Particle.t)
    (ps : list Particle.t) :
  forall c,
    (forall c0 p,
        (n_random c <= n_random c0)%nat ->
        (n_random c0 + 4 <= n_random c + 4 * length ps)%nat ->
        f1 c0 p = f2 c0 p) ->
    forEach_particle f1 c ps = forEach_particle f2 c ps.
Proof.
  induction ps as [|p ps IH]; intros c Hf; [reflexivity|].
  cbn [forEach_particle]. cbn [length] in Hf.
  rewrite (Hf c p) by lia.
  rewrite (IH (more_calls c 4 0)); [reflexivity|].
  intros c0 p0 H0 H4. cbn [more_calls n_random] in *. apply Hf; lia.
Qed.

Lemma update_calls (h : host) (c : calls) (dt : num) (m : t) :
  snd (update h c dt m) = more_calls c (4 * length (particles m)) 0.
Proof.
  unfold update. cbn [particles].
  match goal with
  | |- context [forEach_particle ?f c (particles m)] =>
      pose proof (proj2 (forEach_particle_length f (particles m) c)) as Hc;
      destruct (forEach_particle f c (particles m)) as [ps c']
  end.
  exact Hc.
Qed.

(** A step reads the uniform samples below the call count it returns. *)
Lemma update_agree (c : calls) (dt : num) (m : t) :
  same_samples h1 h2 (snd (update h1 c dt m)) ->
  update h2 c dt m = update h1 c dt m.
Proof.
  rewrite update_calls. intros Hs. unfold update.
  cbn [particles energy density time elements].
  match goal with
  | |- context [forEach_particle (update_particle ?a ?b ?r ?rc ?v ?T h2) c
                  (particles m)] =>
      rewrite (forEach_particle_agree (update_particle a b r rc v T h2)
                 (update_particle a b r rc v T h1) (particles m) c)
  end; [reflexivity|].
  intros c0 p H0 H4. symmetry. apply update_particle_agree.
  weaken Hs.
Qed.

Lemma frames_calls (h : host) (dts : list num) :
  forall c m dm,
    (n_random c <= n_random (snd (Driver.frames h c dts m dm)))%nat
    /\ (n_normal c <= n_normal (snd (Driver.frames h c dts m dm)))%nat.
Proof.
  induction dts as [|dt dts IH]; intros c m dm;
    [cbn [Driver.frames snd]; lia|].
  cbn [Driver.frames]. unfold Driver.frame.
  pose proof (update_calls h c dt m) as Hc.
  destruct (update h c dt m) as [m' c']. cbn [snd] in Hc.
  assert (Hle : (n_random c <= n_random c')%nat
                /\ (n_normal c <= n_normal c')%nat).
  { rewrite Hc. cbn [more_calls n_random n_normal]. lia. }
  destruct (DataManager.update m' dm) as [dm'|dm'].
  - specialize (IH c' m' dm'). lia.
  - cbn [snd]. exact Hle.
Qed.

(** A run of frames reads the samples below the call counts it ends
    with. *)
Lemma frames_agree (dts : list num) :
  forall c m dm,
    same_samples h1 h2 (snd (Driver.frames h1 c dts m dm)) ->
    Driver.frames h2 c dts m dm = Driver.frames h1 c dts m dm.
Proof.
  induction dts as [|dt dts IH]; intros c m dm Hs; [reflexivity|].
  cbn [Driver.frames] in *. unfold Driver.frame in *.
  assert (E : update h2 c dt m = update h1 c dt m).
  { apply update_agree.
    destruct (update h1 c dt m) as [m' c'] eqn:Eu. cbn [snd].
    destruct (DataManager.update m' dm) as [dm'|dm'].
    - pose proof (frames_calls h1 dts c' m' dm') as [Hr Hn].
      apply agree_same_samples.
      apply (agree_weaken _ _ _ _ Hr Hn), Hs.
    - exact Hs. }
  rewrite E. destruct (update h1 c dt m) as [m' c'].
  destruct (DataManager.update m' dm) as [dm'|dm']; [|reflexivity].
  apply IH. exact Hs.
Qed.

Lemma frames_calls_upper (h : host) (dts : list num) :
  forall c m dm,
    (n_random (snd (Driver.frames h c dts m dm))
     <= n_random c + 4 * length (particles m) * length dts)%nat
    /\ n_normal (snd (Driver.frames h c dts m dm)) = n_normal c.
Proof.
  induction dts as [|dt dts IH]; intros c m dm;
    [cbn [Driver.frames snd length]; lia|].
  cbn [Driver.frames]. unfold Driver.frame.
  pose proof (update_calls h c dt m) as Hc.
  destruct (update_fields h c dt m) as (_ & _ & _ & _ & Hl).
  destruct (update h c dt m) as [m' c']. cbn [fst snd] in Hc, Hl.
  assert (Hle : n_random c' = (n_random c + 4 * length (particles m))%nat
                /\ n_normal c' = n_normal c).
  { rewrite Hc. cbn [more_calls n_random n_normal]. lia. }
  destruct (DataManager.update m' dm) as [dm'|dm'].
  - specialize (IH c' m' dm'). rewrite Hl in IH. cbn [length]. lia.
  - cbn [snd length]. lia.
Qed.

End Samples.

(** ** The first particle *)

Section FirstParticle.

Import SupernovaModel.
Local Open Scope R_scope.

Variable h : host.

Lemma for_particles_prefix (elem : Element.t) (n : nat) :
  forall s,
    exists tail,
      i_particles (for_particles h elem n s) = i_particles s ++ tail.
Proof.
  induction n as [|n IH]; intros s.
  - exists []. cbn [for_particles]. rewrite app_nil_r. reflexivity.
  - cbn [for_particles]. destruct (IH
      {| i_calls := more_calls (i_calls s) 3 1;
         i_particleId := S (i_particleId s);
         i_particles :=
           i_particles s
           ++ [new_particle h (i_calls s) (i_particleId s) elem] |})
      as (tail & ->).
    cbn [i_particles]. rewrite <- app_assoc. eexists. reflexivity.
Qed.

Lemma forEach_element_prefix (elems : list Element.t) :
  forall s s',
    forEach_element h elems s = Some s' ->
    exists tail, i_particles s' = i_particles s ++ tail.
Proof.
  induction elems as [|elem elems IH]; intros s s' H.
  - injection H as <-. exists []. rewrite app_nil_r. reflexivity.
  - cbn [forEach_element] in H.
    destruct (loop_count _) as [n|]; [|discriminate].
    destruct (IH _ _ H) as (tail & ->).
    destruct (for_particles_prefix elem n s) as (tail0 & ->).
    rewrite <- app_assoc. eexists. reflexivity.
Qed.

Lemma forEach_element_first (elem : Element.t) (rest : list Element.t)
    (n : nat) (s s' : init_state) :
  loop_count
    (Math.floor (Num.mul (Fin 2000) (Element.massFrac elem))) = Some (S n) ->
  i_particles s = [] ->
  forEach_element h (elem :: rest) s = Some s' ->
  exists tail,
    i_particles s'
    = new_particle h (i_calls s) (i_particleId s) elem :: tail.
Proof.
  intros Hn Hs H. cbn [forEach_element] in H. rewrite Hn in H.
  cbn [for_particles] in H.
  destruct (forEach_element_prefix _ _ _ H) as (tail & ->).
  match goal with
  | |- context [for_particles h ?e ?k ?s0] =>
      destruct (for_particles_prefix e k s0) as (tail0 & ->)
  end.
  cbn [i_particles]. rewrite Hs. cbn [app]. eexists. reflexivity.
Qed.

(** With the default species the first particle of the ensemble is the
    first iron particle. *)
Lemma first_particle (c c' : calls) (oe od : option num) (m : t) :
  constructor h c (Config.mk oe od None) = Some (m, c') ->
  exists tail,
    particles m
    = new_particle h c 0
        (Element.mk "Fe" (Fin 56) "#e74c3c" (Fin 0.15) (Fin 1e18)) :: tail.
Proof.
  unfold constructor, initializeParticles.
  cbn [Config.elements elements particles].
  destruct (forEach_element h default_elements _) as [s'|] eqn:E;
    [|discriminate].
  intros [= <- _]. cbn [particles].
  apply (forEach_element_first _ _ 299) in E; [exact E| |reflexivity].
  cbn [Element.massFrac Num.mul].
  rewrite (loop_count_floor (2000 * 0.15) 300) by lra. reflexivity.
Qed.

End FirstParticle.

(** ** Identities and species of the ensemble *)

Section Ensemble.

Import SupernovaModel.
Local Open Scope R_scope.

Variable h : host.

Lemma for_particles_ids (elem : Element.t) (n : nat) :
  forall s,
    map Particle.id (i_particles (for_particles h elem n s))
    = map Particle.id (i_particles s) ++ seq (i_particleId s) n
    /\ map Particle.element (i_particles (for_particles h elem n s))
       = map Particle.element (i_particles s) ++ repeat (Element.name elem) n.
Proof.
  induction n as [|n IH]; intros s.
  - cbn [for_particles seq repeat]. rewrite !app_nil_r. split; reflexivity.
  - cbn [for_particles]. destruct (IH
      {| i_calls := more_calls (i_calls s) 3 1;
         i_particleId := S (i_particleId s);
         i_particles :=
           i_particles s
           ++ [new_particle h (i_calls s) (i_particleId s) elem] |})
      as [-> ->].
    cbn [i_particles i_particleId]. rewrite !map_app, <- !app_assoc.
    cbn [map app new_particle Particle.id Particle.element seq repeat].
    split; reflexivity.
Qed.

Lemma forEach_element_ids (elems : list Element.t) :
  forall s s',
    forEach_element h elems s = Some s' ->
    exists k,
      map Particle.id (i_particles s')
      = map Particle.id (i_particles s) ++ seq (i_particleId s) k
      /\ i_particleId s' = (i_particleId s + k)%nat.
Proof.
  induction elems as [|elem elems IH]; intros s s' H.
  - injection H as <-. exists 0%nat. cbn [seq]. rewrite app_nil_r. auto.
  - cbn [forEach_element] in H.
    destruct (loop_count _) as [n|]; [|discriminate].
    destruct (IH _ _ H) as (k & Hk & Hid).
    destruct (for_particles_spec h elem n s) as (_ & Hi & _).
    destruct (for_particles_ids elem n s) as [Hids _].
    exists (n + k)%nat. rewrite Hk, Hid, Hids, Hi, <- app_assoc, seq_app.
    split; [reflexivity|lia].
Qed.

(** The ids the constructor assigns are 0, 1, 2, ... in the order of the
    ensemble. *)
Lemma constructor_ids (c c' : calls) (config : Config.t) (m : t) :
  constructor h c config = Some (m, c') ->
  map Particle.id (particles m) = seq 0 (length (particles m)).
Proof.
  unfold constructor, initializeParticles.
  cbn [elements particles].
  destruct (forEach_element h _ _) as [s'|] eqn:E; [|discriminate].
  intros [= <- _]. cbn [particles].
  destruct (forEach_element_ids _ _ _ E) as (k & Hk & _).
  cbn [i_particles i_particleId map app] in Hk.
  assert (Hl : length (i_particles s') = k).
  { rewrite <- (length_map Particle.id), Hk. apply length_seq. }
  rewrite Hl. exact Hk.
Qed.

Lemma forEach_particle_keeps (A : Type) (g : Particle.t -> A)
    (f : calls -> Particle.t -> Particle.t) :
  (forall c p, g (f c p) = g p) ->
  forall ps c, map g (fst (forEach_particle f c ps)) = map g ps.
Proof.
  intros Hg ps. induction ps as [|p ps IH]; intros c; [reflexivity|].
  cbn [forEach_particle]. specialize (IH (more_calls c 4 0)).
  destruct (forEach_particle f (more_calls c 4 0) ps) as [rest' c'].
  cbn [fst map] in *. rewrite Hg, IH. reflexivity.
Qed.

(** A step keeps the id, the species, the mass and the diffusion
    coefficient of every particle. *)
Lemma update_keeps (c : calls) (dt : num) (m : t) :
  map Particle.id (particles (fst (update h c dt m)))
  = map Particle.id (particles m)
  /\ map Particle.element (particles (fst (update h c dt m)))
     = map Particle.element (particles m)
  /\ map Particle.mass (particles (fst (update h c dt m)))
     = map Particle.mass (particles m)
  /\ map Particle.diffusionCoeff (particles (fst (update h c dt m)))
     = map Particle.diffusionCoeff (particles m).
Proof.
  unfold update. cbn [particles].
  match goal with
  | |- context [forEach_particle ?f c (particles m)] =>
      pose proof (forEach_particle_keeps _ Particle.id f
                    (fun _ _ => eq_refl) (particles m) c) as H1;
      pose proof (forEach_particle_keeps _ Particle.element f
                    (fun _ _ => eq_refl) (particles m) c) as H2;
      pose proof (forEach_particle_keeps _ Particle.mass f
                    (fun _ _ => eq_refl) (particles m) c) as H3;
      pose proof (forEach_particle_keeps _ Particle.diffusionCoeff f
                    (fun _ _ => eq_refl) (particles m) c) as H4;
      destruct (forEach_particle f c (particles m)) as [ps c']
  end.
  cbn [fst particles] in *. auto.
Qed.

Lemma steps_keep_ids (dts : list num) :
  forall c m,
    map Particle.id (particles (fst (Driver.steps h c dts m)))
    = map Particle.id (particles m)
    /\ map Particle.element (particles (fst (Driver.steps h c dts m)))
       = map Particle.element (particles m).
Proof.
  induction dts as [|dt dts IH]; intros c m; [split; reflexivity|].
  cbn [Driver.steps].
  destruct (update_keeps c dt m) as (H1 & H2 & _).
  destruct (update h c dt m) as [m' c']. cbn [fst] in *.
  destruct (IH c' m') as [-> ->]. auto.
Qed.

(** The species of the ensemble, in the order of the configuration. *)
Lemma forEach_element_species (elems : list Element.t) (ns : list nat) :
  Forall2
    (fun elem n =>
       loop_count (Math.floor (Num.mul (Fin 2000) (Element.massFrac elem)))
       = Some n) elems ns ->
  forall s s',
    forEach_element h elems s = Some s' ->
    map Particle.element (i_particles s')
    = map Particle.element (i_particles s)
      ++ concat (map (fun en => repeat (Element.name (fst en)) (snd en))
                   (combine elems ns)).
Proof.
  induction 1 as [|elem n elems ns Hn _ IH]; intros s s' H.
  - injection H as <-. cbn [combine map concat]. rewrite app_nil_r.
    reflexivity.
  - cbn [forEach_element] in H. rewrite Hn in H.
    rewrite (IH _ _ H). destruct (for_particles_ids elem n s) as [_ ->].
    cbn [combine map concat fst snd]. rewrite <- app_assoc. reflexivity.
Qed.

(** Two species with the mass fraction one half: 1000 particles each. *)
Lemma two_halves (c : calls) (e1 e2 : Element.t) :
  Element.massFrac e1 = Fin 0.5 -> Element.massFrac e2 = Fin 0.5 ->
  exists m,
    constructor h c (Config.mk None None (Some [e1; e2]))
    = Some (m, more_calls c (3 * 2000) 2000)
    /\ map Particle.element (particles m)
       = repeat (Element.name e1) 1000 ++ repeat (Element.name e2) 1000
    /\ map Particle.id (particles m) = seq 0 2000.
Proof.
  intros H1 H2.
  assert (Hn : Forall2
            (fun elem n =>
               loop_count
                 (Math.floor (Num.mul (Fin 2000) (Element.massFrac elem)))
               = Some n) [e1; e2] [1000; 1000]%nat).
  { repeat constructor; [rewrite H1|rewrite H2]; cbn [Num.mul];
      rewrite (loop_count_floor (2000 * 0.5) 1000) by lra; reflexivity. }
  destruct (forEach_element_spec h [e1; e2] [1000; 1000]%nat Hn
              {| i_calls := c; i_particleId := 0; i_particles := [] |})
    as (s' & Hs & Hc & _ & Hl).
  pose proof (forEach_element_species _ _ Hn _ _ Hs) as Hsp.
  assert (Hm : constructor h c (Config.mk None None (Some [e1; e2]))
               = Some (mk (Fin 1e51) (Fin 1e-24) (Fin 0) [e1; e2]
                         (i_particles s'),
                       more_calls c (3 * 2000) 2000)).
  { unfold constructor, initializeParticles.
    cbn [Config.elements Config.energy Config.density Num.or_default
         elements particles energy density time].
    rewrite Hs, Hc. reflexivity. }
  eexists. split; [exact Hm|]. cbn [particles]. split.
  - rewrite Hsp. cbn [i_particles map combine concat fst snd app].
    rewrite app_nil_r. reflexivity.
  - pose proof (constructor_ids _ _ _ _ Hm) as Hids.
    cbn [particles] in Hids. rewrite Hids, Hl. reflexivity.
Qed.

End Ensemble.

(** ** Outside the caller's contract *)

Section OutsideContract.

Import SupernovaModel.
Local Open Scope R_scope.

Variable h : host.

(** With a shock velocity that is [NaN] the clamp returns [NaN]. *)
Lemma update_particle_xi_NaN (this : t) (dt R_shock_pc R_shock_cm T_shock : num)
    (c : calls) (p : Particle.t) :
  Particle.xi
    (update_particle this dt R_shock_pc R_shock_cm NaN T_shock h c p)
  = NaN.
Proof.
  unfold update_particle. cbn [Particle.xi Num.mul Num.add Num.div].
  destruct (Particle.xi p); reflexivity.
Qed.

(** The first particle after a step. *)
Lemma update_head (c : calls) (dt : num) (m : t) (p : Particle.t)
    (rest : list Particle.t) :
  particles m = p :: rest ->
  exists rest',
    particles (fst (update h c dt m))
    = update_particle (at_time (Num.add (time m) dt) m) dt
        (getShockRadius (at_time (Num.add (time m) dt) m))
        (Num.mul (getShockRadius (at_time (Num.add (time m) dt) m))
           (Fin 3.086e18))
        (getShockVelocity (at_time (Num.add (time m) dt) m))
        (getShockTemperature (at_time (Num.add (time m) dt) m)) h c p
      :: rest'.
Proof.
  intros Hps. unfold update. cbn [particles energy density time elements].
  rewrite Hps. cbn [forEach_particle].
  match goal with
  | |- context [forEach_particle ?f ?c0 rest] =>
      destruct (forEach_particle f c0 rest) as [rest' c']
  end.
  cbn [fst particles]. exists rest'. reflexivity.
Qed.

(** A step of [dt = 0] at time 0 turns the [xi] of the first particle into
    [NaN]. *)
Lemma zero_step_at_time_zero (c : calls) (m : t) (e d : R) (p : Particle.t)
    (rest : list Particle.t) :
  energy m = Fin e -> density m = Fin d -> 0 < e -> 0 < d ->
  time m = Fin 0 -> particles m = p :: rest ->
  exists p' rest',
    particles (fst (update h c (Fin 0) m)) = p' :: rest'
    /\ Particle.xi p' = NaN.
Proof.
  intros He Hd Hepos Hdpos Ht Hps.
  destruct (update_head c (Fin 0) m p rest Hps) as (rest' & ->).
  eexists. eexists. split; [reflexivity|].
  rewrite (getShockVelocity_time_zero (at_time (Num.add (time m) (Fin 0)) m)
             e d He Hd Hepos Hdpos).
  - apply update_particle_xi_NaN.
  - cbn [at_time time]. rewrite Ht. cbn [Num.add]. apply Fin_eq. lra.
Qed.

(** At the origin, with a shock radius of 0, the radial bin index is
    [NaN], which is no index. *)
Lemma radial_binIdx_at_origin (bins : nat) (p : Particle.t) :
  Particle.x p = Fin 0 -> Particle.y p = Fin 0 -> Particle.z p = Fin 0 ->
  JsArray.to_index (DataManager.radial_binIdx bins (Fin 0) p) = None.
Proof.
  intros Hx Hy Hz. unfold DataManager.radial_binIdx, DataManager.radius3d.
  rewrite Hx, Hy, Hz. unfold Num.or.
  cbn [Num.truthy]. destruct (Req_dec_T 0 0) as [_|H]; [|contradiction].
  rewrite pow_zero_base by lra. cbn [Num.add].
  rewrite sqrt_fin by lra.
  rewrite div_zero_by_zero;
    [|replace (0 + 0 + 0) with 0 by lra; apply sqrt_0|reflexivity].
  cbn [Num.mul Math.floor]. unfold Math.min.
  destruct (Num.sub (Num.of_nat bins) (Fin 1)); reflexivity.
Qed.

(** An ingest of a model at time 0 whose first particle is at the origin
    throws. *)
Lemma ingest_at_time_zero (m : t) (dm : DataManager.t) (e d : R)
    (p : Particle.t) (rest : list Particle.t) :
  energy m = Fin e -> density m = Fin d -> 0 < e -> 0 < d ->
  time m = Fin 0 -> particles m = p :: rest ->
  Particle.x p = Fin 0 -> Particle.y p = Fin 0 -> Particle.z p = Fin 0 ->
  exists dm', DataManager.update m dm = DataManager.TypeError dm'.
Proof.
  intros He Hd Hepos Hdpos Ht Hps Hx Hy Hz.
  unfold DataManager.update, DataManager.updateRadialDistribution.
  cbn [DataManager.particles DataManager.radial].
  rewrite (getShockRadius_time_zero m e d He Hd Hepos Hdpos Ht).
  unfold getParticles. rewrite Hps. cbn [DataManager.radial_forEach].
  rewrite (radial_binIdx_at_origin _ p Hx Hy Hz).
  eexists. reflexivity.
Qed.

End OutsideContract.

(** ** The profiles of the self-similar solution *)

Section Profiles.

Import SupernovaModel.
Local Open Scope R_scope.

Lemma Rpower_base_1 (y : R) : Rpower 1 y = 1.
Proof. unfold Rpower. rewrite ln_1, Rmult_0_r. apply exp_0. Qed.

Lemma Rpower_le_1 (b y : R) : 0 < b <= 1 -> 0 < y -> Rpower b y <= 1.
Proof.
  intros Hb Hy. rewrite <- (Rpower_base_1 y).
  apply Rle_Rpower_l; lra.
Qed.

Lemma Rpower_minus_1 (b : R) : 0 < b -> Rpower b (-1) = / b.
Proof.
  intros Hb. change (IZR (-1)) with (Ropp (IZR 1)).
  rewrite Rpower_Ropp, Rpower_1 by exact Hb. reflexivity.
Qed.

Lemma Rpower_2 (b : R) : 0 < b -> Rpower b 2 = b * b.
Proof.
  intros Hb. replace 2 with (INR 2) by (simpl; lra).
  rewrite Rpower_pow by exact Hb. simpl. ring.
Qed.

(** [a ** 2] on a number. *)
Lemma square_fin (a : R) : Math.pow (Fin a) (Fin 2) = Fin (a * a).
Proof.
  unfold Math.pow.
  destruct (Req_dec_T 2 0) as [H|_]; [lra|].
  destruct (Req_dec_T a 0) as [->|Ha].
  - destruct (Rlt_dec 0 2) as [_|H]; [|lra]. apply Fin_eq. ring.
  - destruct (Rlt_dec 0 a) as [Hpos|Hneg].
    + apply Fin_eq, Rpower_2, Hpos.
    + change 2 with (IZR 2). rewrite is_integer_IZR, Int_part_IZR.
      apply Fin_eq. simpl. ring.
Qed.

(** The velocity factor on [0, 1]: between 0 and 1, at least 0.55 below the
    break at 0.8 and at most 0.5 from it on; 1 at the centre and 0 at the
    shock. *)
Lemma velocityProfile_range (x : R) :
  0 <= x <= 1 ->
  exists vf,
    velocityProfile (Fin x) = Fin vf /\ 0 <= vf <= 1
    /\ (x < 0.8 -> 0.55 <= vf) /\ (0.8 <= x -> vf <= 0.5)
    /\ (x = 0 -> vf = 1) /\ (x = 1 -> vf = 0).
Proof.
  intros Hx. unfold velocityProfile.
  destruct (Num.lt (Fin x) (Fin 0.8)) eqn:E.
  - apply lt_fin in E. cbn [Num.sub Num.neg Num.add Num.mul].
    eexists. split; [reflexivity|].
    pose proof (Rle_0_sqr (x - 0.75)) as Hsq. unfold Rsqr in Hsq.
    assert (Hxx : 0 <= x * (1 - x)) by (apply Rmult_le_pos; lra).
    repeat split; try intros ?; try subst x; lra.
  - apply lt_fin_false in E. cbn [Num.sub Num.neg Num.add Num.mul].
    rewrite div_fin by lra. eexists. split; [reflexivity|].
    match goal with
    | |- context [Rdiv _ ?k] => replace k with 0.2 by lra
    end.
    repeat split; try intros ?; try subst x; lra.
Qed.

(** The compression ratio and the exponent of the density profile for
    [gamma = 5/3]. *)
Lemma alpha_4 : (5 / 3 + 1) / (5 / 3 + - (1)) = 4.
Proof. field. Qed.

Lemma exponent_3_2 : 1 / (5 / 3 + - (1)) = 1.5.
Proof. 
  apply Rmult_eq_reg_r with (r := 5 / 3 + - (1)); [|lra].
  unfold Rdiv at 1. rewrite Rmult_assoc, Rinv_l by lra. lra.
Qed.

Lemma densityProfile_fin (x : R) :
  0 <= x < 1 ->
  densityProfile (Fin x) = Fin (Rpower (1 - x) 1.5 / (1 - x / 4)).
Proof.
  intros Hx. unfold densityProfile.
  rewrite (div_fin 5 3) by lra.
  cbn [Num.sub Num.neg Num.add].
  rewrite (div_fin (5 / 3 + 1)) by lra.
  rewrite (div_fin 1) by lra.
  rewrite alpha_4, exponent_3_2.
  rewrite (div_fin x) by lra.
  cbn [Num.neg Num.add].
  rewrite pow_fin_pos by lra.
  rewrite pow_fin_pos by lra.
  cbn [Num.mul]. apply Fin_eq.
  rewrite Rpower_minus_1 by lra.
  reflexivity.
Qed.

Lemma densityProfile_one : densityProfile (Fin 1) = Fin 0.
Proof.
  unfold densityProfile.
  rewrite (div_fin 5 3) by lra.
  cbn [Num.sub Num.neg Num.add].
  rewrite (div_fin (5 / 3 + 1)) by lra.
  rewrite (div_fin 1) by lra.
  rewrite alpha_4, exponent_3_2.
  rewrite (div_fin 1) by lra.
  cbn [Num.neg Num.add].
  rewrite pow_zero_base by lra.
  rewrite pow_fin_pos by lra.
  cbn [Num.mul]. apply Fin_eq. ring.
Qed.

(** The density factor on [0, 1]: between 0 and 1. *)
Lemma densityProfile_range (x : R) :
  0 <= x <= 1 ->
  exists r,
    densityProfile (Fin x) = Fin r /\ 0 <= r <= 1
    /\ (x < 1 -> r = Rpower (1 - x) 1.5 / (1 - x / 4) /\ 0 < r).
Proof.
  intros Hx. destruct (Req_dec_T x 1) as [->|Hne].
  - exists 0. rewrite densityProfile_one. repeat split; lra.
  - assert (Hx1 : 0 <= x < 1) by lra.
    rewrite (densityProfile_fin x Hx1). eexists. split; [reflexivity|].
    pose proof (Rpower_pos (1 - x) 1.5) as Hpos.
    pose proof (Rpower_pos (1 - x) 0.5) as Hhalf.
    pose proof (Rpower_le_1 (1 - x) 0.5 ltac:(lra) ltac:(lra)) as Hle.
    assert (Hsplit : Rpower (1 - x) 1.5 = (1 - x) * Rpower (1 - x) 0.5).
    { replace 1.5 with (1 + 0.5) by lra.
      rewrite Rpower_plus, Rpower_1 by lra. reflexivity. }
    assert (Hq : 0 < Rpower (1 - x) 1.5 / (1 - x / 4))
      by (apply Rdiv_lt_0_compat; lra).
    repeat split; try lra.
    apply Rmult_le_reg_r with (r := 1 - x / 4); [lra|].
    unfold Rdiv at 1. rewrite Rmult_assoc, Rinv_l by lra.
    rewrite Hsplit. nra.
Qed.

End Profiles.

(** ** The fields a step assigns *)

Section ParticleFields.

Import SupernovaModel.
Local Open Scope R_scope.

Variable h : host.
Hypothesis uniform_h : uniform_host h.

Variable this : t.
Variables dt R_shock_pc R_shock_cm v_shock_kms T_shock : num.
Variables d Rc v Ts rho : R.
Hypothesis dt_fin : dt = Fin d.
Hypothesis d_pos : 0 < d.
Hypothesis Rc_fin : R_shock_cm = Fin Rc.
Hypothesis Rc_pos : 0 < Rc.
Hypothesis v_fin : v_shock_kms = Fin v.
Hypothesis v_nonneg : 0 <= v.
Hypothesis Ts_fin : T_shock = Fin Ts.
Hypothesis Ts_nonneg : 0 <= Ts.
Hypothesis rho_fin : density this = Fin rho.
Hypothesis rho_nonneg : 0 <= rho.

Let step (c : calls) (p : Particle.t) : Particle.t :=
  update_particle this dt R_shock_pc R_shock_cm v_shock_kms T_shock h c p.

(** The temperature lies between 0 and the post-shock temperature, the
    density between 0 and the ambient density. *)
Lemma update_particle_thermal (c : calls) (p : Particle.t) :
  particle_inv p ->
  in_range 0 Ts (Particle.temperature (step c p))
  /\ in_range 0 rho (Particle.density (step c p)).
Proof.
  intros Hp.
  destruct (update_particle_xi h uniform_h this dt R_shock_pc R_shock_cm
              v_shock_kms T_shock d Rc v dt_fin d_pos Rc_fin Rc_pos v_fin
              c p Hp) as (xi' & Hxi & Hxir).
  fold (step c p) in Hxi. split.
  - change (Particle.temperature (step c p))
      with (Num.mul T_shock
              (Math.pow (Num.sub (Fin 1) (Particle.xi (step c p)))
                 (Fin 0.5))).
    rewrite Hxi, Ts_fin. cbn [Num.sub Num.neg Num.add].
    destruct (Req_dec_T xi' 1) as [->|Hne].
    + rewrite pow_zero_base by lra. cbn [Num.mul].
      exists (Ts * 0). split; [reflexivity|lra].
    + rewrite pow_fin_pos by lra. cbn [Num.mul].
      eexists. split; [reflexivity|].
      pose proof (Rpower_pos (1 + - xi') 0.5).
      pose proof (Rpower_le_1 (1 + - xi') 0.5 ltac:(lra) ltac:(lra)).
      nra.
  - change (Particle.density (step c p))
      with (Num.mul (density this)
              (densityProfile (Particle.xi (step c p)))).
    rewrite Hxi, rho_fin.
    destruct (densityProfile_range xi' Hxir) as (r & -> & Hr & _).
    cbn [Num.mul]. eexists. split; [reflexivity|]. nra.
Qed.

(** The velocity points along the position's direction and its magnitude
    is the radial speed, the shock speed (in cm/s) times the velocity
    factor at the [xi] the particle had before the step. *)
Lemma update_particle_velocity (c : calls) (p : Particle.t) :
  particle_inv p ->
  exists vr ph' th',
    0 <= vr <= v * 1e5
    /\ Particle.phi (step c p) = Fin ph'
    /\ Particle.theta (step c p) = Fin th'
    /\ Particle.vx (step c p) = Fin (vr * sin ph' * cos th')
    /\ Particle.vy (step c p) = Fin (vr * sin ph' * sin th')
    /\ Particle.vz (step c p) = Fin (vr * cos ph').
Proof.
  intros Hp.
  destruct (update_particle_inv h uniform_h this dt R_shock_pc R_shock_cm
              v_shock_kms T_shock d Rc v dt_fin d_pos Rc_fin Rc_pos v_fin
              c p Hp) as ([_ (ph' & Hph & _)] & (th' & Hth) & _).
  fold (step c p) in Hph, Hth.
  destruct Hp as ([(x & Hx & Hxr) _] & _).
  destruct (velocityProfile_range x Hxr) as (vf & Hvf & Hvfr & _).
  exists (v * 1e5 * vf), ph', th'.
  split; [nra|]. split; [exact Hph|]. split; [exact Hth|]. repeat split.
  - change (Particle.vx (step c p))
      with (Num.mul
              (Num.mul
                 (Num.mul (Num.mul v_shock_kms (Fin 1e5))
                    (velocityProfile (Particle.xi p)))
                 (Math.sin (Particle.phi (step c p))))
              (Math.cos (Particle.theta (step c p)))).
    rewrite Hx, Hvf, Hph, Hth, v_fin. reflexivity.
  - change (Particle.vy (step c p))
      with (Num.mul
              (Num.mul
                 (Num.mul (Num.mul v_shock_kms (Fin 1e5))
                    (velocityProfile (Particle.xi p)))
                 (Math.sin (Particle.phi (step c p))))
              (Math.sin (Particle.theta (step c p)))).
    rewrite Hx, Hvf, Hph, Hth, v_fin. reflexivity.
  - change (Particle.vz (step c p))
      with (Num.mul
              (Num.mul (Num.mul v_shock_kms (Fin 1e5))
                 (velocityProfile (Particle.xi p)))
              (Math.cos (Particle.phi (step c p)))).
    rewrite Hx, Hvf, Hph, v_fin. reflexivity.
Qed.

(** The perturbation of the two angles is at most 0.075 rad each. *)
Lemma update_particle_angles (c : calls) (p : Particle.t) :
  particle_inv p ->
  exists th ph th' ph',
    Particle.theta p = Fin th /\ Particle.phi p = Fin ph
    /\ Particle.theta (step c p) = Fin th'
    /\ Particle.phi (step c p) = Fin ph'
    /\ Rabs (th' - th) <= 0.075 /\ Rabs (ph' - ph) <= 0.075.
Proof.
  intros ([_ (ph & Hph & Hphr)] & (th & Hth) & _).
  pose proof PI_gt_3 as Hpi.
  destruct (jitter h uniform_h (n_random c + 2)) as (j2 & Hj2 & Hj2r).
  destruct (jitter h uniform_h (n_random c + 3)) as (j3 & Hj3 & Hj3r).
  exists th, ph, (th + j2).
  assert (Hphi' : exists ph',
            Particle.phi (step c p) = Fin ph' /\ Rabs (ph' - ph) <= 0.075).
  { unfold step, update_particle. cbn [Particle.phi].
    rewrite Hph, Hj3. cbn [Num.add]. unfold Num.gt, Math.PI.
    destruct (Num.lt (Fin (ph + j3)) (Fin 0)) eqn:E0.
    - apply lt_fin in E0. cbn [Num.neg].
      rewrite (proj2 (lt_fin_false PI (- (ph + j3)))) by lra.
      eexists. split; [reflexivity|].
      unfold Rabs. destruct (Rcase_abs _); lra.
    - apply lt_fin_false in E0.
      destruct (Num.lt (Fin PI) (Fin (ph + j3))) eqn:E1.
      + apply lt_fin in E1. cbn [Num.sub Num.neg Num.add Num.mul].
        eexists. split; [reflexivity|].
        unfold Rabs. destruct (Rcase_abs _); lra.
      + eexists. split; [reflexivity|].
        unfold Rabs. destruct (Rcase_abs _); lra. }
  destruct Hphi' as (ph' & Hph' & Hd).
  exists ph'. repeat split; try assumption.
  - unfold step, update_particle. cbn [Particle.theta].
    rewrite Hth, Hj2. reflexivity.
  - unfold Rabs. destruct (Rcase_abs _); lra.
Qed.

End ParticleFields.

(** ** A step, particle by particle *)

Section StepFields.

Import SupernovaModel.
Local Open Scope R_scope.

Variable h : host.
Hypothesis uniform_h : uniform_host h.

Lemma forEach_particle_Forall2 (P : Particle.t -> Prop)
    (Q : Particle.t -> Particle.t -> Prop)
    (f : calls -> Particle.t -> Particle.t) :
  (forall c p, P p -> Q p (f c p)) ->
  forall ps c, Forall P ps -> Forall2 Q ps (fst (forEach_particle f c ps)).
Proof.
  intros Hf ps. induction ps as [|p ps IH]; intros c Hps.
  - constructor.
  - inversion Hps as [|? ? Hp Hrest]; subst. cbn [forEach_particle].
    specialize (IH (more_calls c 4 0) Hrest).
    destruct (forEach_particle f (more_calls c 4 0) ps) as [rest' c'].
    cbn [fst] in *. constructor; [apply Hf; exact Hp|exact IH].
Qed.

Lemma Forall2_Forall_r (A B : Type) (Q : B -> Prop) (l : list A)
    (l' : list B) :
  Forall2 (fun _ b => Q b) l l' -> Forall Q l'.
Proof. induction 1; constructor; assumption. Qed.

(** The shock state a step with a positive [dt] computes, and the step as
    the particle update, particle by particle. *)
Lemma update_by_particle (c : calls) (dt : num) (m : t) :
  positive dt -> model_inv m ->
  exists d Rp v Ts rho,
    dt = Fin d /\ 0 < d
    /\ getShockRadius (fst (update h c dt m)) = Fin Rp /\ 0 < Rp
    /\ getShockVelocity (fst (update h c dt m)) = Fin v /\ 0 < v
    /\ getShockTemperature (fst (update h c dt m)) = Fin Ts /\ 0 < Ts
    /\ density (fst (update h c dt m)) = Fin rho /\ 0 < rho
    /\ forall Q : Particle.t -> Particle.t -> Prop,
         (forall this1 c0 p,
             density this1 = Fin rho -> particle_inv p ->
             Q p (update_particle this1 dt (Fin Rp) (Fin (Rp * 3.086e18))
                    (Fin v) (Fin Ts) h c0 p)) ->
         Forall2 Q (particles m) (particles (fst (update h c dt m))).
Proof.
  intros (d & -> & Hd) ((e & He & Hepos) & (rho & Hrho & Hrhopos)
                        & (t0 & Ht & Ht0) & Hps).
  destruct (update_fields h c (Fin d) m) as (HE & HD & HT & _ & _).
  rewrite He in HE. rewrite Hrho in HD. rewrite Ht in HT.
  cbn [Num.add] in HT.
  assert (Hpos1 : 0 < t0 + d) by lra.
  pose proof (getShockRadius_positive_time _ e rho HE HD Hepos Hrhopos
                (t0 + d) HT Hpos1) as HR'.
  pose proof (getShockVelocity_positive_time _ e rho HE HD Hepos Hrhopos
                (t0 + d) HT Hpos1) as HV'.
  destruct (getShockTemperature_positive_time _ e rho HE HD Hepos Hrhopos
              (t0 + d) HT Hpos1) as (Ts & HT' & HTspos).
  pose proof (sedov_radius_pos e rho (t0 + d) Hpos1) as HRp.
  pose proof (shock_velocity_pos e rho (t0 + d) Hpos1) as HVp.
  exists d, (sedov_radius_pc e rho (t0 + d)),
    (0.4 * (sedov_radius_pc e rho (t0 + d) * 3.086e18)
     / ((t0 + d) * 3.156e7) / 1e5), Ts, rho.
  repeat (split; [first [reflexivity | assumption]|]).
  intros Q HQ.
  revert HT'. unfold update. cbn [particles energy density time elements].
  set (this1 := mk (energy m) (density m) (Num.add (time m) (Fin d))
                  (elements m) (particles m)).
  assert (Ht1 : time this1 = Fin (t0 + d)) by (cbn; rewrite Ht; reflexivity).
  pose proof (getShockRadius_positive_time this1 e rho He Hrho Hepos
                Hrhopos (t0 + d) Ht1 Hpos1) as HR.
  pose proof (getShockVelocity_positive_time this1 e rho He Hrho Hepos
                Hrhopos (t0 + d) Ht1 Hpos1) as HV.
  destruct (getShockTemperature_positive_time this1 e rho He Hrho Hepos
              Hrhopos (t0 + d) Ht1 Hpos1) as (Ts1 & HT1 & _).
  rewrite HR, HV, HT1. cbn [Num.mul].
  match goal with
  | |- context [forEach_particle ?f c (particles m)] =>
      pose proof (forEach_particle_Forall2 particle_inv Q f) as HF;
      specialize (fun H => HF H (particles m) c Hps);
      destruct (forEach_particle f c (particles m)) as [ps c']
  end.
  cbn [fst particles] in *. intros HT'.
  assert (HTs : Ts1 = Ts).
  { assert (Heq : Fin Ts1 = Fin Ts) by (rewrite <- HT1, <- HT'; reflexivity).
    injection Heq as ->. reflexivity. }
  subst Ts1. apply HF. intros c0 p Hp. apply HQ; [exact Hrho|exact Hp].
Qed.

(** A property of the model a step returns holds after every run of one
    or more steps. *)
Lemma steps_last (P : t -> Prop) :
  (forall c dt m,
      positive dt -> model_inv m -> P (fst (update h c dt m))) ->
  forall dts,
    Forall positive dts ->
    forall dt c m,
      positive dt -> model_inv m ->
      P (fst (Driver.steps h c (dt :: dts) m)).
Proof.
  intros HP. induction 1 as [|dt' dts Hdt' _ IH]; intros dt c m Hdt Hm.
  - cbn [Driver.steps]. specialize (HP c dt m Hdt Hm).
    destruct (update h c dt m) as [m' c']. exact HP.
  - pose proof (update_inv h uniform_h c dt m Hdt Hm) as Hm1.
    change (Driver.steps h c (dt :: dt' :: dts) m)
      with (let (m1, c1) := update h c dt m in
            Driver.steps h c1 (dt' :: dts) m1).
    destruct (update h c dt m) as [m1 c1]. cbn [fst] in Hm1.
    apply IH; assumption.
Qed.

End StepFields.

(** ** Where a step puts the particles *)

Section Placement.

Import SupernovaModel.
Local Open Scope R_scope.

Lemma or_zero_fin (z : R) : Num.or (Fin z) (Fin 0) = Fin z.
Proof.
  unfold Num.or, Num.truthy.
  destruct (Req_dec_T z 0) as [->|_]; reflexivity.
Qed.

(** The radius the aggregator computes from spherical coordinates. *)
Lemma radius3d_spherical (p : Particle.t) (r ph th : R) :
  0 <= r ->
  Particle.x p = Fin (r * sin ph * cos th) ->
  Particle.y p = Fin (r * sin ph * sin th) ->
  Particle.z p = Fin (r * cos ph) ->
  DataManager.radius3d p = Fin r.
Proof.
  intros Hr Hx Hy Hz. unfold DataManager.radius3d.
  rewrite Hx, Hy, Hz, or_zero_fin, !square_fin. cbn [Num.add].
  assert (Hsum : r * sin ph * cos th * (r * sin ph * cos th)
                 + r * sin ph * sin th * (r * sin ph * sin th)
                 + r * cos ph * (r * cos ph) = r * r).
  { pose proof (sin2_cos2 ph) as Hph. pose proof (sin2_cos2 th) as Hth.
    unfold Rsqr in Hph, Hth.
    replace (r * sin ph * cos th * (r * sin ph * cos th)
             + r * sin ph * sin th * (r * sin ph * sin th)
             + r * cos ph * (r * cos ph))
      with (r * r * (sin ph * sin ph * (sin th * sin th + cos th * cos th)
                     + cos ph * cos ph)) by ring.
    rewrite Hth, Rmult_1_r, Hph. ring. }
  rewrite Hsum. rewrite sqrt_fin by (apply Rmult_le_pos; exact Hr).
  apply Fin_eq, sqrt_square, Hr.
Qed.

Variable h : host.
Hypothesis uniform_h : uniform_host h.

(** After a step every particle lies at the fraction [xi] of the new shock
    radius from the origin. *)
Lemma update_placed (c : calls) (dt : num) (m : t) :
  positive dt -> model_inv m ->
  exists Rs,
    getShockRadius (fst (update h c dt m)) = Fin Rs /\ 0 < Rs
    /\ Forall (placed_at Rs) (particles (fst (update h c dt m))).
Proof.
  intros Hdt Hm.
  destruct (update_by_particle h c dt m Hdt Hm)
    as (d & Rp & v & Ts & rho & Hd & Hdpos & HR & HRpos & _ & _ & _ & _ & _
        & _ & Hall).
  exists Rp. split; [exact HR|]. split; [exact HRpos|].
  apply (Forall2_Forall_r _ _ (placed_at Rp) (particles m)).
  apply Hall. intros this1 c0 p _ Hp.
  assert (HRc : 0 < Rp * 3.086e18) by lra.
  destruct (update_particle_position h uniform_h this1 dt (Fin Rp)
              (Fin (Rp * 3.086e18)) (Fin v) (Fin Ts) d (Rp * 3.086e18) v
              Hd Hdpos eq_refl HRc eq_refl Rp c0 p eq_refl Hp)
    as (xi' & ph' & th' & Hxi & Hph & Hth & Hx & Hy & Hz).
  destruct (update_particle_xi h uniform_h this1 dt (Fin Rp)
              (Fin (Rp * 3.086e18)) (Fin v) (Fin Ts) d (Rp * 3.086e18) v
              Hd Hdpos eq_refl HRc eq_refl c0 p Hp)
    as (xi0 & Hxi0 & Hxir).
  rewrite Hxi in Hxi0. injection Hxi0 as <-.
  assert (Hrad : DataManager.radius3d
                   (update_particle this1 dt (Fin Rp) (Fin (Rp * 3.086e18))
                      (Fin v) (Fin Ts) h c0 p) = Fin (xi' * Rp)).
  { apply (radius3d_spherical _ (xi' * Rp) ph' th'); try assumption.
    apply Rmult_le_pos; lra. }
  exists xi'. split; [exact Hxi|]. split; [exact Hxir|exact Hrad].
Qed.

(** After a step no particle is hotter than the gas behind the shock,
    denser than the ambient medium or faster than the shock. *)
Lemma update_bounded (c : calls) (dt : num) (m : t) :
  positive dt -> model_inv m ->
  exists v Ts rho,
    getShockVelocity (fst (update h c dt m)) = Fin v /\ 0 < v
    /\ getShockTemperature (fst (update h c dt m)) = Fin Ts /\ 0 < Ts
    /\ density (fst (update h c dt m)) = Fin rho /\ 0 < rho
    /\ Forall
         (fun p =>
            in_range 0 Ts (Particle.temperature p)
            /\ in_range 0 rho (Particle.density p)
            /\ speed_at_most (v * 1e5) p)
         (particles (fst (update h c dt m))).
Proof.
  intros Hdt Hm.
  destruct (update_by_particle h c dt m Hdt Hm)
    as (d & Rp & v & Ts & rho & Hd & Hdpos & HR & HRpos & HV & HVpos
        & HT & HTpos & HD & HDpos & Hall).
  exists v, Ts, rho. repeat (split; [assumption|]).
  match goal with
  | |- Forall ?Q _ => apply (Forall2_Forall_r _ _ Q (particles m))
  end.
  apply Hall. intros this1 c0 p Hrho Hp.
  assert (HRc : 0 < Rp * 3.086e18) by lra.
  destruct (update_particle_thermal h uniform_h this1 dt (Fin Rp)
              (Fin (Rp * 3.086e18)) (Fin v) (Fin Ts) d (Rp * 3.086e18) v Ts
              rho Hd Hdpos eq_refl HRc eq_refl eq_refl (Rlt_le _ _ HTpos)
              Hrho (Rlt_le _ _ HDpos) c0 p Hp) as [Htemp Hdens].
  split; [exact Htemp|]. split; [exact Hdens|].
  destruct (update_particle_velocity h uniform_h this1 dt (Fin Rp)
              (Fin (Rp * 3.086e18)) (Fin v) (Fin Ts) d (Rp * 3.086e18) v
              Hd Hdpos eq_refl HRc eq_refl (Rlt_le _ _ HVpos) c0 p Hp)
    as (vr & ph' & th' & Hvr & _ & _ & Hvx & Hvy & Hvz).
  exists (vr * sin ph' * cos th'), (vr * sin ph' * sin th'), (vr * cos ph').
  repeat (split; [assumption|]).
  pose proof (sin2_cos2 ph') as Hph. pose proof (sin2_cos2 th') as Hth.
  unfold Rsqr in Hph, Hth.
  replace (vr * sin ph' * cos th' * (vr * sin ph' * cos th')
           + vr * sin ph' * sin th' * (vr * sin ph' * sin th')
           + vr * cos ph' * (vr * cos ph'))
    with (vr * vr * (sin ph' * sin ph' * (sin th' * sin th' + cos th' * cos th')
                     + cos ph' * cos ph')) by ring.
  rewrite Hth, Rmult_1_r, Hph, Rmult_1_r.
  apply Rmult_le_compat; lra.
Qed.

(** A step turns each of the two angles of a particle by at most 0.075
    rad. *)
Lemma update_turns (c : calls) (dt : num) (m : t) :
  positive dt -> model_inv m ->
  Forall2 turned (particles m)
    (particles (fst (update h c dt m))).
Proof.
  intros Hdt Hm.
  destruct (update_by_particle h c dt m Hdt Hm)
    as (d & Rp & v & Ts & rho & Hd & Hdpos & _ & HRpos & _ & _ & _ & _ & _
        & _ & Hall).
  apply Hall. intros this1 c0 p _ Hp.
  exact (update_particle_angles h uniform_h this1 dt (Fin Rp)
           (Fin (Rp * 3.086e18)) (Fin v) (Fin Ts) c0 p Hp).
Qed.

End Placement.

(** ** How the shock state changes with time and with the parameters *)

Section ShockTrends.

Import SupernovaModel.
Local Open Scope R_scope.

(** The velocity (km/s) as a power law: it falls as [t^(-0.6)]. *)
Lemma shock_velocity_power_law (e d t : R) :
  0 < t ->
  0.4 * (sedov_radius_pc e d t * 3.086e18) / (t * 3.156e7) / 1e5
  = 0.4 * 1.15 * Rpower (e / d) 0.2 / 1e5 / Rpower (t * 3.156e7) 0.6.
Proof.
  intros Ht. unfold sedov_radius_pc.
  set (s := t * 3.156e7). assert (Hs : 0 < s) by (unfold s; lra).
  pose proof (Rpower_pos s 0.4) as H4. pose proof (Rpower_pos s 0.6) as H6.
  assert (Hprod : Rpower s 0.4 * Rpower s 0.6 = s).
  { rewrite <- Rpower_plus. replace (0.4 + 0.6) with 1 by lra.
    apply Rpower_1, Hs. }
  set (a := Rpower s 0.4) in *. set (b := Rpower s 0.6) in *.
  set (k := Rpower (e / d) 0.2).
  rewrite <- Hprod. field. split; lra.
Qed.

Lemma getShockTemperature_formula (m : t) (e d tm : R) :
  energy m = Fin e -> density m = Fin d -> 0 < e -> 0 < d ->
  time m = Fin tm -> 0 < tm ->
  getShockTemperature m
  = Fin (3 / 16 * 0.6
         * Rpower (0.4 * (sedov_radius_pc e d tm * 3.086e18)
                   / (tm * 3.156e7) / 1e5 * 1e5) 2
         / 1.38e-16).
Proof.
  intros He Hd Hepos Hdpos Ht Hpos. unfold getShockTemperature.
  rewrite (getShockVelocity_positive_time m e d He Hd Hepos Hdpos tm Ht Hpos).
  cbn [Num.mul].
  pose proof (shock_velocity_pos e d tm Hpos) as Hv.
  rewrite div_fin by lra. cbn [Num.mul].
  rewrite pow_fin_pos by (try lra; apply Rmult_lt_0_compat; lra).
  cbn [Num.mul]. rewrite div_fin by lra. reflexivity.
Qed.

(** The later, the slower and the cooler. *)
Lemma shock_slows_down (m : t) (e d t1 t2 : R) :
  energy m = Fin e -> density m = Fin d -> 0 < e -> 0 < d ->
  0 < t1 < t2 ->
  exists v1 v2 T1 T2,
    getShockVelocity (at_time (Fin t1) m) = Fin v1
    /\ getShockVelocity (at_time (Fin t2) m) = Fin v2
    /\ 0 < v2 < v1
    /\ getShockTemperature (at_time (Fin t1) m) = Fin T1
    /\ getShockTemperature (at_time (Fin t2) m) = Fin T2
    /\ 0 < T2 < T1.
Proof.
  intros He Hd Hepos Hdpos [H1 H12]. assert (H2 : 0 < t2) by lra.
  set (v := fun t => 0.4 * (sedov_radius_pc e d t * 3.086e18)
                     / (t * 3.156e7) / 1e5).
  exists (v t1), (v t2),
    (3 / 16 * 0.6 * Rpower (v t1 * 1e5) 2 / 1.38e-16),
    (3 / 16 * 0.6 * Rpower (v t2 * 1e5) 2 / 1.38e-16).
  pose proof (shock_velocity_pos e d t1 H1) as Hv1.
  pose proof (shock_velocity_pos e d t2 H2) as Hv2.
  fold (v t1) in Hv1. fold (v t2) in Hv2.
  assert (Hlt : v t2 < v t1).
  { unfold v. rewrite !shock_velocity_power_law by assumption.
    pose proof (Rpower_pos (e / d) 0.2) as Hk.
    pose proof (Rpower_pos (t1 * 3.156e7) 0.6) as Hp1.
    assert (Hp : Rpower (t1 * 3.156e7) 0.6 < Rpower (t2 * 3.156e7) 0.6)
      by (apply Rlt_Rpower_l; lra).
    unfold Rdiv at 1 3. apply Rmult_lt_compat_l.
    - apply Rdiv_lt_0_compat; [|lra].
      apply Rmult_lt_0_compat; [lra|exact Hk].
    - apply Rinv_lt_contravar; [|exact Hp].
      apply Rmult_lt_0_compat; lra. }
  split; [|split; [|split; [lra|split; [|split]]]].
  - apply (getShockVelocity_positive_time (at_time (Fin t1) m) e d He Hd Hepos
             Hdpos t1);
      [reflexivity|exact H1].
  - apply (getShockVelocity_positive_time (at_time (Fin t2) m) e d He Hd Hepos
             Hdpos t2);
      [reflexivity|exact H2].
  - apply (getShockTemperature_formula (at_time (Fin t1) m) e d t1 He Hd Hepos
             Hdpos);
      [reflexivity|exact H1].
  - apply (getShockTemperature_formula (at_time (Fin t2) m) e d t2 He Hd Hepos
             Hdpos);
      [reflexivity|exact H2].
  - pose proof (Rpower_pos (v t2 * 1e5) 2) as Hq2.
    assert (Hq : Rpower (v t2 * 1e5) 2 < Rpower (v t1 * 1e5) 2)
      by (apply Rlt_Rpower_l; lra).
    split.
    + apply Rdiv_lt_0_compat; [|lra]. apply Rmult_lt_0_compat; lra.
    + apply Rmult_lt_compat_r; [lra|]. apply Rmult_lt_compat_l; lra.
Qed.

(** More energy or a thinner medium: a shock that is at least as far. *)
Lemma shock_radius_grows_with_energy (m1 m2 : t) (e1 d1 e2 d2 tm : R) :
  energy m1 = Fin e1 -> density m1 = Fin d1 ->
  energy m2 = Fin e2 -> density m2 = Fin d2 ->
  0 < e1 <= e2 -> 0 < d2 <= d1 ->
  time m1 = Fin tm -> time m2 = Fin tm -> 0 <= tm ->
  Num.le (getShockRadius m1) (getShockRadius m2) = true.
Proof.
  intros He1 Hd1 He2 Hd2 [He1pos He12] [Hd2pos Hd21] Ht1 Ht2 Htm.
  assert (He2pos : 0 < e2) by lra. assert (Hd1pos : 0 < d1) by lra.
  destruct (Req_dec_T tm 0) as [->|Hne].
  - rewrite (getShockRadius_time_zero m1 e1 d1 He1 Hd1 He1pos Hd1pos Ht1).
    rewrite (getShockRadius_time_zero m2 e2 d2 He2 Hd2 He2pos Hd2pos Ht2).
    apply le_fin. lra.
  - assert (Hpos : 0 < tm) by lra.
    rewrite (getShockRadius_positive_time m1 e1 d1 He1 Hd1 He1pos Hd1pos
               tm Ht1 Hpos).
    rewrite (getShockRadius_positive_time m2 e2 d2 He2 Hd2 He2pos Hd2pos
               tm Ht2 Hpos).
    apply le_fin. unfold sedov_radius_pc.
    pose proof (Rpower_pos (tm * 3.156e7) 0.4) as Hs.
    assert (Hratio : e1 / d1 <= e2 / d2).
    { apply Rle_trans with (e2 / d1).
      - apply Rmult_le_compat_r; [|exact He12].
        apply Rlt_le, Rinv_0_lt_compat, Hd1pos.
      - apply Rmult_le_compat_l; [lra|].
        apply Rinv_le_contravar; assumption. }
    assert (Hk : Rpower (e1 / d1) 0.2 <= Rpower (e2 / d2) 0.2).
    { apply Rle_Rpower_l; [lra|]. split; [|exact Hratio].
      apply Rdiv_lt_0_compat; assumption. }
    apply Rmult_le_compat_r; [lra|].
    apply Rmult_le_compat_r; [lra|].
    apply Rmult_le_compat_l; [lra|exact Hk].
Qed.

(** The state depends on the energy, the density and the time only. *)
Lemma getState_ext (a b : t) :
  energy a = energy b -> density a = density b -> time a = time b ->
  getState a = getState b.
Proof.
  intros He Hd Ht.
  unfold getState, getShockTemperature, getShockVelocity, getShockRadius.
  rewrite He, Hd, Ht. reflexivity.
Qed.

Variable h : host.

(** After steps of [ds] years the state is that of the model at the time
    advanced by their sum. *)
Lemma steps_state (ds : list R) :
  forall c m tm,
    time m = Fin tm ->
    getState (fst (Driver.steps h c (map Fin ds) m))
    = getState (at_time (Fin (tm + Rsum ds)) m).
Proof.
  induction ds as [|d ds IH]; intros c m tm Ht.
  - cbn [map Driver.steps fst Rsum fold_right].
    apply getState_ext; cbn [at_time energy density time]; try reflexivity.
    rewrite Ht. apply Fin_eq. lra.
  - cbn [map Driver.steps].
    destruct (update_fields h c (Fin d) m) as (HE & HD & HT & _ & _).
    destruct (update h c (Fin d) m) as [m1 c1]. cbn [fst] in *.
    rewrite Ht in HT. cbn [Num.add] in HT.
    rewrite (IH c1 m1 (tm + d) HT).
    apply getState_ext; cbn [at_time energy density time]; try assumption.
    apply Fin_eq. change (Rsum (d :: ds)) with (d + Rsum ds). lra.
Qed.

End ShockTrends.

(** ** The size and the makeup of the first ensemble *)

Section EnsembleSize.

Import SupernovaModel.
Local Open Scope R_scope.

Variable h : host.

(** The particles of a species with the mass fraction [f]. *)
Lemma loop_count_fraction (f : R) :
  loop_count (Math.floor (Num.mul (Fin 2000) (Fin f)))
  = Some (Z.to_nat (Int_part (2000 * f))).
Proof. cbn [Num.mul]. apply loop_count_floor, Int_part_bounds. Qed.

Lemma species_count_bounds (f : R) :
  0 <= f ->
  2000 * f - 1 <= INR (Z.to_nat (Int_part (2000 * f))) <= 2000 * f.
Proof.
  intros Hf. rewrite INR_IZR_INZ, Z2Nat.id by (apply Int_part_nonneg; lra).
  pose proof (Int_part_bounds (2000 * f)). lra.
Qed.

Lemma fractions_counts (es : list Element.t) (fs : list R) :
  Forall2 (fun elem f => Element.massFrac elem = Fin f /\ 0 <= f) es fs ->
  Forall2
    (fun elem n =>
       loop_count (Math.floor (Num.mul (Fin 2000) (Element.massFrac elem)))
       = Some n) es (map (fun f => Z.to_nat (Int_part (2000 * f))) fs)
  /\ 2000 * Rsum fs - INR (length es)
     <= INR (list_sum (map (fun f => Z.to_nat (Int_part (2000 * f))) fs))
     <= 2000 * Rsum fs.
Proof.
  induction 1 as [|elem f es fs [Hf Hf0] _ [IH1 IH2]].
  - split; [constructor|]. cbn. lra.
  - split.
    + cbn [map]. constructor; [|exact IH1].
      rewrite Hf. apply loop_count_fraction.
    + cbn [map length]. change (Rsum (f :: fs)) with (f + Rsum fs).
      match goal with
      | |- context [list_sum (?n :: ?ns)] =>
          change (list_sum (n :: ns)) with (n + list_sum ns)%nat
      end.
      rewrite plus_INR, S_INR.
      pose proof (species_count_bounds f Hf0). lra.
Qed.

(** The size of the ensemble for mass fractions that are non-negative
    numbers. *)
Lemma constructor_size (c : calls) (oe od : option num)
    (es : list Element.t) (fs : list R) :
  Forall2 (fun elem f => Element.massFrac elem = Fin f /\ 0 <= f) es fs ->
  exists m c',
    constructor h c (Config.mk oe od (Some es)) = Some (m, c')
    /\ length (particles m)
       = list_sum (map (fun f => Z.to_nat (Int_part (2000 * f))) fs)
    /\ 2000 * Rsum fs - INR (length es)
       <= INR (length (particles m)) <= 2000 * Rsum fs
    /\ c' = more_calls c (3 * length (particles m)) (length (particles m)).
Proof.
  intros Hfs. destruct (fractions_counts es fs Hfs) as [Hn Hb].
  destruct (forEach_element_spec h es _ Hn
              {| i_calls := c; i_particleId := 0; i_particles := [] |})
    as (s' & Hs & Hc & _ & Hl).
  cbn [i_calls i_particles length Nat.add] in Hc, Hl.
  unfold constructor, initializeParticles.
  cbn [Config.elements elements particles energy density time].
  rewrite Hs. eexists. eexists. split; [reflexivity|].
  cbn [particles]. rewrite Hl. repeat split; try apply Hb. exact Hc.
Qed.

Lemma forEach_element_app (es1 es2 : list Element.t) :
  forall s,
    forEach_element h (es1 ++ es2) s
    = match forEach_element h es1 s with
      | None => None
      | Some s' => forEach_element h es2 s'
      end.
Proof.
  induction es1 as [|elem es1 IH]; intros s; [reflexivity|].
  cbn [app forEach_element].
  destruct (loop_count _) as [n|]; [apply IH|reflexivity].
Qed.

(** A species with the mass fraction [Infinity] is a loop without end. *)
Lemma forEach_element_infinite (es : list Element.t) (elem : Element.t) :
  In elem es -> Element.massFrac elem = PInf ->
  forall s, forEach_element h es s = None.
Proof.
  intros Hin Hinf. induction es as [|e0 es IH]; intros s; [destruct Hin|].
  cbn [forEach_element]. destruct Hin as [->|Hin].
  - rewrite Hinf. cbn [Num.mul]. unfold Num.mul_inf.
    destruct (Req_dec_T 2000 0); [lra|].
    destruct (Rlt_dec 0 2000); [|lra]. reflexivity.
  - destruct (loop_count _) as [n|]; [|reflexivity]. apply IH, Hin.
Qed.

(** A species with a mass fraction that is [NaN] or [-Infinity] gets no
    particle. *)
Lemma forEach_element_skips (elem : Element.t) (rest : list Element.t) :
  Element.massFrac elem = NaN \/ Element.massFrac elem = NInf ->
  forall s, forEach_element h (elem :: rest) s = forEach_element h rest s.
Proof.
  intros [Hf|Hf] s; cbn [forEach_element]; rewrite Hf; cbn [Num.mul].
  - reflexivity.
  - unfold Num.mul_inf. destruct (Req_dec_T 2000 0); [lra|].
    destruct (Rlt_dec 0 2000); [|lra]. reflexivity.
Qed.

(** The constructor on a list with such a species makes the particles it
    makes without it, from the same samples. *)
Lemma constructor_skips (c : calls) (oe od : option num)
    (es1 es2 : list Element.t) (elem : Element.t) :
  Element.massFrac elem = NaN \/ Element.massFrac elem = NInf ->
  option_map (fun r => (particles (fst r), snd r))
    (constructor h c (Config.mk oe od (Some (es1 ++ elem :: es2))))
  = option_map (fun r => (particles (fst r), snd r))
      (constructor h c (Config.mk oe od (Some (es1 ++ es2)))).
Proof.
  intros Hf. unfold constructor, initializeParticles.
  cbn [Config.elements elements particles energy density time].
  rewrite !forEach_element_app.
  destruct (forEach_element h es1 _) as [s1|]; [|reflexivity].
  rewrite (forEach_element_skips elem es2 Hf).
  destruct (forEach_element h es2 s1); reflexivity.
Qed.

Lemma constructor_infinite (c : calls) (oe od : option num)
    (es : list Element.t) (elem : Element.t) :
  In elem es -> Element.massFrac elem = PInf ->
  constructor h c (Config.mk oe od (Some es)) = None.
Proof.
  intros Hin Hinf. unfold constructor, initializeParticles.
  cbn [Config.elements elements particles energy density time].
  rewrite (forEach_element_infinite es elem Hin Hinf). reflexivity.
Qed.

Lemma forEach_element_Forall (P : Particle.t -> Prop)
    (elems : list Element.t) :
  (forall elem c particleId,
      In elem elems -> P (new_particle h c particleId elem)) ->
  forall s s',
    forEach_element h elems s = Some s' ->
    Forall P (i_particles s) -> Forall P (i_particles s').
Proof.
  induction elems as [|elem elems IH]; intros Hnew s s' Hs HP.
  - injection Hs as <-. exact HP.
  - cbn [forEach_element] in Hs.
    destruct (loop_count _) as [n|]; [|discriminate].
    apply (IH (fun e c i Hin => Hnew e c i (or_intror Hin)) _ _ Hs).
    apply for_particles_Forall; [|exact HP].
    intros c particleId. apply Hnew. left. reflexivity.
Qed.

Hypothesis uniform_h : uniform_host h.

(** A new particle: the species' name, mass number and colour, a mass
    between one half and three halves of [A] atomic mass units, an azimuth
    in [0, 2 PI], at rest at the origin. *)
Lemma new_particle_fresh (elems : list Element.t) (elem : Element.t)
    (c : calls) (particleId : nat) :
  In elem elems -> valid_element elem ->
  fresh elems (new_particle h c particleId elem).
Proof.
  intros Hin ((a & Ha & Hapos) & _ & _).
  exists elem, a. split; [exact Hin|]. split; [exact Ha|].
  split; [exact Hapos|].
  unfold new_particle. cbn [Particle.element Particle.A Particle.color
    Particle.mass Particle.theta Particle.x Particle.y Particle.z
    Particle.vx Particle.vy Particle.vz Particle.diffusionCoeff].
  split; [reflexivity|]. split; [exact Ha|]. split; [reflexivity|].
  split; [reflexivity|]. split; [|split].
  - rewrite Ha. destruct (uniform_h (n_random c + 2)%nat) as (r & -> & Hr).
    cbn [Num.add Num.mul]. eexists. split; [reflexivity|].
    assert (Hm : 0 < a * 1.66e-24) by (apply Rmult_lt_0_compat; lra).
    split.
    + apply Rmult_le_compat_l; lra.
    + apply Rmult_le_compat_l; lra.
  - destruct (uniform_h (n_random c + 1)%nat) as (r & -> & Hr).
    unfold Math.PI. cbn [Num.mul]. eexists. split; [reflexivity|].
    pose proof PI_RGT_0 as Hpi. split.
    + apply Rmult_le_pos; lra.
    + replace (2 * PI) with (1 * 2 * PI) by ring.
      apply Rmult_le_compat_r; [lra|]. lra.
  - repeat split.
Qed.

Lemma constructor_fresh (c c' : calls) (config : Config.t) (m : t) :
  valid_config config ->
  constructor h c config = Some (m, c') ->
  Forall (fresh (elements m)) (particles m).
Proof.
  intros (_ & _ & Hes). unfold constructor, initializeParticles.
  cbn [elements particles energy density time].
  set (es := match Config.elements config with
             | Some es => es
             | None => default_elements
             end).
  assert (Hvalid : Forall valid_element es).
  { unfold es. destruct (Config.elements config) as [es0|];
      [apply Hes; reflexivity|apply default_elements_valid]. }
  destruct (forEach_element h es _) as [s'|] eqn:E; [|discriminate].
  intros [= <- _]. cbn [elements particles].
  eapply (forEach_element_Forall (fresh es) es); [|exact E|constructor].
  intros elem c0 particleId Hin. apply new_particle_fresh; [exact Hin|].
  exact (proj1 (Forall_forall _ _) Hvalid elem Hin).
Qed.

(** The masses of new particles are positive numbers. *)
Lemma fresh_masses (elems : list Element.t) (ps : list Particle.t) :
  Forall (fresh elems) ps ->
  exists ms, masses_are ps ms /\ Forall (fun x => 0 < x) ms.
Proof.
  induction 1 as [|p ps Hp _ (ms & Hms & Hpos)].
  - exists []. split; [reflexivity|constructor].
  - destruct Hp as (elem & a & _ & _ & Ha & _ & _ & _ & _
                    & (x & Hx & Hlo & _) & _).
    exists (x :: ms). split.
    + unfold masses_are in *. cbn [map]. rewrite Hx, Hms. reflexivity.
    + constructor; [|exact Hpos].
      assert (0 < a * 1.66e-24 * 0.5); [|lra].
      apply Rmult_lt_0_compat; [|lra]. apply Rmult_lt_0_compat; lra.
Qed.

Lemma steps_keep_mass (dts : list num) :
  forall c m,
    map Particle.mass (particles (fst (Driver.steps h c dts m)))
    = map Particle.mass (particles m).
Proof.
  induction dts as [|dt dts IH]; intros c m; [reflexivity|].
  cbn [Driver.steps].
  destruct (update_keeps h c dt m) as (_ & _ & H3 & _).
  destruct (update h c dt m) as [m' c']. cbn [fst] in *.
  rewrite IH. exact H3.
Qed.

End EnsembleSize.

(** ** The angular histogram away from the negative x axis *)

Section AngularCounts.

Import DataManager.
Local Open Scope R_scope.

(** [Math.atan2(y, x)] is below [PI] except on the negative x axis. *)
Lemma atan2_fin_range (y x : R) :
  y <> 0 \/ 0 <= x -> - PI < Math.atan2_fin y x < PI.
Proof.
  intros Hoff. pose proof PI_RGT_0 as Hpi.
  pose proof (atan_bound (y / x)) as Hb.
  unfold Math.atan2_fin.
  destruct (Rlt_dec 0 x) as [Hx|Hx]; [lra|].
  destruct (Rlt_dec x 0) as [Hneg|Hnneg].
  - assert (Hy : y <> 0) by (destruct Hoff; [assumption|lra]).
    pose proof (Rinv_lt_0_compat x Hneg) as Hinv.
    destruct (Rlt_dec y 0) as [Hy0|Hy0].
    + assert (Hq : 0 < y / x).
      { unfold Rdiv. replace (y * / x) with ((- y) * (- / x)) by ring.
        apply Rmult_lt_0_compat; lra. }
      pose proof (atan_increasing 0 (y / x) Hq) as Hinc.
      rewrite atan_0 in Hinc. lra.
    + assert (Hq : y / x < 0).
      { unfold Rdiv. replace (y * / x) with (- (y * (- / x))) by ring.
        assert (0 < y * (- / x)) by (apply Rmult_lt_0_compat; lra). lra. }
      pose proof (atan_increasing (y / x) 0 Hq) as Hinc.
      rewrite atan_0 in Hinc. lra.
  - destruct (Rlt_dec 0 y); [lra|]. destruct (Rlt_dec y 0); lra.
Qed.

(** Away from the negative x axis the bin index is one of the 36 bins. *)
Lemma angular_binIdx_index (p : Particle.t) :
  off_negative_x_axis p ->
  exists i,
    JsArray.to_index (angular_binIdx 36 p) = Some i /\ (i < 36)%nat.
Proof.
  intros (x & y & Hx & Hy & Hoff). unfold angular_binIdx.
  rewrite Hx, Hy, thirty_six. unfold Math.PI. cbn [Math.atan2 Num.add Num.mul].
  pose proof PI_RGT_0 as Hpi.
  pose proof (atan2_fin_range y x Hoff) as Ha.
  rewrite div_fin by lra. cbn [Num.mul Math.floor].
  set (v := (Math.atan2_fin y x + PI) / (2 * PI) * 36).
  assert (Hv : 0 <= v < 36).
  { unfold v. split.
    - apply Rmult_le_pos; [|lra].
      apply Rmult_le_pos; [lra|]. apply Rlt_le, Rinv_0_lt_compat. lra.
    - replace 36 with (1 * 36) at 2 by ring.
      apply Rmult_lt_compat_r; [lra|].
      apply Rmult_lt_reg_r with (r := 2 * PI); [lra|].
      unfold Rdiv. rewrite Rmult_assoc, Rinv_l by lra. lra. }
  pose proof (Int_part_nonneg v (proj1 Hv)) as Hz.
  pose proof (Int_part_bounds v) as [Hlo _].
  assert (Hz36 : (Int_part v < 36)%Z).
  { apply lt_IZR. change (IZR 36) with 36. lra. }
  exists (Z.to_nat (Int_part v)). split; [|lia].
  apply to_index_IZR. lia.
Qed.

(** The loop over the particles: every particle adds one to the count of
    one of the 36 bins. *)
Lemma angular_forEach_counts (ps : list Particle.t) :
  Forall off_negative_x_axis ps ->
  forall ks : list nat,
    length ks = 36%nat ->
    exists ks',
      angular_forEach 36 ps (map (fun k => Some (Num.of_nat k)) ks)
      = map (fun k => Some (Num.of_nat k)) ks'
      /\ length ks' = 36%nat
      /\ list_sum ks' = (list_sum ks + length ps)%nat.
Proof.
  induction 1 as [|p ps Hp _ IH]; intros ks Hlen.
  - exists ks. cbn [angular_forEach length]. repeat split; auto.
  - cbn [angular_forEach].
    destruct (angular_binIdx_index p Hp) as (i & Hi & Hi36).
    unfold increment. rewrite Hi.
    destruct (nth_error ks i) as [k|] eqn:Hk;
      [|apply nth_error_None in Hk; lia].
    unfold JsArray.get, JsArray.put.
    rewrite nth_error_map, Hk. cbn [option_map].
    rewrite length_map, Hlen.
    destruct (Nat.ltb_spec i 36) as [_|Hge]; [|lia].
    rewrite of_nat_succ.
    change (Some (Num.of_nat (S k)))
      with ((fun k0 => Some (Num.of_nat k0)) (S k)).
    rewrite <- set_map.
    destruct (IH (JsArray.set i (S k) ks)) as (ks' & H1 & H2 & H3);
      [rewrite set_length; exact Hlen|].
    exists ks'. split; [exact H1|]. split; [exact H2|].
    rewrite H3, (list_sum_set_succ ks i k Hk). cbn [length]. lia.
Qed.

Lemma angular_entry_count (bins : nat) (e : option num) (i : nat) :
  option_map a_count (angular_entry bins e i) = e.
Proof. destruct e; reflexivity. Qed.

Lemma map_id_list (A : Type) (l : list A) : map (fun e => e) l = l.
Proof. induction l as [|e l IH]; cbn; [|rewrite IH]; reflexivity. Qed.

(** The angles of the bins: the middle of each 10 degrees. *)
Lemma angular_entry_angles (ks : list nat) :
  forall start,
    map (option_map a_angle)
      (JsArray.mapi_from (angular_entry 36) start
         (map (fun k => Some (Num.of_nat k)) ks))
    = map (fun i => Some (Fin ((INR i + 0.5) * 2 * PI / 36)))
        (seq start (length ks)).
Proof.
  induction ks as [|k ks IH]; intros start; [reflexivity|].
  cbn [map JsArray.mapi_from length seq angular_entry option_map a_angle].
  rewrite IH. f_equal. f_equal.
  rewrite thirty_six. unfold Num.of_nat, Math.PI.
  cbn [Num.add Num.mul]. rewrite div_fin by lra. reflexivity.
Qed.

Lemma updateAngularDistribution_counts (this : t) :
  angular this = 36%nat ->
  Forall off_negative_x_axis (particles this) ->
  exists ks,
    length ks = 36%nat
    /\ angular_counts_are (angularDist (updateAngularDistribution this)) ks
    /\ list_sum ks = length (particles this)
    /\ map (option_map a_angle) (angularDist (updateAngularDistribution this))
       = map (fun i => Some (Fin ((INR i + 0.5) * 2 * PI / 36))) (seq 0 36).
Proof.
  intros Hbins Hps. unfold updateAngularDistribution, angular_counts_are.
  cbn [angularDist]. rewrite Hbins.
  assert (Hrep : repeat (Some (Fin 0)) 36
                 = map (fun k => Some (Num.of_nat k)) (repeat 0%nat 36)).
  { rewrite map_repeat. reflexivity. }
  rewrite Hrep.
  destruct (angular_forEach_counts (particles this) Hps (repeat 0%nat 36)
              (repeat_length _ 36)) as (ks' & -> & Hlen & Hsum).
  exists ks'. split; [exact Hlen|]. split; [|split].
  - unfold JsArray.mapi.
    rewrite (mapi_from_map _ _ _ _ (option_map a_count) (fun e => e))
      by apply angular_entry_count.
    apply map_id_list.
  - rewrite Hsum. destruct (repeat_zero_counts 36) as [_ ->]. reflexivity.
  - unfold JsArray.mapi. rewrite angular_entry_angles, Hlen. reflexivity.
Qed.

Lemma off_axis_located (p : Particle.t) : off_negative_x_axis p -> located p.
Proof.
  intros (x & y & Hx & Hy & _). split; [rewrite Hx|rewrite Hy]; discriminate.
Qed.

(** The ingest: the angular histogram of [update]. *)
Lemma update_angular_counts (maxR : R) (model : SupernovaModel.t) (this : t) :
  0 < maxR ->
  SupernovaModel.getShockRadius model = Fin maxR ->
  radial this = 50%nat -> angular this = 36%nat ->
  Forall off_negative_x_axis (SupernovaModel.particles model) ->
  exists this' ks,
    update model this = Returns this'
    /\ length ks = 36%nat
    /\ angular_counts_are (angularDist this') ks
    /\ list_sum ks = length (SupernovaModel.particles model)
    /\ map (option_map a_angle) (angularDist this')
       = map (fun i => Some (Fin ((INR i + 0.5) * 2 * PI / 36))) (seq 0 36).
Proof.
  intros Hpos HR Hrad Hang Hps.
  destruct (update_returns maxR Hpos model this HR Hrad)
    as (this' & Hu & _).
  { apply (Forall_impl _ off_axis_located). exact Hps. }
  pose proof (update_angularDist model this this' Hu) as Hdist.
  destruct (updateAngularDistribution_counts
              (with_particles (SupernovaModel.particles model) this))
    as (ks & Hlen & Hk & Hsum & Hang').
  { exact Hang. }
  { exact Hps. }
  exists this', ks. split; [exact Hu|]. split; [exact Hlen|].
  unfold updateAngularDistribution, with_particles in Hk, Hsum, Hang'.
  cbn [angularDist particles angular] in Hk, Hsum, Hang'.
  rewrite Hdist. auto.
Qed.

End AngularCounts.

(** ** The mass in the radial histogram *)

Section RadialMass.

Import DataManager.
Local Open Scope R_scope.

Lemma Rsum_set (Ms : list R) (i : nat) (M a : R) :
  nth_error Ms i = Some M ->
  Rsum (JsArray.set i (M + a) Ms) = Rsum Ms + a.
Proof.
  revert i. induction Ms as [|M0 Ms IH]; intros [|i] H;
    cbn [nth_error JsArray.set] in *; try discriminate.
  - injection H as ->. cbn [Rsum fold_right]. lra.
  - change (M0 + Rsum (JsArray.set i (M + a) Ms) = M0 + Rsum Ms + a).
    rewrite (IH i H). lra.
Qed.

Lemma Rsum_repeat_zero (n : nat) : Rsum (repeat 0 n) = 0.
Proof.
  induction n as [|n IH]; [reflexivity|].
  cbn [repeat]. change (0 + Rsum (repeat 0 n) = 0). rewrite IH. lra.
Qed.

Variable maxR : R.
Hypothesis maxR_pos : 0 < maxR.

(** The density of a bin from its mass: the mass over the area of the
    ring between the bin's two radii. *)
Lemma radial_entry_density (M : R) (i : nat) :
  r_density
    (radial_entry 50 (Fin maxR) {| h_count := Fin 0; h_mass := Fin M |} i)
  = Fin (M / (PI * (2 * INR i + 1) * (maxR / 50 * (maxR / 50)))).
Proof.
  unfold radial_entry. cbn [r_density h_mass]. rewrite fifty.
  unfold Num.of_nat, Math.PI. cbn [Num.add].
  rewrite (div_fin maxR 50) by lra. rewrite !square_fin.
  cbn [Num.sub Num.neg Num.add Num.mul].
  pose proof PI_RGT_0 as Hpi. pose proof (pos_INR i) as Hi.
  assert (Hw : 0 < maxR / 50 * (maxR / 50))
    by (apply Rmult_lt_0_compat; lra).
  assert (Hring : (INR i + 1) * (INR i + 1) + - (INR i * INR i)
                  = 2 * INR i + 1) by ring.
  rewrite Hring.
  assert (Harea : 0 < PI * (2 * INR i + 1) * (maxR / 50 * (maxR / 50))).
  { apply Rmult_lt_0_compat; [|exact Hw].
    apply Rmult_lt_0_compat; lra. }
  rewrite div_fin by lra. reflexivity.
Qed.

Lemma radial_entry_mass (hb : hist_bin) (c : num) (i : nat) :
  r_density (radial_entry 50 (Fin maxR) hb i)
  = r_density
      (radial_entry 50 (Fin maxR) {| h_count := c; h_mass := h_mass hb |} i).
Proof. reflexivity. Qed.

Lemma mapi_from_density (hist : list hist_bin) (Ms : list R) :
  map h_mass hist = map Fin Ms ->
  forall start,
    map r_density (JsArray.mapi_from (radial_entry 50 (Fin maxR)) start hist)
    = JsArray.mapi_from
        (fun M i =>
           Fin (M / (PI * (2 * INR i + 1) * (maxR / 50 * (maxR / 50)))))
        start Ms.
Proof.
  revert Ms. induction hist as [|hb hist IH]; intros [|M Ms] H start;
    try discriminate; [reflexivity|].
  cbn [map] in H. injection H as HM Hrest.
  cbn [JsArray.mapi_from map]. rewrite (IH Ms Hrest). f_equal.
  rewrite (radial_entry_mass hb (Fin 0)), HM. apply radial_entry_density.
Qed.

(** The radii of the bins: the middle of each bin. *)
Lemma mapi_from_radius (hist : list hist_bin) :
  forall start,
    map r_radius (JsArray.mapi_from (radial_entry 50 (Fin maxR)) start hist)
    = map (fun i => Fin ((INR i + 0.5) * maxR / 50))
        (seq start (length hist)).
Proof.
  induction hist as [|hb hist IH]; intros start; [reflexivity|].
  cbn [JsArray.mapi_from map length seq]. rewrite IH. f_equal.
  unfold radial_entry. cbn [r_radius]. rewrite fifty.
  unfold Num.of_nat. cbn [Num.add Num.mul]. rewrite div_fin by lra.
  reflexivity.
Qed.

End RadialMass.

(** ** Ingests: errors, repetition, the empty ensemble *)

Section Ingests.

Import DataManager.
Local Open Scope R_scope.

(** [Math.min(49, v)] is an index below 50 when it is an index. *)
Lemma min_49_index (v : num) (i : nat) :
  JsArray.to_index (Math.min (Fin 49) v) = Some i -> (i < 50)%nat.
Proof.
  unfold Math.min. destruct v as [| | |x]; cbn [Num.lt];
    try (cbn [JsArray.to_index]; discriminate).
  - change 49 with (IZR 49). rewrite to_index_IZR by lia.
    intros [= <-]. lia.
  - destruct (Rlt_dec x 49) as [Hx|Hx].
    + unfold JsArray.to_index.
      destruct (Math.is_integer x) eqn:Eint; [|discriminate].
      destruct (0 <=? Int_part x)%Z eqn:E0; [|discriminate].
      destruct (Int_part x <? 4294967295)%Z; [|discriminate].
      cbn [andb]. intros [= <-].
      apply Z.leb_le in E0. pose proof (Int_part_bounds x) as [Hlo _].
      assert (H49 : (Int_part x < 49)%Z).
      { apply lt_IZR. change (IZR 49) with 49. lra. }
      lia.
    + change 49 with (IZR 49). rewrite to_index_IZR by lia.
      intros [= <-]. lia.
Qed.

(** The loop over the particles stops at the first particle whose bin index
    is no index, and only there. *)
Lemma radial_forEach_outcome (maxRadius : num) (ps : list Particle.t) :
  forall hist : list hist_bin,
    length hist = 50%nat ->
    (Exists (fun p => JsArray.to_index (radial_binIdx 50 maxRadius p) = None)
       ps ->
     radial_forEach 50 maxRadius ps hist = None)
    /\ (Forall
          (fun p => JsArray.to_index (radial_binIdx 50 maxRadius p) <> None)
          ps ->
        exists hist', radial_forEach 50 maxRadius ps hist = Some hist').
Proof.
  assert (H49 : Num.sub (Num.of_nat 50) (Fin 1) = Fin 49) by apply forty_nine.
  induction ps as [|p ps IH]; intros hist Hlen.
  - split; [intros H; inversion H|]. intros _. exists hist. reflexivity.
  - cbn [radial_forEach].
    destruct (JsArray.to_index (radial_binIdx 50 maxRadius p)) as [i|] eqn:E.
    + assert (Hi : (i < 50)%nat).
      { unfold radial_binIdx in E. rewrite H49 in E.
        exact (min_49_index _ i E). }
      destruct (nth_error hist i) as [hb|] eqn:Hnth;
        [|apply nth_error_None in Hnth; lia].
      match goal with
      | |- context [radial_forEach 50 maxRadius ps ?hist1] =>
          destruct (IH hist1) as [IH1 IH2];
          [rewrite set_length; exact Hlen|]
      end.
      split.
      * intros Hex. inversion Hex as [? ? Hbad|? ? Hrest]; subst.
        -- rewrite E in Hbad. discriminate.
        -- apply IH1, Hrest.
      * intros Hall. inversion Hall; subst. apply IH2. assumption.
    + split; [reflexivity|].
      intros Hall. inversion Hall as [|? ? Hgood _]; subst.
      rewrite E in Hgood. contradiction.
Qed.

(** When an ingest throws and when it returns. *)
Lemma update_outcome (model : SupernovaModel.t) (this : t) :
  radial this = 50%nat ->
  let no_bin p :=
    JsArray.to_index
      (radial_binIdx 50 (SupernovaModel.getShockRadius model) p) = None in
  (Exists no_bin (SupernovaModel.particles model) ->
   update model this
   = TypeError (with_particles (SupernovaModel.particles model) this))
  /\ (Forall (fun p => ~ no_bin p) (SupernovaModel.particles model) ->
      exists this', update model this = Returns this').
Proof.
  intros Hbins no_bin. unfold update, updateRadialDistribution.
  cbn [particles radial]. unfold SupernovaModel.getParticles.
  rewrite Hbins.
  destruct (radial_forEach_outcome (SupernovaModel.getShockRadius model)
              (SupernovaModel.particles model)
              (repeat {| h_count := Fin 0; h_mass := Fin 0 |} 50)
              (repeat_length _ 50)) as [H1 H2].
  split.
  - intros Hex. rewrite (H1 Hex). unfold with_particles. rewrite Hbins.
    reflexivity.
  - intros Hall. destruct (H2 Hall) as (hist' & ->). eexists. reflexivity.
Qed.

(** A second ingest of the same model state makes the same histograms and
    pushes the same sample again. *)
Lemma update_twice (model : SupernovaModel.t) (this this1 : t) :
  update model this = Returns this1 ->
  update model this1 = Returns (updateTimeSeries model this1).
Proof.
  unfold update at 1. unfold updateRadialDistribution.
  cbn [particles radial].
  destruct (radial_forEach _ _ _ _) as [hist'|] eqn:E; [|discriminate].
  intros [= <-].
  unfold update, updateRadialDistribution.
  cbn [particles radial angular radialDist angularDist timeSeries
       maxHistory updateTimeSeries updateAngularDistribution].
  rewrite E. reflexivity.
Qed.

Lemma map_mapi_from_repeat (A B C : Type) (f : A -> nat -> B) (g : B -> C)
    (a : A) (c : C) :
  (forall i, g (f a i) = c) ->
  forall n start,
    map g (JsArray.mapi_from f start (repeat a n)) = repeat c n.
Proof.
  intros H n. induction n as [|n IH]; intros start; [reflexivity|].
  cbn [repeat JsArray.mapi_from map]. rewrite H, IH. reflexivity.
Qed.

(** The ingest of a model without particles returns at any time, with
    empty bins. *)
Lemma update_no_particles (model : SupernovaModel.t) (this : t) :
  SupernovaModel.particles model = [] ->
  exists this',
    update model this = Returns this'
    /\ particles this' = []
    /\ map r_count (radialDist this') = repeat (Fin 0) (radial this)
    /\ map (option_map a_count) (angularDist this')
       = repeat (Some (Fin 0)) (angular this)
    /\ timeSeries this'
       = timeSeries
           (updateTimeSeries model
              (with_particles [] this)).
Proof.
  intros Hps. unfold update, updateRadialDistribution.
  cbn [particles radial]. unfold SupernovaModel.getParticles.
  rewrite Hps. cbn [radial_forEach]. eexists. split; [reflexivity|].
  unfold updateTimeSeries, updateAngularDistribution, with_particles.
  cbn [particles radialDist angularDist timeSeries radial angular
       maxHistory angular_forEach].
  split; [reflexivity|]. split; [|split; [|reflexivity]].
  - unfold JsArray.mapi. apply map_mapi_from_repeat. reflexivity.
  - unfold JsArray.mapi. apply map_mapi_from_repeat. reflexivity.
Qed.

End Ingests.

(** ** The projection of the view *)

Section Projection.

Import Visualization.
Local Open Scope R_scope.

Lemma div_by_zero_pos (a b : R) :
  0 < a -> b = 0 -> Num.div (Fin a) (Fin b) = PInf.
Proof.
  intros Ha Hb. cbn [Num.div].
  destruct (Req_dec_T b 0) as [_|H]; [|contradiction].
  destruct (Req_dec_T a 0) as [H|_]; [lra|].
  destruct (Rlt_dec 0 a) as [_|H]; [reflexivity|contradiction].
Qed.

Lemma mul_inf_not_fin (x r : R) : Num.mul (Fin x) PInf <> Fin r.
Proof.
  cbn [Num.mul]. unfold Num.mul_inf.
  destruct (Req_dec_T x 0); [discriminate|].
  destruct (Rlt_dec 0 x); discriminate.
Qed.

(** The two rotations keep the distance from the origin. *)
Lemma rotations_keep_norm (a e x y z : R) :
  let x1 := x * cos a - y * sin a in
  let y1 := x * sin a + y * cos a in
  let y2 := y1 * cos e - z * sin e in
  let z2 := y1 * sin e + z * cos e in
  x1 * x1 + y2 * y2 + z2 * z2 = x * x + y * y + z * z.
Proof.
  cbv zeta.
  pose proof (sin2_cos2 a) as Ha. pose proof (sin2_cos2 e) as He.
  unfold Rsqr in Ha, He.
  set (ca := cos a) in *. set (sa := sin a) in *.
  set (ce := cos e) in *. set (se := sin e) in *.
  replace ((x * ca - y * sa) * (x * ca - y * sa)
           + ((x * sa + y * ca) * ce - z * se)
             * ((x * sa + y * ca) * ce - z * se)
           + ((x * sa + y * ca) * se + z * ce)
             * ((x * sa + y * ca) * se + z * ce))
    with ((x * x + y * y) * (sa * sa + ca * ca)
          + ((x * sa + y * ca) * (x * sa + y * ca) + z * z)
            * (se * se + ce * ce)
          - (x * sa + y * ca) * (x * sa + y * ca)) by ring.
  rewrite Ha, He.
  replace ((x * sa + y * ca) * (x * sa + y * ca))
    with ((x * x + y * y) * (sa * sa + ca * ca)
          - (x * ca - y * sa) * (x * ca - y * sa)) by ring.
  rewrite Ha. ring.
Qed.

(** The projection of a point made of numbers, for a view made of numbers,
    when the perspective does not divide by zero. *)
Lemma project3DTo2D_numbers (v : t) (p : Particle.t) (az el V x y z : R) :
  azimuth v = Fin az -> elevation v = Fin el -> viewRange v = Fin V ->
  Particle.x p = Fin x -> Particle.y p = Fin y -> Particle.z p = Fin z ->
  let a := az * PI / 180 in
  let e := el * PI / 180 in
  let x1 := x * cos a - y * sin a in
  let y1 := x * sin a + y * cos a in
  let y2 := y1 * cos e - z * sin e in
  let z2 := y1 * sin e + z * cos e in
  V <> 0 -> 1 + z2 / (V * 2) <> 0 ->
  project3DTo2D v p
  = {| xp := Fin (x1 * (1 / (1 + z2 / (V * 2))));
       yp := Fin (y2 * (1 / (1 + z2 / (V * 2)))) |}.
Proof.
  intros Haz Hel HV Hx Hy Hz a e x1 y1 y2 z2 HV0 Hden.
  unfold project3DTo2D. rewrite Haz, Hel, HV, Hx, Hy, Hz.
  unfold Math.PI. cbn [Num.mul].
  rewrite !(div_fin _ 180) by lra.
  cbn [Math.cos Math.sin Num.mul Num.sub Num.neg Num.add].
  fold a e.
  rewrite (div_fin _ (V * 2)) by lra. cbn [Num.add].
  rewrite div_fin by exact Hden. cbn [Num.mul]. reflexivity.
Qed.

(** No further than the view range from the origin the perspective is a
    number between two thirds and 2. *)
Lemma project3DTo2D_near (v : t) (p : Particle.t) (az el V x y z : R) :
  azimuth v = Fin az -> elevation v = Fin el -> viewRange v = Fin V ->
  0 < V ->
  Particle.x p = Fin x -> Particle.y p = Fin y -> Particle.z p = Fin z ->
  x * x + y * y + z * z <= V * V ->
  let a := az * PI / 180 in
  let e := el * PI / 180 in
  let x1 := x * cos a - y * sin a in
  let y1 := x * sin a + y * cos a in
  let y2 := y1 * cos e - z * sin e in
  let z2 := y1 * sin e + z * cos e in
  let k := 1 / (1 + z2 / (V * 2)) in
  project3DTo2D v p = {| xp := Fin (x1 * k); yp := Fin (y2 * k) |}
  /\ x1 * x1 + y2 * y2 + z2 * z2 = x * x + y * y + z * z
  /\ 2 / 3 <= k <= 2.
Proof.
  intros Haz Hel HV HVpos Hx Hy Hz Hnear a e x1 y1 y2 z2 k.
  pose proof (rotations_keep_norm a e x y z) as Hnorm. cbv zeta in Hnorm.
  fold x1 y1 in Hnorm. fold y2 z2 in Hnorm.
  assert (Hz2 : - V <= z2 <= V).
  { assert (Hsq : z2 * z2 <= V * V).
    { pose proof (Rle_0_sqr x1) as H1. pose proof (Rle_0_sqr y2) as H2.
      unfold Rsqr in H1, H2. lra. }
    split.
    - destruct (Rle_dec (- V) z2) as [H|H]; [exact H|].
      exfalso. assert (Hge : V < - z2) by lra.
      assert (Hmul : V * V < (- z2) * (- z2))
        by (apply Rmult_le_0_lt_compat; lra).
      replace (- z2 * - z2) with (z2 * z2) in Hmul by ring. lra.
    - destruct (Rle_dec z2 V) as [H|H]; [exact H|].
      exfalso. assert (Hge : V < z2) by lra.
      assert (Hmul : V * V < z2 * z2)
        by (apply Rmult_le_0_lt_compat; lra).
      lra. }
  assert (Hq : - (1 / 2) <= z2 / (V * 2) <= 1 / 2).
  { split.
    - apply Rmult_le_reg_r with (r := V * 2); [lra|].
      unfold Rdiv at 2. rewrite Rmult_assoc, Rinv_l by lra. lra.
    - apply Rmult_le_reg_r with (r := V * 2); [lra|].
      unfold Rdiv at 1. rewrite Rmult_assoc, Rinv_l by lra. lra. }
  split; [|split; [exact Hnorm|]].
  - apply (project3DTo2D_numbers v p az el V x y z); try assumption;
      [lra|change (1 + z2 / (V * 2) <> 0); lra].
  - unfold k. set (den := 1 + z2 / (V * 2)) in *.
    assert (Hden : 1 / 2 <= den <= 3 / 2) by (unfold den; lra).
    split.
    + apply Rmult_le_reg_r with (r := den); [lra|].
      unfold Rdiv at 2. rewrite Rmult_assoc, Rinv_l by lra. lra.
    + apply Rmult_le_reg_r with (r := den); [lra|].
      unfold Rdiv at 1. rewrite Rmult_assoc, Rinv_l by lra. lra.
Qed.

(** With no elevation a point at twice the view range below the plane
    divides by zero. *)
Lemma project3DTo2D_pole (v : t) (p : Particle.t) (az V x y : R) :
  azimuth v = Fin az -> elevation v = Fin 0 -> viewRange v = Fin V ->
  0 < V ->
  Particle.x p = Fin x -> Particle.y p = Fin y ->
  Particle.z p = Fin (- (V * 2)) ->
  forall r, xp (project3DTo2D v p) <> Fin r
            /\ yp (project3DTo2D v p) <> Fin r.
Proof.
  intros Haz Hel HV HVpos Hx Hy Hz r.
  unfold project3DTo2D. rewrite Haz, Hel, HV, Hx, Hy, Hz.
  unfold Math.PI. cbn [Num.mul xp yp].
  rewrite !(div_fin _ 180) by lra.
  cbn [Math.cos Math.sin Num.mul Num.sub Num.neg Num.add].
  replace (0 * PI / 180) with 0 by lra. rewrite cos_0, sin_0.
  rewrite (div_fin _ (V * 2)) by lra. cbn [Num.add].
  rewrite div_by_zero_pos; [|lra|].
  - split; apply mul_inf_not_fin.
  - match goal with
    | |- 1 + ?q = 0 => replace q with (-1); [lra|]
    end.
    field. lra.
Qed.

(** A point at most [Rs] from the origin, with [Rs] at most the view
    range. *)
Lemma within_projects (v : t) (p : Particle.t) (az el V Rs : R) :
  azimuth v = Fin az -> elevation v = Fin el -> viewRange v = Fin V ->
  0 < V -> 0 <= Rs <= V ->
  within Rs p -> projects_within v Rs p.
Proof.
  intros Haz Hel HV HVpos [HRs0 HRs] (x & y & z & Hx & Hy & Hz & Hr).
  assert (Hnear : x * x + y * y + z * z <= V * V).
  { apply Rle_trans with (Rs * Rs); [exact Hr|].
    apply Rmult_le_compat; lra. }
  destruct (project3DTo2D_near v p az el V x y z Haz Hel HV HVpos Hx Hy Hz
              Hnear) as (Hp & Hnorm & Hk).
  cbv zeta in Hp, Hnorm, Hk.
  set (a := az * PI / 180) in *. set (e := el * PI / 180) in *.
  set (x1 := x * cos a - y * sin a) in *.
  set (y1 := x * sin a + y * cos a) in *.
  set (y2 := y1 * cos e - z * sin e) in *.
  set (z2 := y1 * sin e + z * cos e) in *.
  set (k := 1 / (1 + z2 / (V * 2))) in *.
  exists (x1 * k), (y2 * k). split; [exact Hp|].
  replace (x1 * k * (x1 * k) + y2 * k * (y2 * k))
    with (k * k * (x1 * x1 + y2 * y2)) by ring.
  replace (2 * Rs * (2 * Rs)) with (2 * 2 * (Rs * Rs)) by ring.
  pose proof (Rle_0_sqr z2) as Hz2. unfold Rsqr in Hz2.
  pose proof (Rle_0_sqr x1) as Hx1. pose proof (Rle_0_sqr y2) as Hy2.
  unfold Rsqr in Hx1, Hy2.
  apply Rmult_le_compat; [apply Rle_0_sqr|lra| |lra].
  apply Rmult_le_compat; lra.
Qed.

End Projection.

(** ** From the step to the view *)

Section StepToView.

Import SupernovaModel.
Local Open Scope R_scope.

Variable h : host.
Hypothesis uniform_h : uniform_host h.

(** After a step every particle has a position made of numbers, at most
    the shock radius from the origin. *)
Lemma update_within (c : calls) (dt : num) (m : t) :
  positive dt -> model_inv m ->
  exists Rs,
    getShockRadius (fst (update h c dt m)) = Fin Rs /\ 0 < Rs
    /\ Forall (within Rs) (particles (fst (update h c dt m))).
Proof.
  intros Hdt Hm.
  destruct (update_by_particle h c dt m Hdt Hm)
    as (d & Rp & v & Ts & rho & Hd & Hdpos & HR & HRpos & _ & _ & _ & _ & _
        & _ & Hall).
  exists Rp. split; [exact HR|]. split; [exact HRpos|].
  apply (Forall2_Forall_r _ _ (within Rp) (particles m)).
  apply Hall. intros this1 c0 p _ Hp.
  assert (HRc : 0 < Rp * 3.086e18) by lra.
  destruct (update_particle_position h uniform_h this1 dt (Fin Rp)
              (Fin (Rp * 3.086e18)) (Fin v) (Fin Ts) d (Rp * 3.086e18) v
              Hd Hdpos eq_refl HRc eq_refl Rp c0 p eq_refl Hp)
    as (xi' & ph' & th' & Hxi & Hph & Hth & Hx & Hy & Hz).
  destruct (update_particle_xi h uniform_h this1 dt (Fin Rp)
              (Fin (Rp * 3.086e18)) (Fin v) (Fin Ts) d (Rp * 3.086e18) v
              Hd Hdpos eq_refl HRc eq_refl c0 p Hp)
    as (xi0 & Hxi0 & Hxir).
  rewrite Hxi in Hxi0. injection Hxi0 as <-.
  eexists. eexists. eexists.
  split; [exact Hx|]. split; [exact Hy|]. split; [exact Hz|].
  pose proof (sin2_cos2 ph') as Hsph. pose proof (sin2_cos2 th') as Hsth.
  unfold Rsqr in Hsph, Hsth.
  replace (xi' * Rp * sin ph' * cos th' * (xi' * Rp * sin ph' * cos th')
           + xi' * Rp * sin ph' * sin th' * (xi' * Rp * sin ph' * sin th')
           + xi' * Rp * cos ph' * (xi' * Rp * cos ph'))
    with (xi' * Rp * (xi' * Rp)
          * (sin ph' * sin ph' * (sin th' * sin th' + cos th' * cos th')
             + cos ph' * cos ph')) by ring.
  rewrite Hsth, Rmult_1_r, Hsph, Rmult_1_r.
  assert (H0 : 0 <= xi' * Rp) by (apply Rmult_le_pos; lra).
  assert (H1 : xi' * Rp <= Rp).
  { replace Rp with (1 * Rp) at 2 by ring.
    apply Rmult_le_compat_r; lra. }
  apply Rmult_le_compat; assumption.
Qed.

End StepToView.

(** ** The run of one particle *)

Section OneParticleRun.

Import SupernovaModel.
Local Open Scope R_scope.

Lemma valid_one_particle_config : valid_config one_particle_config.
Proof.
  unfold valid_config, one_particle_config.
  cbn [Config.energy Config.density Config.elements].
  split; [intros e H; discriminate H|].
  split; [intros d H; discriminate H|].
  intros es [= <-]. constructor; [|constructor].
  unfold valid_element, positive. cbn [Element.A Element.massFrac Element.D0].
  repeat split; try (eexists; split; [reflexivity|lra]).
  eexists. reflexivity.
Qed.

(** The shock radius after the first step of 100 years. *)
Lemma one_particle_radius (h : host) (c : calls) :
  getShockRadius (fst (Driver.steps h c [Fin 100] one_particle_model))
  = Fin (sedov_radius_pc 1e51 1e-24 (0 + 100)).
Proof.
  cbn [Driver.steps].
  destruct (update_fields h c (Fin 100) one_particle_model)
    as (HE & HD & HT & _ & _).
  destruct (update h c (Fin 100) one_particle_model) as [m1 c1].
  cbn [fst] in *.
  apply (getShockRadius_positive_time m1 1e51 1e-24 HE HD); try lra.
  exact HT.
Qed.

End OneParticleRun.

(** ** A [NaN] that stays *)

Section Poison.

Import SupernovaModel.
Local Open Scope R_scope.

Variable h : host.

(** A particle whose [xi] is [NaN] keeps it, and gets a position that is
    [NaN]. *)
Lemma update_particle_poisoned (this : t)
    (dt R_shock_pc R_shock_cm v_shock_kms T_shock : num) (c : calls)
    (p : Particle.t) :
  Particle.xi p = NaN ->
  let p' :=
    update_particle this dt R_shock_pc R_shock_cm v_shock_kms T_shock h c p in
  Particle.xi p' = NaN /\ Particle.x p' = NaN.
Proof.
  intros Hxi p'.
  assert (Hxi' : Particle.xi p' = NaN).
  { unfold p', update_particle. cbn [Particle.xi]. rewrite Hxi.
    reflexivity. }
  split; [exact Hxi'|].
  change (Particle.x p')
    with (Num.mul (Num.mul (Num.mul (Particle.xi p') R_shock_pc)
                     (Math.sin (Particle.phi p')))
            (Math.cos (Particle.theta p'))).
  rewrite Hxi'. reflexivity.
Qed.

Lemma forEach_particle_Exists (P Q : Particle.t -> Prop)
    (f : calls -> Particle.t -> Particle.t) :
  (forall c p, P p -> Q (f c p)) ->
  forall ps c, Exists P ps -> Exists Q (fst (forEach_particle f c ps)).
Proof.
  intros Hf ps. induction ps as [|p ps IH]; intros c Hex;
    [inversion Hex|].
  cbn [forEach_particle]. specialize (IH (more_calls c 4 0)).
  destruct (forEach_particle f (more_calls c 4 0) ps) as [rest' c'].
  cbn [fst] in *. inversion Hex as [? ? Hp|? ? Hrest]; subst.
  - apply Exists_cons_hd. apply Hf, Hp.
  - apply Exists_cons_tl. apply IH, Hrest.
Qed.

Lemma update_poisoned (c : calls) (dt : num) (m : t) :
  Exists (fun p => Particle.xi p = NaN) (particles m) ->
  Exists (fun p => Particle.xi p = NaN /\ Particle.x p = NaN)
    (particles (fst (update h c dt m))).
Proof.
  intros Hex. unfold update. cbn [particles energy density time elements].
  match goal with
  | |- context [forEach_particle ?f c (particles m)] =>
      pose proof (forEach_particle_Exists
                    (fun p => Particle.xi p = NaN)
                    (fun p => Particle.xi p = NaN /\ Particle.x p = NaN)
                    f) as HF;
      specialize (fun H => HF H (particles m) c Hex);
      destruct (forEach_particle f c (particles m)) as [ps c']
  end.
  cbn [fst particles] in *. apply HF. intros c0 p Hp.
  apply update_particle_poisoned, Hp.
Qed.

Lemma steps_poisoned (dts : list num) :
  forall dt c m,
    Exists (fun p => Particle.xi p = NaN) (particles m) ->
    Exists (fun p => Particle.xi p = NaN /\ Particle.x p = NaN)
      (particles (fst (Driver.steps h c (dt :: dts) m))).
Proof.
  induction dts as [|dt' dts IH]; intros dt c m Hex.
  - cbn [Driver.steps]. pose proof (update_poisoned c dt m Hex) as H1.
    destruct (update h c dt m) as [m1 c1]. exact H1.
  - pose proof (update_poisoned c dt m Hex) as H1.
    change (Driver.steps h c (dt :: dt' :: dts) m)
      with (let (m1, c1) := update h c dt m in
            Driver.steps h c1 (dt' :: dts) m1).
    destruct (update h c dt m) as [m1 c1]. cbn [fst] in H1.
    apply IH. eapply Exists_impl; [|exact H1].
    intros p [Hp _]. exact Hp.
Qed.

(** A position that is [NaN] has no radial bin. *)
Lemma radial_binIdx_NaN (bins : nat) (maxRadius : num) (p : Particle.t) :
  Particle.x p = NaN ->
  JsArray.to_index (DataManager.radial_binIdx bins maxRadius p) = None.
Proof.
  intros Hx. unfold DataManager.radial_binIdx, DataManager.radius3d.
  rewrite Hx.
  assert (Hpow : Math.pow NaN (Fin 2) = NaN).
  { unfold Math.pow. destruct (Req_dec_T 2 0); [lra|reflexivity]. }
  rewrite Hpow. cbn [Num.add Math.sqrt Num.div Num.mul Math.floor].
  unfold Math.min. destruct (Num.sub (Num.of_nat bins) (Fin 1)); reflexivity.
Qed.

(** The ingest of a model with such a particle throws. *)
Lemma update_poisoned_throws (model : t) (this : DataManager.t) :
  Exists (fun p => Particle.x p = NaN) (particles model) ->
  DataManager.update model this
  = DataManager.TypeError (with_particles (particles model) this).
Proof.
  intros Hex. unfold DataManager.update, DataManager.updateRadialDistribution.
  cbn [DataManager.particles DataManager.radial]. unfold getParticles.
  assert (Hnone : forall hist,
            DataManager.radial_forEach (DataManager.radial this)
              (getShockRadius model) (particles model) hist = None).
  { induction Hex as [p ps Hp|p ps _ IH]; intros hist;
      cbn [DataManager.radial_forEach].
    - rewrite (radial_binIdx_NaN _ _ p Hp). reflexivity.
    - destruct (JsArray.to_index _) as [i|]; [|reflexivity].
      destruct (nth_error hist i); [apply IH|reflexivity]. }
  rewrite Hnone. reflexivity.
Qed.

End Poison.

(** ** The time series of a run *)

Section RunSeries.

Import SupernovaModel.
Local Open Scope R_scope.

Variable h : host.
Hypothesis uniform_h : uniform_host h.

Lemma constructor_time (c c' : calls) (config : Config.t) (m : t) :
  constructor h c config = Some (m, c') -> time m = Fin 0.
Proof.
  unfold constructor, initializeParticles.
  cbn [elements particles energy density time].
  destruct (forEach_element h _ _) as [s'|]; [|discriminate].
  intros [= <- _]. reflexivity.
Qed.

Lemma elapsed_length (ds : list R) :
  forall tm, length (elapsed tm ds) = length ds.
Proof.
  induction ds as [|d ds IH]; intros tm; [reflexivity|].
  cbn [elapsed length]. rewrite IH. reflexivity.
Qed.

(** The samples a run of frames pushes: one per frame, with the time the
    frame has reached and the number of particles. *)
Lemma frames_series (ds : list R) :
  Forall (fun d => 0 < d) ds ->
  forall c m dm tm,
    model_inv m -> time m = Fin tm ->
    DataManager.radial dm = 50%nat ->
    (length (DataManager.timeSeries dm) <= DataManager.maxHistory dm)%nat ->
    exists m' dm' c' samples,
      Driver.frames h c (map Fin ds) m dm = (m', DataManager.Returns dm', c')
      /\ DataManager.timeSeries dm'
         = skipn (length (DataManager.timeSeries dm ++ samples)
                  - DataManager.maxHistory dm)
             (DataManager.timeSeries dm ++ samples)
      /\ map DataManager.s_time samples = map Fin (elapsed tm ds)
      /\ Forall
           (fun s => DataManager.s_particleCount s = length (particles m))
           samples
      /\ DataManager.maxHistory dm' = DataManager.maxHistory dm
      /\ (length (DataManager.timeSeries dm')
          <= DataManager.maxHistory dm)%nat.
Proof.
  induction 1 as [|d ds Hd _ IH]; intros c m dm tm Hm Ht Hbins Hlen.
  - exists m, dm, c, []. cbn [map Driver.frames elapsed].
    rewrite app_nil_r.
    replace (length (DataManager.timeSeries dm) - DataManager.maxHistory dm)%nat
      with 0%nat by lia.
    repeat split; try reflexivity; try assumption. constructor.
  - cbn [map Driver.frames]. unfold Driver.frame.
    assert (Hdpos : positive (Fin d)) by (exists d; split; [reflexivity|lra]).
    pose proof (update_inv h uniform_h c (Fin d) m Hdpos Hm) as Hm1.
    destruct (update_located h uniform_h c (Fin d) m Hdpos Hm)
      as ((maxR & HR & HRpos) & Hloc).
    destruct (update_fields h c (Fin d) m) as (_ & _ & HT & _ & Hcount).
    rewrite Ht in HT. cbn [Num.add] in HT.
    destruct (update h c (Fin d) m) as [m1 c1]. cbn [fst] in *.
    destruct (update_radial_counts maxR HRpos m1 dm HR Hbins Hloc)
      as (dm1 & ks & Hu & _ & _ & _ & _ & Hb1).
    destruct (update_timeSeries m1 dm dm1 Hlen Hu) as (Hts1 & Hlen1 & Hmax1).
    cbv zeta in Hts1. rewrite Hu.
    destruct (IH c1 m1 dm1 (tm + d) Hm1 HT Hb1)
      as (m' & dm' & c' & samples & Hrun & Hts & Htimes & Hcounts & Hmax
          & Hlen');
      [rewrite Hmax1; exact Hlen1|].
    exists m', dm', c', (sample_of_model m1 :: samples).
    split; [exact Hrun|]. rewrite Hmax1 in Hts, Hmax, Hlen'.
    split; [|split; [|split; [|split; [exact Hmax|exact Hlen']]]].
    + rewrite Hts, Hts1.
      set (ts := DataManager.timeSeries dm) in *.
      set (cap := DataManager.maxHistory dm) in *.
      set (s := sample_of_model m1).
      rewrite skipn_skipn_app by (rewrite length_app; cbn; lia).
      replace (ts ++ s :: samples) with ((ts ++ [s]) ++ samples)
        by (rewrite <- app_assoc; reflexivity).
      f_equal.
      rewrite !length_app, length_skipn, !length_app. cbn [length]. lia.
    + cbn [map elapsed]. rewrite Htimes. f_equal.
      unfold sample_of_model, getState.
      cbn [DataManager.s_time State.time]. exact HT.
    + constructor.
      * unfold sample_of_model. cbn [DataManager.s_particleCount].
        exact Hcount.
      * rewrite <- Hcount. exact Hcounts.
Qed.

Lemma Forall_skipn_list (A : Type) (P : A -> Prop) (l : list A) :
  forall n, Forall P l -> Forall P (skipn n l).
Proof.
  induction l as [|a l IH]; intros [|n] Hl; cbn [skipn]; try assumption.
  inversion Hl; subst. apply IH. assumption.
Qed.

Lemma map_skipn (A B : Type) (f : A -> B) (l : list A) :
  forall n, map f (skipn n l) = skipn n (map f l).
Proof.
  induction l as [|a l IH]; intros [|n]; cbn [skipn map]; try reflexivity.
  apply IH.
Qed.

End RunSeries.

(** ** The radial histogram, bin by bin *)

Section RadialBins.

Import DataManager.
Local Open Scope R_scope.

Lemma mapi_from_seq (A B : Type) (f : A -> nat -> B) (g : nat -> A)
    (n : nat) :
  forall start,
    JsArray.mapi_from f start (map g (seq start n))
    = map (fun i => f (g i) i) (seq start n).
Proof.
  induction n as [|n IH]; intros start; [reflexivity|].
  cbn [seq map JsArray.mapi_from]. rewrite IH. reflexivity.
Qed.

(** A list of 50 elements is the list of its elements by index. *)
Lemma list_by_index (A : Type) (d : A) (l : list A) (f : nat -> A) :
  length l = 50%nat ->
  (forall j, (j < 50)%nat -> nth j l d = f j) ->
  l = map f (seq 0 50).
Proof.
  intros Hlen Hnth.
  apply (nth_ext l (map f (seq 0 50)) d (f 0%nat)).
  - rewrite length_map, length_seq. exact Hlen.
  - intros j Hj. rewrite Hlen in Hj. rewrite (Hnth j Hj).
    rewrite (map_nth f (seq 0 50) 0%nat j), seq_nth by exact Hj.
    reflexivity.
Qed.

Lemma count_in_bin_cons (i : nat) (bins : list nat) (j : nat) :
  count_in_bin (i :: bins) j
  = ((if Nat.eqb i j then 1 else 0) + count_in_bin bins j)%nat.
Proof.
  unfold count_in_bin. cbn [count_occ].
  destruct (Nat.eq_dec i j) as [->|Hne].
  - rewrite Nat.eqb_refl. reflexivity.
  - apply Nat.eqb_neq in Hne. rewrite Hne. reflexivity.
Qed.

Variable maxR : R.
Hypothesis maxR_pos : 0 < maxR.

(** The loop over the particles adds one to the count of the bin of each
    particle. *)
Lemma radial_forEach_by_bin (ps : list Particle.t) (bins : list nat) :
  Forall2 (binned maxR) ps bins ->
  forall (hist : list hist_bin) (ks : list nat),
    length hist = 50%nat ->
    counts_are (map h_count hist) ks ->
    exists hist' ks',
      radial_forEach 50 (Fin maxR) ps hist = Some hist'
      /\ length hist' = 50%nat
      /\ counts_are (map h_count hist') ks'
      /\ list_sum ks' = (list_sum ks + length ps)%nat
      /\ forall j, nth j ks' 0%nat = (nth j ks 0 + count_in_bin bins j)%nat.
Proof.
  induction 1 as [|p i ps bins [Hidx (Hi & _)] _ IH];
    intros hist ks Hlen Hks.
  - exists hist, ks. cbn [radial_forEach length].
    repeat split; auto; intros j; unfold count_in_bin; cbn [count_occ]; lia.
  - cbn [radial_forEach]. rewrite Hidx.
    destruct (nth_error hist i) as [hb|] eqn:Hnth;
      [|apply nth_error_None in Hnth; lia].
    assert (Hk : exists k, nth_error ks i = Some k
                           /\ h_count hb = Num.of_nat k).
    { pose proof (map_nth_error h_count i hist Hnth) as Hm.
      unfold counts_are in Hks. rewrite Hks in Hm.
      rewrite nth_error_map in Hm.
      destruct (nth_error ks i) as [k|]; [|discriminate].
      exists k. split; [reflexivity|]. cbn in Hm. congruence. }
    destruct Hk as (k & Hki & Hkc).
    assert (Hiks : (i < length ks)%nat)
      by (apply nth_error_Some; rewrite Hki; discriminate).
    destruct (IH (JsArray.set i
                    {| h_count := Num.add (h_count hb) (Fin 1);
                       h_mass := Num.add (h_mass hb) (Particle.mass p) |}
                    hist)
                 (JsArray.set i (S k) ks))
      as (hist' & ks' & H1 & H2 & H3 & H4 & H5).
    + rewrite set_length. exact Hlen.
    + unfold counts_are in *. rewrite !set_map. cbn [h_count].
      rewrite Hkc, of_nat_succ, Hks. reflexivity.
    + exists hist', ks'. repeat split; auto.
      * rewrite H4, (list_sum_set_succ ks i k Hki). cbn [length]. lia.
      * intros j. rewrite H5, (@nth_set _ i j (S k) 0%nat ks Hiks).
        rewrite count_in_bin_cons.
        destruct (Nat.eqb_spec i j) as [<-|Hne]; [|lia].
        rewrite (nth_error_nth ks i 0%nat Hki). lia.
Qed.

(** The loop over the particles adds the mass of each particle to the mass
    of its bin. *)
Lemma radial_forEach_mass_by_bin (ps : list Particle.t) (bins : list nat) :
  Forall2 (binned maxR) ps bins ->
  forall (ms : list R) (hist : list hist_bin) (Ms : list R),
    masses_are ps ms ->
    length hist = 50%nat ->
    map h_mass hist = map Fin Ms ->
    exists hist' Ms',
      radial_forEach 50 (Fin maxR) ps hist = Some hist'
      /\ map h_mass hist' = map Fin Ms'
      /\ Rsum Ms' = Rsum Ms + Rsum ms
      /\ forall j, nth j Ms' 0 = nth j Ms 0 + mass_in_bin bins ms j.
Proof.
  induction 1 as [|p i ps bins [Hidx (Hi & _)] _ IH];
    intros ms hist Ms Hms Hlen HMs.
  - destruct ms; [|discriminate]. exists hist, Ms.
    cbn [radial_forEach Rsum fold_right mass_in_bin].
    repeat split; auto; intros; lra.
  - destruct ms as [|mp ms]; [discriminate|].
    unfold masses_are in Hms. cbn [map] in Hms.
    injection Hms as Hmp Hms.
    cbn [radial_forEach]. rewrite Hidx.
    destruct (nth_error hist i) as [hb|] eqn:Hnth;
      [|apply nth_error_None in Hnth; lia].
    assert (HM : exists M, nth_error Ms i = Some M /\ h_mass hb = Fin M).
    { pose proof (map_nth_error h_mass i hist Hnth) as Hm.
      rewrite HMs, nth_error_map in Hm.
      destruct (nth_error Ms i) as [M|]; [|discriminate].
      exists M. split; [reflexivity|]. cbn in Hm. congruence. }
    destruct HM as (M & HMi & HMb).
    assert (HiMs : (i < length Ms)%nat)
      by (apply nth_error_Some; rewrite HMi; discriminate).
    destruct (IH ms
                (JsArray.set i
                   {| h_count := Num.add (h_count hb) (Fin 1);
                      h_mass := Num.add (h_mass hb) (Particle.mass p) |}
                   hist)
                (JsArray.set i (M + mp) Ms))
      as (hist' & Ms' & H1 & H3 & H4 & H5).
    + exact Hms.
    + rewrite set_length. exact Hlen.
    + rewrite !set_map. cbn [h_mass]. rewrite HMb, Hmp, HMs. reflexivity.
    + exists hist', Ms'. repeat split; auto.
      * rewrite H4, (Rsum_set Ms i M mp HMi).
        change (Rsum (mp :: ms)) with (mp + Rsum ms). lra.
      * intros j. rewrite H5, (@nth_set _ i j (M + mp) 0 Ms HiMs).
        cbn [mass_in_bin].
        destruct (Nat.eqb_spec i j) as [<-|Hne]; [|lra].
        rewrite (nth_error_nth Ms i 0 HMi). lra.
Qed.

Lemma nth_repeat_zero (A : Type) (a : A) (n j : nat) :
  nth j (repeat a n) a = a.
Proof.
  revert j. induction n as [|n IH]; intros [|j]; cbn [repeat nth]; auto.
Qed.

(** The ingest, bin by bin: the count of a bin is the number of particles
    of that bin, its density is the mass of those particles over the area
    of the ring between the bin's two radii, and its radius is the middle of
    the bin. *)
Lemma update_radial_bins (model : SupernovaModel.t) (this : t)
    (bins : list nat) :
  SupernovaModel.getShockRadius model = Fin maxR ->
  radial this = 50%nat ->
  Forall2 (binned maxR) (SupernovaModel.particles model) bins ->
  exists this',
    update model this = Returns this'
    /\ particles this' = SupernovaModel.particles model
    /\ length (radialDist this') = 50%nat
    /\ radial this' = 50%nat
    /\ counts_are (map r_count (radialDist this'))
         (map (count_in_bin bins) (seq 0 50))
    /\ list_sum (map (count_in_bin bins) (seq 0 50))
       = length (SupernovaModel.particles model)
    /\ map r_radius (radialDist this')
       = map (fun i => Fin ((INR i + 0.5) * maxR / 50)) (seq 0 50)
    /\ forall ms,
         masses_are (SupernovaModel.particles model) ms ->
         map r_density (radialDist this')
         = map (fun i =>
                  Fin (mass_in_bin bins ms i
                       / (PI * (2 * INR i + 1) * (maxR / 50 * (maxR / 50)))))
             (seq 0 50)
         /\ Rsum (map (mass_in_bin bins ms) (seq 0 50)) = Rsum ms.
Proof.
  intros HR Hbins Hps.
  unfold update, updateRadialDistribution.
  cbn [particles radial]. unfold SupernovaModel.getParticles.
  rewrite HR, Hbins.
  destruct (repeat_zero_counts 50) as [Hz1 Hz2].
  destruct (radial_forEach_by_bin _ _ Hps
              (repeat {| h_count := Fin 0; h_mass := Fin 0 |} 50)
              (repeat 0%nat 50) (repeat_length _ 50) Hz1)
    as (hist' & ks' & Hrun & Hlen & Hks & Hsum & Hnth).
  rewrite Hrun. eexists. split; [reflexivity|].
  unfold updateTimeSeries, updateAngularDistribution.
  cbn [particles radialDist radial]. unfold JsArray.mapi.
  rewrite mapi_from_length.
  assert (Hks50 : length ks' = 50%nat).
  { unfold counts_are in Hks.
    rewrite <- (length_map Num.of_nat), <- Hks, length_map. exact Hlen. }
  assert (Hks' : ks' = map (count_in_bin bins) (seq 0 50)).
  { apply (@list_by_index _ 0%nat ks' (count_in_bin bins) Hks50).
    intros j _. rewrite Hnth, nth_repeat_zero. reflexivity. }
  split; [reflexivity|]. split; [exact Hlen|]. split; [reflexivity|].
  split; [|split; [|split]].
  - unfold counts_are in *.
    rewrite (mapi_from_map _ _ _ _ r_count h_count) by reflexivity.
    rewrite <- Hks'. exact Hks.
  - rewrite <- Hks', Hsum, Hz2. reflexivity.
  - rewrite mapi_from_radius, Hlen. reflexivity.
  - intros ms Hms.
    destruct (radial_forEach_mass_by_bin _ _ Hps ms
                (repeat {| h_count := Fin 0; h_mass := Fin 0 |} 50)
                (repeat 0 50) Hms (repeat_length _ 50))
      as (hist2 & Ms' & Hrun2 & HMs & HMsum & HMnth).
    { rewrite !map_repeat. reflexivity. }
    rewrite Hrun in Hrun2. injection Hrun2 as <-.
    assert (HMs50 : length Ms' = 50%nat).
    { rewrite <- (length_map Fin), <- HMs, length_map. exact Hlen. }
    assert (HMs' : Ms' = map (mass_in_bin bins ms) (seq 0 50)).
    { apply (@list_by_index _ 0 Ms' (mass_in_bin bins ms) HMs50).
      intros j _. rewrite HMnth, nth_repeat_zero. lra. }
    split.
    + rewrite (mapi_from_density maxR maxR_pos hist' Ms' HMs 0), HMs'.
      apply mapi_from_seq.
    + rewrite <- HMs', HMsum, Rsum_repeat_zero. lra.
Qed.

End RadialBins.

(** ** The working ranges *)

Section WorkingRanges.

Local Open Scope R_scope.

Lemma moderate_config_valid (config : Config.t) :
  moderate_config config -> valid_config config.
Proof. intros [H _]. exact H. Qed.

Lemma moderate_steps_positive (ds : list R) :
  moderate_steps ds -> Forall positive (map Fin ds).
Proof.
  intros [H _]. induction H as [|d ds Hd _ IH]; [constructor|].
  cbn [map]. constructor; [|exact IH].
  exists d. split; [reflexivity|lra].
Qed.

Lemma moderate_config_empty : moderate_config Config.empty.
Proof.
  split; [exact valid_config_empty|]. split.
  - exists 1e51, 1e-24. cbn [Config.empty Config.energy Config.density
                               Num.or_default].
    split; [reflexivity|]. split; [reflexivity|].
    unfold moderate_quotient. lra.
  - intros es H. discriminate H.
Qed.

Lemma moderate_one_particle_config : moderate_config one_particle_config.
Proof.
  split; [exact valid_one_particle_config|]. split.
  - exists 1e51, 1e-24. cbn [one_particle_config Config.energy Config.density
                               Num.or_default].
    split; [reflexivity|]. split; [reflexivity|].
    unfold moderate_quotient. lra.
  - intros es [= <-]. constructor; [|constructor].
    unfold moderate_element, in_range.
    cbn [Element.A Element.massFrac Element.D0].
    repeat split; eexists; (split; [reflexivity|lra]).
Qed.

Lemma moderate_steps_100_50 : moderate_steps [100; 50].
Proof.
  split; [repeat constructor; lra|]. cbn [Rsum fold_right]. lra.
Qed.

Lemma moderate_steps_100 : moderate_steps [100].
Proof.
  split; [repeat constructor; lra|]. cbn [Rsum fold_right]. lra.
Qed.

Lemma moderate_steps_lower (ds : list R) :
  moderate_steps ds -> Forall (fun d => 0 < d) ds.
Proof.
  intros [H _]. apply (Forall_impl _ (P := fun d => 1e-6 <= d)); [|exact H].
  intros d Hd. lra.
Qed.

(** What holds after every step holds at the end of a run in the working
    ranges. *)
Lemma moderate_run (h : host) (P : SupernovaModel.t -> Prop) :
  uniform_host h -> bounded_normal_host h ->
  (forall c dt m,
      positive dt -> model_inv m ->
      P (fst (SupernovaModel.update h c dt m))) ->
  forall (c : calls) (config : Config.t) (d : R) (ds : list R),
    moderate_config config -> moderate_steps (d :: ds) ->
    exists m c',
      SupernovaModel.constructor h c config = Some (m, c')
      /\ P (fst (Driver.steps h c' (map Fin (d :: ds)) m)).
Proof.
  intros Hu Hb HP c config d ds Hconfig Hds.
  pose proof (moderate_steps_positive _ Hds) as Hdts. cbn [map] in Hdts.
  inversion Hdts as [|? ? Hdt Hrest]; subst.
  destruct (constructor_inv h Hu Hb c config
              (moderate_config_valid _ Hconfig)) as (m & c' & Hm & Hinv).
  exists m, c'. split; [exact Hm|].
  exact (steps_last h Hu P HP (map Fin ds) Hrest (Fin d) c' m Hdt Hinv).
Qed.

End WorkingRanges.

(** * The properties of the specification *)

Section Preliminaries.

Import SupernovaModel.
Local Open Scope R_scope.

Lemma or_default_zero (d : num) : Num.or_default (Some (Fin 0)) d = d.
Proof.
  cbn [Num.or_default]. unfold Num.or, Num.truthy.
  destruct (Req_dec_T 0 0); [reflexivity|contradiction].
Qed.

Lemma or_default_negative (x : R) (d : num) :
  x < 0 -> Num.or_default (Some (Fin x)) d = Fin x.
Proof.
  intros Hx. cbn [Num.or_default]. unfold Num.or.
  rewrite truthy_fin by lra. reflexivity.
Qed.

(** The state of a model at time 0. *)
Lemma state_at_time_zero_aux (m : t) (e d : R) :
  energy m = Fin e -> density m = Fin d -> 0 < e -> 0 < d ->
  time m = Fin 0 ->
  getState m
  = {| State.time := Fin 0; State.radius := Fin 0;
       State.velocity := NaN; State.temperature := NaN |}.
Proof.
  intros He Hd Hepos Hdpos Ht. unfold getState.
  rewrite (getShockRadius_time_zero m e d He Hd Hepos Hdpos Ht).
  rewrite (getShockVelocity_time_zero m e d He Hd Hepos Hdpos Ht).
  rewrite (getShockTemperature_time_zero m e d He Hd Hepos Hdpos Ht).
  rewrite Ht. reflexivity.
Qed.

(** Ingests of models without particles, at positive times, return. *)
Lemma ingest_bare_models (ts : list R) :
  Forall (fun t => 0 < t) ts ->
  forall this : DataManager.t,
    DataManager.radial this = 50%nat ->
    exists this',
      Driver.ingest_all (map (fun t => bare_model (Fin t)) ts) this
      = DataManager.Returns this'.
Proof.
  induction 1 as [|t ts Ht _ IH]; intros this Hbins.
  - exists this. reflexivity.
  - cbn [map Driver.ingest_all].
    destruct (update_returns (sedov_radius_pc 1e51 1e-24 t)
                (sedov_radius_pos 1e51 1e-24 t Ht)
                (bare_model (Fin t)) this) as (this1 & -> & Hb1).
    + apply (getShockRadius_positive_time _ 1e51 1e-24);
        try reflexivity; lra.
    + exact Hbins.
    + constructor.
    + apply IH. exact Hb1.
Qed.

(** The factor of the shock radius for an infinite energy. *)
Lemma infinite_factor (d : R) :
  0 < d ->
  Num.mul (Fin 1.15) (Math.pow (Num.div PInf (Fin d)) (Fin 0.2)) = PInf.
Proof.
  intros Hd. cbn [Num.div]. destruct (Rlt_dec d 0) as [H|_]; [lra|].
  unfold Math.pow.
  destruct (Req_dec_T 0.2 0) as [H|_]; [lra|].
  destruct (Rlt_dec 0 0.2) as [_|H]; [|lra].
  cbn [Num.mul]. unfold Num.mul_inf.
  destruct (Req_dec_T 1.15 0) as [H|_]; [lra|].
  destruct (Rlt_dec 0 1.15) as [_|H]; [|lra]. reflexivity.
Qed.

(** The shock radius of the default energy and density, in pc, between one
    year and a million years. *)
Lemma sedov_radius_default_range (t : R) :
  1 <= t -> t <= 1e6 -> 1e-100 <= sedov_radius_pc 1e51 1e-24 t <= 1e100.
Proof.
  intros Ht1 Ht2. unfold sedov_radius_pc.
  assert (Hq : 1e51 / 1e-24 = 1e75) by lra. rewrite Hq.
  assert (Hf : Rpower 1e75 0.2 = 1e15).
  { replace 1e75 with (Rpower 1e15 5).
    - rewrite Rpower_mult. replace (5 * 0.2) with 1 by lra.
      apply Rpower_1. lra.
    - replace 5 with (INR 5) by (cbn; lra). rewrite Rpower_pow by lra. lra. }
  rewrite Hf.
  assert (Hs : 1 <= t * 3.156e7) by lra.
  assert (Hlo : 1 <= Rpower (t * 3.156e7) 0.4).
  { rewrite <- (Rpower_O (t * 3.156e7)) by lra.
    apply Rle_Rpower; lra. }
  assert (Hhi : Rpower (t * 3.156e7) 0.4 <= t * 3.156e7).
  { rewrite <- (Rpower_1 (t * 3.156e7)) at 2 by lra.
    apply Rle_Rpower; lra. }
  split; lra.
Qed.

End Preliminaries.


(** C1 (as the specification has it, refuted).  [new SupernovaModel({energy:
    -1})] does not fail: it returns a model whose energy is -1, with 2000
    particles. *)
Lemma negative_energy_is_accepted :
  exists m c,
    SupernovaModel.constructor host_half no_calls
      (Config.mk (Some (Fin (-1))) None None) = Some (m, c)
    /\ SupernovaModel.energy m = Fin (-1)
    /\ length (SupernovaModel.particles m) = 2000%nat.
Proof.
  destruct (constructor_default_elements host_half no_calls
              (Some (Fin (-1))) None) as (m & Hm & He & _ & _ & Hl).
  exists m. eexists. split; [exact Hm|].
  rewrite or_default_negative in He by lra. auto.
Qed.

(** C1 (as the code has it).  The constructor checks nothing: a negative
    energy or density is stored as it is given, whatever the other parameter
    is, and the whole ensemble of 2000 particles of the default species is
    made. *)
Theorem constructor_stores_negative_values
    (h : host) (c : calls) (x : R) (other : option num) :
  (x < 0)%R ->
  (exists m,
      SupernovaModel.constructor h c (Config.mk (Some (Fin x)) other None)
      = Some (m, more_calls c (3 * 2000) 2000)
      /\ SupernovaModel.energy m = Fin x
      /\ length (SupernovaModel.particles m) = 2000%nat)
  /\ (exists m,
        SupernovaModel.constructor h c (Config.mk other (Some (Fin x)) None)
        = Some (m, more_calls c (3 * 2000) 2000)
        /\ SupernovaModel.density m = Fin x
        /\ length (SupernovaModel.particles m) = 2000%nat).
Proof.
  intros Hx. split.
  - destruct (constructor_default_elements h c (Some (Fin x)) other)
      as (m & Hm & He & _ & _ & Hl).
    exists m. rewrite or_default_negative in He by exact Hx. auto.
  - destruct (constructor_default_elements h c other (Some (Fin x)))
      as (m & Hm & _ & Hd & _ & Hl).
    exists m. rewrite or_default_negative in Hd by exact Hx. auto.
Qed.

Lemma constructor_stores_negative_values_witness :
  (exists m,
      SupernovaModel.constructor host_half no_calls
        (Config.mk (Some (Fin (-1))) None None)
      = Some (m, more_calls no_calls (3 * 2000) 2000)
      /\ SupernovaModel.energy m = Fin (-1)
      /\ length (SupernovaModel.particles m) = 2000%nat)
  /\ (exists m,
        SupernovaModel.constructor host_half no_calls
          (Config.mk None (Some (Fin (-1))) None)
        = Some (m, more_calls no_calls (3 * 2000) 2000)
        /\ SupernovaModel.density m = Fin (-1)
        /\ length (SupernovaModel.particles m) = 2000%nat).
Proof.
  apply (constructor_stores_negative_values host_half no_calls (-1) None).
  lra.
Defined.

(** C2 (as the specification has it, refuted).  Before the first step the
    state of a model built from the empty configuration has a velocity and a
    temperature that are [NaN], not 0. *)
Lemma velocity_before_first_step_is_NaN :
  exists m c,
    SupernovaModel.constructor host_half no_calls Config.empty = Some (m, c)
    /\ State.velocity (SupernovaModel.getState m) = NaN
    /\ State.temperature (SupernovaModel.getState m) = NaN
    /\ State.velocity (SupernovaModel.getState m) <> Fin 0.
Proof.
  destruct (constructor_default_elements host_half no_calls None None)
    as (m & Hm & He & Hd & Ht & _).
  cbn [Num.or_default] in He, Hd.
  exists m. eexists. split; [exact Hm|].
  assert (Hs := fun H1 H2 => state_at_time_zero_aux m 1e51 1e-24 He Hd H1 H2 Ht).
  rewrite Hs by lra. cbn [State.velocity State.temperature].
  repeat split. discriminate.
Qed.

(** C2 (as the code has it).  At time 0, with a positive energy and density
    whose quotient is between 1e-300 and 1e300, the state has radius 0, and
    its velocity and temperature are [NaN]: the division
    [0.4 * R_cm / t_sec] is [0 / 0] and nothing guards it. *)
Theorem state_at_time_zero (m : SupernovaModel.t) (e d : R) :
  SupernovaModel.energy m = Fin e ->
  SupernovaModel.density m = Fin d ->
  quotient_in_range e d ->
  SupernovaModel.time m = Fin 0 ->
  SupernovaModel.getState m
  = {| State.time := Fin 0; State.radius := Fin 0;
       State.velocity := NaN; State.temperature := NaN |}.
Proof.
  intros He Hd (Hepos & Hdpos & _) Ht. unfold SupernovaModel.getState.
  rewrite (getShockRadius_time_zero m e d He Hd Hepos Hdpos Ht).
  rewrite (getShockVelocity_time_zero m e d He Hd Hepos Hdpos Ht).
  rewrite (getShockTemperature_time_zero m e d He Hd Hepos Hdpos Ht).
  rewrite Ht. reflexivity.
Qed.

Lemma state_at_time_zero_witness :
  SupernovaModel.getState (bare_model (Fin 0))
  = {| State.time := Fin 0; State.radius := Fin 0;
       State.velocity := NaN; State.temperature := NaN |}.
Proof.
  apply (state_at_time_zero (bare_model (Fin 0)) 1e51 1e-24);
    try reflexivity.
  unfold quotient_in_range. lra.
Defined.

(** C3 (as the specification has it, refuted).  [update(0)] on a model just
    built from the empty configuration leaves the first particle with an
    [xi] that is [NaN]: the shock velocity is [0 / 0] and the clamp returns
    [NaN] on [NaN]. *)
Lemma zero_step_leaves_xi_NaN :
  exists m c1 p rest,
    SupernovaModel.constructor host_half no_calls Config.empty = Some (m, c1)
    /\ SupernovaModel.particles
         (fst (SupernovaModel.update host_half c1 (Fin 0) m)) = p :: rest
    /\ Particle.xi p = NaN
    /\ ~ xi_phi_in_range p.
Proof.
  destruct (constructor_default_elements host_half no_calls None None)
    as (m & Hm & He & Hd & Ht & _).
  cbn [Num.or_default] in He, Hd.
  destruct (first_particle host_half _ _ _ _ _ Hm) as (tail & Hps).
  destruct (zero_step_at_time_zero host_half
              (more_calls no_calls (3 * 2000) 2000) m 1e51 1e-24 _ _
              He Hd ltac:(lra) ltac:(lra) Ht Hps) as (p' & rest' & Hp' & Hxi).
  exists m. eexists. exists p', rest'. split; [exact Hm|].
  split; [exact Hp'|]. split; [exact Hxi|].
  intros [(r & Hr & _) _]. rewrite Hxi in Hr. discriminate.
Qed.

(** C3 (as the code has it).  On a configuration in the working ranges
    (positive energy and density with a quotient between 1e-100 and 1e200,
    species with a mass number between 1 and 1e6, a mass fraction between 0
    and 1 and a diffusion scale between 0 and 1e100), with uniform samples
    in [0, 1) and normal samples within a hundred deviations, the
    constructor returns and every particle has [xi] in [0, 1] and [phi] in
    [0, PI]; they still have after any sequence of steps of at least 1e-6
    years each that add up to at most 1e15 years. *)
Theorem xi_and_phi_stay_in_range
    (h : host) (c : calls) (config : Config.t) (ds : list R) :
  uniform_host h -> bounded_normal_host h ->
  moderate_config config -> moderate_steps ds ->
  exists m c',
    SupernovaModel.constructor h c config = Some (m, c')
    /\ Forall xi_phi_in_range (SupernovaModel.particles m)
    /\ Forall xi_phi_in_range
         (SupernovaModel.particles (fst (Driver.steps h c' (map Fin ds) m))).
Proof.
  intros Hu Hb Hconfig Hds.
  pose proof (moderate_steps_positive _ Hds) as Hdts.
  destruct (constructor_inv h Hu Hb c config (moderate_config_valid _ Hconfig))
    as (m & c' & Hm & Hinv).
  exists m, c'. split; [exact Hm|]. split.
  - apply inv_in_range. apply Hinv.
  - apply inv_in_range. apply (steps_inv h Hu (map Fin ds) Hdts c' m Hinv).
Qed.

Lemma xi_and_phi_stay_in_range_witness :
  exists m c',
    SupernovaModel.constructor host_half no_calls Config.empty = Some (m, c')
    /\ Forall xi_phi_in_range (SupernovaModel.particles m)
    /\ Forall xi_phi_in_range
         (SupernovaModel.particles
            (fst (Driver.steps host_half c' (map Fin [100; 50]%R) m))).
Proof.
  apply (xi_and_phi_stay_in_range host_half no_calls Config.empty
           [100; 50]%R).
  - exact uniform_host_half.
  - exact bounded_normal_host_half.
  - exact moderate_config_empty.
  - exact moderate_steps_100_50.
Defined.

(** C4 (the code at the failing inputs).  For a single particle on the
    negative x axis, at (-1, 0, 0), the bin index is 36: the 36 bins keep the
    count 0 and the array gets a 37th element whose count is [NaN].  The
    model puts particles there: in the run of one particle in which
    [Math.random()] always returns one half, the particle has [theta = PI]
    and the ingest after the first step of 100 years leaves that same
    histogram, the counts of the 36 bins adding up to 0 for one particle. *)
Theorem angular_histogram_misses_negative_x_axis :
  (let p := particle_at (Fin (-1)) (Fin 0) (Fin 0) in
   let this :=
     DataManager.updateAngularDistribution
       (with_particles [p] DataManager.constructor) in
   DataManager.angular_binIdx 36 p = Fin 36
   /\ map (option_map DataManager.a_count) (DataManager.angularDist this)
      = repeat (Some (Fin 0)) 36 ++ [Some NaN])
  /\ exists m c1 m' dm' c' p,
       SupernovaModel.constructor host_half no_calls one_particle_config
       = Some (m, c1)
       /\ Driver.frames host_half c1 [Fin 100] m DataManager.constructor
          = (m', DataManager.Returns dm', c')
       /\ SupernovaModel.particles m' = [p]
       /\ map (option_map DataManager.a_count) (DataManager.angularDist dm')
          = repeat (Some (Fin 0)) 36 ++ [Some NaN].
Proof.
  split.
  - cbv zeta.
    assert (H36 : DataManager.angular_binIdx 36
                    (particle_at (Fin (-1)) (Fin 0) (Fin 0)) = Fin 36).
    { apply (angular_binIdx_negative_x_axis _ (-1)); try reflexivity. lra. }
    split; [exact H36|].
    unfold DataManager.updateAngularDistribution, with_particles.
    cbn [DataManager.angularDist DataManager.particles DataManager.angular
         DataManager.constructor].
    apply angular_counts_missed. exact H36.
  - destruct due_west_run as (m' & dm' & c' & p & Hrun & Hp & Hcounts).
    exists one_particle_model, (Calls 3 1), m', dm', c', p.
    split; [exact constructor_one_particle|]. auto.
Qed.

(** C5 (as the specification has it, refuted).  An ingest of a model just
    built from the empty configuration, before any step, throws a
    [TypeError]: the shock radius is 0, the scaled radius of the first
    particle is [0 / 0] and [hist[NaN]] is [undefined]. *)
Lemma ingest_before_first_step_throws :
  exists m c1 dm,
    SupernovaModel.constructor host_half no_calls Config.empty = Some (m, c1)
    /\ DataManager.update m DataManager.constructor = DataManager.TypeError dm.
Proof.
  destruct (constructor_default_elements host_half no_calls None None)
    as (m & Hm & He & Hd & Ht & _).
  cbn [Num.or_default] in He, Hd.
  destruct (first_particle host_half _ _ _ _ _ Hm) as (tail & Hps).
  destruct (ingest_at_time_zero m DataManager.constructor 1e51 1e-24 _ _
              He Hd ltac:(lra) ltac:(lra) Ht Hps eq_refl eq_refl eq_refl)
    as (dm & Hdm).
  exists m. eexists. exists dm. split; [exact Hm|exact Hdm].
Qed.

(** C5 (as the code has it).  An ingest of a model whose shock radius is a
    number between 1e-100 and 1e100 and whose particles have coordinates
    [x] and [y] that are not [NaN] returns; its radial histogram has 50
    bins, and every particle is counted once, in the bin of its radius [r]:
    the count of bin [i] is the number of particles of bin [i], where [r]
    lies between [i * binWidth] and [(i + 1) * binWidth] with
    [binWidth = shockRadius / 50], to the relative 1e-9 that the rounding
    of the quotient may move a particle at an edge, and the last bin, 49,
    takes every particle at or beyond the shock radius.  So the counts add
    up to the number of particles. *)
Theorem radial_counts_add_up
    (model : SupernovaModel.t) (this : DataManager.t) (maxR : R) :
  SupernovaModel.getShockRadius model = Fin maxR ->
  (1e-100 <= maxR <= 1e100)%R ->
  DataManager.radial this = 50%nat ->
  Forall located (SupernovaModel.particles model) ->
  exists this' bins,
    DataManager.update model this = DataManager.Returns this'
    /\ DataManager.particles this' = SupernovaModel.particles model
    /\ length (DataManager.radialDist this') = 50%nat
    /\ Forall2 (radial_bin_of maxR) (SupernovaModel.particles model) bins
    /\ counts_are (map DataManager.r_count (DataManager.radialDist this'))
         (map (count_in_bin bins) (seq 0 50))
    /\ list_sum (map (count_in_bin bins) (seq 0 50))
       = length (SupernovaModel.particles model)
    /\ DataManager.radial this' = 50%nat.
Proof.
  intros HR Hrange Hbins Hps.
  assert (Hpos : (0 < maxR)%R) by lra.
  destruct (located_binned maxR Hpos _ Hps) as (bins & Hb).
  destruct (update_radial_bins maxR Hpos model this bins HR Hbins Hb)
    as (this' & Hup & Hp & Hl & Hr & Hk & Hs & _).
  pose proof (binned_bins maxR _ _ Hb) as Hb'.
  exists this', bins. auto 8.
Qed.

Lemma radial_counts_add_up_witness :
  let model :=
    model_with (Fin 100)
      [particle_at (Fin 1) (Fin 0) (Fin 0);
       particle_at (Fin 0) (Fin 1000) NaN] in
  let maxR := sedov_radius_pc 1e51 1e-24 100 in
  exists this' bins,
    DataManager.update model DataManager.constructor
    = DataManager.Returns this'
    /\ DataManager.particles this' = SupernovaModel.particles model
    /\ length (DataManager.radialDist this') = 50%nat
    /\ Forall2 (radial_bin_of maxR) (SupernovaModel.particles model) bins
    /\ counts_are (map DataManager.r_count (DataManager.radialDist this'))
         (map (count_in_bin bins) (seq 0 50))
    /\ list_sum (map (count_in_bin bins) (seq 0 50))
       = length (SupernovaModel.particles model)
    /\ DataManager.radial this' = 50%nat.
Proof.
  cbv zeta.
  apply (radial_counts_add_up
           (model_with (Fin 100)
              [particle_at (Fin 1) (Fin 0) (Fin 0);
               particle_at (Fin 0) (Fin 1000) NaN])
           DataManager.constructor (sedov_radius_pc 1e51 1e-24 100)).
  - apply (getShockRadius_positive_time _ 1e51 1e-24); try reflexivity; lra.
  - apply sedov_radius_default_range; lra.
  - reflexivity.
  - repeat constructor; discriminate.
Defined.

(** C6 (as the specification has it, refuted).  With the energy
    [Infinity], which is positive, and the default density the shock radius
    is [NaN] at time 0 ([Infinity * 0]) and [Infinity] at time 1: the radius
    at the later time is not greater than or equal to the radius at the
    earlier one.  The doubles do the same for every energy and density
    whose quotient overflows, as 1e308 and 1e-308. *)
Lemma shock_radius_is_NaN_then_infinite :
  let m := SupernovaModel.mk PInf (Fin 1e-24) (Fin 0) [] [] in
  SupernovaModel.getShockRadius (at_time (Fin 0) m) = NaN
  /\ SupernovaModel.getShockRadius (at_time (Fin 1) m) = PInf
  /\ Num.le (SupernovaModel.getShockRadius (at_time (Fin 0) m))
       (SupernovaModel.getShockRadius (at_time (Fin 1) m)) = false.
Proof.
  cbv zeta.
  assert (H0 : SupernovaModel.getShockRadius
                 (at_time (Fin 0)
                    (SupernovaModel.mk PInf (Fin 1e-24) (Fin 0) [] []))
               = NaN).
  { unfold SupernovaModel.getShockRadius, at_time.
    cbn [SupernovaModel.energy SupernovaModel.density SupernovaModel.time].
    rewrite infinite_factor by lra. cbn [Num.mul].
    replace (0 * 3.156e7)%R with 0%R by lra.
    rewrite pow_zero_base by lra.
    unfold Num.mul_inf.
    destruct (Req_dec_T 0 0)%R as [_|H]; [|contradiction]. reflexivity. }
  assert (H1 : SupernovaModel.getShockRadius
                 (at_time (Fin 1)
                    (SupernovaModel.mk PInf (Fin 1e-24) (Fin 0) [] []))
               = PInf).
  { unfold SupernovaModel.getShockRadius, at_time.
    cbn [SupernovaModel.energy SupernovaModel.density SupernovaModel.time].
    rewrite infinite_factor by lra. cbn [Num.mul].
    rewrite pow_fin_pos by lra.
    pose proof (Rpower_pos (1 * 3.156e7)%R 0.4%R) as Hp.
    unfold Num.mul_inf.
    destruct (Req_dec_T (Rpower (1 * 3.156e7) 0.4) 0)%R as [H|_]; [lra|].
    destruct (Rlt_dec 0 (Rpower (1 * 3.156e7) 0.4))%R as [_|H]; [|lra].
    cbn [Num.div]. destruct (Rlt_dec 3.086e18 0)%R as [H|_]; [lra|].
    reflexivity. }
  rewrite H0, H1. repeat split.
Qed.

(** C6 (as the code has it).  For a positive energy and density whose
    quotient is between 1e-300 and 1e300 the shock radius does not decrease
    with time: for times [0 <= t1 <= t2 <= 1e300] the radius at [t1] is at
    most the radius at [t2]. *)
Theorem shock_radius_monotone (m : SupernovaModel.t) (e d t1 t2 : R) :
  SupernovaModel.energy m = Fin e ->
  SupernovaModel.density m = Fin d ->
  quotient_in_range e d -> (0 <= t1 <= t2)%R -> (t2 <= 1e300)%R ->
  Num.le (SupernovaModel.getShockRadius (at_time (Fin t1) m))
    (SupernovaModel.getShockRadius (at_time (Fin t2) m)) = true.
Proof.
  intros He Hd (Hepos & Hdpos & _) [H1 H12] _.
  assert (R0 : forall t, t = 0%R ->
            SupernovaModel.getShockRadius (at_time (Fin t) m) = Fin 0).
  { intros t ->.
    apply (getShockRadius_time_zero (at_time (Fin 0) m) e d He Hd Hepos Hdpos).
    reflexivity. }
  assert (Rp : forall t, (0 < t)%R ->
            SupernovaModel.getShockRadius (at_time (Fin t) m)
            = Fin (sedov_radius_pc e d t)).
  { intros t Ht.
    apply (getShockRadius_positive_time (at_time (Fin t) m) e d He Hd Hepos
             Hdpos t); [reflexivity|exact Ht]. }
  destruct (Req_dec_T t1 0) as [Z1|N1].
  - rewrite (R0 t1 Z1). destruct (Req_dec_T t2 0) as [Z2|N2].
    + rewrite (R0 t2 Z2). apply le_fin. lra.
    + rewrite (Rp t2) by lra. apply le_fin.
      apply Rlt_le, sedov_radius_pos. lra.
  - rewrite (Rp t1), (Rp t2) by lra. apply le_fin.
    unfold sedov_radius_pc.
    assert (Hpow : (Rpower (t1 * 3.156e7) 0.4 <= Rpower (t2 * 3.156e7) 0.4)%R)
      by (apply Rle_Rpower_l; lra).
    pose proof (Rpower_pos (e / d) 0.2) as Hf.
    apply Rmult_le_compat_r; [lra|].
    apply Rmult_le_compat_l; [lra|exact Hpow].
Qed.

Lemma shock_radius_monotone_witness :
  Num.le (SupernovaModel.getShockRadius (at_time (Fin 0) (bare_model (Fin 50))))
    (SupernovaModel.getShockRadius (at_time (Fin 100) (bare_model (Fin 50))))
  = true.
Proof.
  apply (shock_radius_monotone (bare_model (Fin 50)) 1e51 1e-24 0 100);
    try reflexivity; try lra.
  unfold quotient_in_range. lra.
Defined.

(** C7 (as the specification has it, refuted).  The ingest of the model
    the constructor makes for one particle, before any step, appends no
    sample: it throws in [updateRadialDistribution], before
    [updateTimeSeries] is reached, and the time series stays empty. *)
Lemma ingest_that_throws_appends_no_sample :
  SupernovaModel.constructor host_half no_calls one_particle_config
  = Some (one_particle_model, Calls 3 1)
  /\ exists this',
       DataManager.update one_particle_model DataManager.constructor
       = DataManager.TypeError this'
       /\ DataManager.timeSeries this' = [].
Proof.
  split; [exact constructor_one_particle|].
  destruct (update_outcome one_particle_model DataManager.constructor eq_refl)
    as [Hthrows _].
  eexists. split.
  - apply Hthrows. apply Exists_cons_hd.
    rewrite (getShockRadius_time_zero one_particle_model 1e51 1e-24);
      try reflexivity; try lra.
    apply radial_binIdx_at_origin; reflexivity.
  - reflexivity.
Qed.

(** C7 (as the code has it).  Every ingest that returns appends one sample,
    the sample of the model it reads, at the back of the series, and the
    series never holds more than the cap: after the ingests the series is
    the old series followed by the new samples, in order, without the
    oldest samples in excess of the cap, which were dropped from the front.
    An ingest that throws leaves the series as it was. *)
Theorem time_series_is_bounded_fifo
    (models : list SupernovaModel.t) (this this' : DataManager.t) :
  (length (DataManager.timeSeries this) <= DataManager.maxHistory this)%nat ->
  Driver.ingest_all models this = DataManager.Returns this' ->
  let pushed := DataManager.timeSeries this ++ map sample_of_model models in
  let evicted := firstn (length pushed - DataManager.maxHistory this) pushed in
  let retained := DataManager.timeSeries this' in
  (evicted ++ retained = pushed
   /\ length evicted = (length pushed - DataManager.maxHistory this)%nat
   /\ (length retained <= DataManager.maxHistory this)%nat)
  /\ forall model this0 this1,
       DataManager.update model this0 = DataManager.TypeError this1 ->
       DataManager.timeSeries this1 = DataManager.timeSeries this0.
Proof.
  intros Hlen Hrun pushed evicted retained. split.
  - destruct (ingest_all_timeSeries models this this' Hlen Hrun) as [H1 H2].
    fold pushed in H1. fold retained in H1, H2.
    split; [|split; [|exact H2]].
    + rewrite H1. apply firstn_skipn.
    + unfold evicted. rewrite length_firstn. lia.
  - intros model this0 this1. unfold DataManager.update.
    unfold DataManager.updateRadialDistribution.
    cbn [DataManager.particles DataManager.radial].
    destruct (DataManager.radial_forEach _ _ _ _); [discriminate|].
    intros [= <-]. reflexivity.
Qed.

Lemma time_series_is_bounded_fifo_witness :
  let models :=
    [bare_model (Fin 100); bare_model (Fin 200); bare_model (Fin 300)] in
  let this := DataManager.mk [] [] [] [] 50 36 2 in
  exists this',
    Driver.ingest_all models this = DataManager.Returns this'
    /\ ([sample_of_model (bare_model (Fin 100))]
        ++ DataManager.timeSeries this'
        = map sample_of_model models
        /\ length [sample_of_model (bare_model (Fin 100))] = 1%nat
        /\ (length (DataManager.timeSeries this') <= 2)%nat)
    /\ forall model this0 this1,
         DataManager.update model this0 = DataManager.TypeError this1 ->
         DataManager.timeSeries this1 = DataManager.timeSeries this0.
Proof.
  cbv zeta.
  assert (Hts : Forall (fun t => 0 < t)%R [100; 200; 300]%R)
    by (repeat constructor; lra).
  destruct (ingest_bare_models [100; 200; 300]%R Hts
              (DataManager.mk [] [] [] [] 50 36 2) eq_refl)
    as (this' & Hrun).
  exists this'. split; [exact Hrun|].
  apply (time_series_is_bounded_fifo
           [bare_model (Fin 100); bare_model (Fin 200); bare_model (Fin 300)]
           (DataManager.mk [] [] [] [] 50 36 2) this').
  - apply Nat.le_0_l.
  - exact Hrun.
Defined.

(** C8.  With energy 1e51 and density 1e-24, after one step of 100 years
    from the constructed model the state has time 100 and a radius, a
    velocity and a temperature that are numbers greater than 0. *)
Theorem state_after_first_step (h : host) (c : calls) :
  exists m c1,
    SupernovaModel.constructor h c
      (Config.mk (Some (Fin 1e51)) (Some (Fin 1e-24)) None) = Some (m, c1)
    /\ SupernovaModel.time m = Fin 0
    /\ let s :=
         SupernovaModel.getState
           (fst (SupernovaModel.update h c1 (Fin 100) m)) in
       State.time s = Fin 100
       /\ positive (State.radius s)
       /\ positive (State.velocity s)
       /\ positive (State.temperature s).
Proof.
  destruct (constructor_default_elements h c (Some (Fin 1e51))
              (Some (Fin 1e-24))) as (m & Hm & He & Hd & Ht & _).
  exists m. eexists. split; [exact Hm|]. split; [exact Ht|].
  cbn [Num.or_default] in He, Hd. unfold Num.or in He, Hd.
  rewrite truthy_fin in He, Hd by lra.
  set (c1 := more_calls c (3 * 2000) 2000).
  destruct (update_fields h c1 (Fin 100) m) as (HE & HD & HT & _ & _).
  rewrite He in HE. rewrite Hd in HD. rewrite Ht in HT. cbn [Num.add] in HT.
  replace (0 + 100)%R with 100%R in HT by lra.
  set (m' := fst (SupernovaModel.update h c1 (Fin 100) m)) in *.
  assert (Hpos : (0 < 100)%R) by lra.
  assert (He0 : (0 < 1e51)%R) by lra.
  assert (Hd0 : (0 < 1e-24)%R) by lra.
  cbv zeta. unfold SupernovaModel.getState.
  cbn [State.time State.radius State.velocity State.temperature].
  split; [exact HT|]. split; [|split].
  - rewrite (getShockRadius_positive_time m' _ _ HE HD He0 Hd0 100 HT Hpos).
    eexists. split; [reflexivity|]. apply sedov_radius_pos. exact Hpos.
  - rewrite (getShockVelocity_positive_time m' _ _ HE HD He0 Hd0 100 HT Hpos).
    eexists. split; [reflexivity|]. apply shock_velocity_pos. exact Hpos.
  - exact (getShockTemperature_positive_time m' _ _ HE HD He0 Hd0 100 HT Hpos).
Qed.

(** C9 (as the specification has it, refuted).  Two runs of the constructor
    with the same, empty configuration on two hosts whose normal samplers
    return different values build different ensembles: no argument of the
    program seeds the samplers. *)
Lemma same_configuration_different_ensembles :
  exists m1 m2 c1 c2,
    SupernovaModel.constructor host_half no_calls Config.empty = Some (m1, c1)
    /\ SupernovaModel.constructor host_one no_calls Config.empty
       = Some (m2, c2)
    /\ SupernovaModel.particles m1 <> SupernovaModel.particles m2.
Proof.
  destruct (constructor_default_elements host_half no_calls None None)
    as (m1 & H1 & _).
  destruct (constructor_default_elements host_one no_calls None None)
    as (m2 & H2 & _).
  exists m1, m2. eexists. eexists. split; [exact H1|]. split; [exact H2|].
  destruct (first_particle host_half _ _ _ _ _ H1) as (t1 & ->).
  destruct (first_particle host_one _ _ _ _ _ H2) as (t2 & ->).
  intros H.
  apply (f_equal (fun ps => option_map Particle.xi (hd_error ps))) in H.
  cbn [hd_error option_map SupernovaModel.new_particle Particle.xi host_half
       host_one d3_randomNormal Math.abs Num.mul n_normal no_calls] in H.
  injection H as H. revert H.
  rewrite !Rabs_right by lra. lra.
Qed.

(** C9 (as the code has it).  The samples come from the host's
    [Math.random] and [d3.randomNormal], which take no seed.  A run (the
    constructor, then frames of a step followed by an ingest) reads only the
    samples below the call counts it ends with: a second run with the same
    configuration and the same [dt]s, on a host that returns the same values
    for those calls, builds the same ensemble and ends with the same model,
    the same aggregates and the same call counts. *)
Theorem run_is_determined_by_samples
    (h1 h2 : host) (c c1 : calls) (config : Config.t) (dts : list num)
    (m : SupernovaModel.t) :
  SupernovaModel.constructor h1 c config = Some (m, c1) ->
  same_samples h1 h2
    (snd (Driver.frames h1 c1 dts m DataManager.constructor)) ->
  SupernovaModel.constructor h2 c config = Some (m, c1)
  /\ Driver.frames h2 c1 dts m DataManager.constructor
     = Driver.frames h1 c1 dts m DataManager.constructor.
Proof.
  intros Hm Hs. split.
  - apply (constructor_agree h1 h2 c c1 config m Hm).
    destruct (frames_calls h1 dts c1 m DataManager.constructor) as [Hr Hn].
    destruct Hs as [H1 H2]. split; intros k Hk; [apply H1|apply H2]; lia.
  - apply frames_agree. exact Hs.
Qed.

Lemma run_is_determined_by_samples_witness :
  SupernovaModel.constructor (host_half_until 7 1) no_calls one_particle_config
  = Some (one_particle_model, Calls 3 1)
  /\ Driver.frames (host_half_until 7 1) (Calls 3 1) [Fin 100]
       one_particle_model DataManager.constructor
     = Driver.frames host_half (Calls 3 1) [Fin 100]
         one_particle_model DataManager.constructor.
Proof.
  apply (run_is_determined_by_samples host_half (host_half_until 7 1)
           no_calls (Calls 3 1) one_particle_config [Fin 100]
           one_particle_model).
  - exact constructor_one_particle.
  - destruct (frames_calls_upper host_half [Fin 100] (Calls 3 1)
                one_particle_model DataManager.constructor) as [Hr Hn].
    cbn [length SupernovaModel.particles one_particle_model n_random
         n_normal] in Hr, Hn.
    split; intros k Hk; cbn [host_half_until host_half Math_random
                             d3_randomNormal].
    + destruct (Nat.ltb_spec k 7); [reflexivity|lia].
    + destruct (Nat.ltb_spec k 1); [reflexivity|lia].
Defined.

(** C10.  An energy or a density of 0 in the configuration is read as a
    missing one: the constructor behaves as if the field were absent, so with
    both at 0 and no species given it returns a model with the defaults 1e51
    and 1e-24 and the whole ensemble of 2000 particles. *)
Theorem zero_energy_or_density_reads_as_missing
    (h : host) (c : calls) (config : Config.t) :
  SupernovaModel.constructor h c
    (Config.mk (Some (Fin 0)) (Config.density config) (Config.elements config))
  = SupernovaModel.constructor h c
      (Config.mk None (Config.density config) (Config.elements config))
  /\ SupernovaModel.constructor h c
       (Config.mk (Config.energy config) (Some (Fin 0))
          (Config.elements config))
     = SupernovaModel.constructor h c
         (Config.mk (Config.energy config) None (Config.elements config))
  /\ exists m,
       SupernovaModel.constructor h c
         (Config.mk (Some (Fin 0)) (Some (Fin 0)) None)
       = Some (m, more_calls c (3 * 2000) 2000)
       /\ SupernovaModel.energy m = Fin 1e51
       /\ SupernovaModel.density m = Fin 1e-24
       /\ length (SupernovaModel.particles m) = 2000%nat.
Proof.
  split; [|split].
  - unfold SupernovaModel.constructor.
    cbn [Config.energy Config.density Config.elements].
    rewrite or_default_zero. reflexivity.
  - unfold SupernovaModel.constructor.
    cbn [Config.energy Config.density Config.elements].
    rewrite or_default_zero. reflexivity.
  - destruct (constructor_default_elements h c (Some (Fin 0)) (Some (Fin 0)))
      as (m & Hm & He & Hd & _ & Hl).
    exists m. rewrite or_default_zero in He, Hd. auto.
Qed.

(** X1.  In a run on a configuration in the working ranges (the
    constructor, then one or more frames with steps of at least 1e-6 years
    that add up to at most 1e15 years) every ingest returns, and the last
    one leaves a radial histogram of 50 bins whose counts are natural
    numbers adding up to the number of particles, which is the number the
    constructor made. *)
Theorem every_ingest_of_a_run_counts_the_particles
    (h : host) (c : calls) (config : Config.t) (d : R) (ds : list R) :
  uniform_host h -> bounded_normal_host h ->
  moderate_config config -> moderate_steps (d :: ds) ->
  exists m c1 m' dm' c',
    SupernovaModel.constructor h c config = Some (m, c1)
    /\ Driver.frames h c1 (map Fin (d :: ds)) m DataManager.constructor
       = (m', DataManager.Returns dm', c')
    /\ length (SupernovaModel.particles m')
       = length (SupernovaModel.particles m)
    /\ DataManager.particles dm' = SupernovaModel.particles m'
    /\ length (DataManager.radialDist dm') = 50%nat
    /\ exists ks,
         counts_are (map DataManager.r_count (DataManager.radialDist dm')) ks
         /\ list_sum ks = length (SupernovaModel.particles m').
Proof.
  intros Hu Hb Hconfig Hds.
  pose proof (moderate_steps_positive _ Hds) as Hdts.
  destruct (constructor_inv h Hu Hb c config (moderate_config_valid _ Hconfig))
    as (m & c1 & Hm & Hinv).
  destruct (frames_return h Hu (map Fin (d :: ds)) Hdts c1 m
              DataManager.constructor Hinv eq_refl)
    as (m' & dm' & c' & Hrun & _ & Hlen & Hp & Hl & Hk).
  - discriminate.
  - exists m, c1, m', dm', c'. auto 6.
Qed.

Lemma every_ingest_of_a_run_counts_the_particles_witness :
  exists m c1 m' dm' c',
    SupernovaModel.constructor host_half no_calls Config.empty = Some (m, c1)
    /\ Driver.frames host_half c1 (map Fin [100; 50]%R) m
         DataManager.constructor
       = (m', DataManager.Returns dm', c')
    /\ length (SupernovaModel.particles m')
       = length (SupernovaModel.particles m)
    /\ DataManager.particles dm' = SupernovaModel.particles m'
    /\ length (DataManager.radialDist dm') = 50%nat
    /\ exists ks,
         counts_are (map DataManager.r_count (DataManager.radialDist dm')) ks
         /\ list_sum ks = length (SupernovaModel.particles m').
Proof.
  apply (every_ingest_of_a_run_counts_the_particles host_half no_calls
           Config.empty 100 [50]%R).
  - exact uniform_host_half.
  - exact bounded_normal_host_half.
  - exact moderate_config_empty.
  - exact moderate_steps_100_50.
Defined.

(** X2.  The constructor numbers the particles 0, 1, 2, ... in the order of
    the ensemble, so no two particles share an id; steps keep the id and the
    species of every particle. *)
Theorem particle_ids_are_unique_and_stable
    (h : host) (c c1 : calls) (config : Config.t) (m : SupernovaModel.t)
    (dts : list num) :
  SupernovaModel.constructor h c config = Some (m, c1) ->
  map Particle.id (SupernovaModel.particles m)
  = seq 0 (length (SupernovaModel.particles m))
  /\ NoDup (map Particle.id (SupernovaModel.particles m))
  /\ map Particle.id
       (SupernovaModel.particles (fst (Driver.steps h c1 dts m)))
     = map Particle.id (SupernovaModel.particles m)
  /\ map Particle.element
       (SupernovaModel.particles (fst (Driver.steps h c1 dts m)))
     = map Particle.element (SupernovaModel.particles m).
Proof.
  intros Hm. pose proof (constructor_ids h c c1 config m Hm) as Hids.
  split; [exact Hids|]. split; [rewrite Hids; apply seq_NoDup|].
  exact (steps_keep_ids h dts c1 m).
Qed.

Lemma particle_ids_are_unique_and_stable_witness :
  map Particle.id (SupernovaModel.particles one_particle_model)
  = seq 0 (length (SupernovaModel.particles one_particle_model))
  /\ NoDup (map Particle.id (SupernovaModel.particles one_particle_model))
  /\ map Particle.id
       (SupernovaModel.particles
          (fst (Driver.steps host_half (Calls 3 1) [Fin 100]
                  one_particle_model)))
     = map Particle.id (SupernovaModel.particles one_particle_model)
  /\ map Particle.element
       (SupernovaModel.particles
          (fst (Driver.steps host_half (Calls 3 1) [Fin 100]
                  one_particle_model)))
     = map Particle.element (SupernovaModel.particles one_particle_model).
Proof.
  apply (particle_ids_are_unique_and_stable host_half no_calls (Calls 3 1)
           one_particle_config one_particle_model [Fin 100]).
  exact constructor_one_particle.
Defined.

(** X3.  With two species of mass fraction 0.5 (mass numbers 56 and 12) the
    constructor makes exactly 2000 particles, 1000 of the first species
    followed by 1000 of the second, each with the name of its species, with
    the ids 0 to 1999. *)
Theorem two_species_of_one_half
    (h : host) (c : calls) (name1 name2 color1 color2 : string)
    (D1 D2 : num) :
  exists m,
    SupernovaModel.constructor h c
      (Config.mk None None
         (Some [Element.mk name1 (Fin 56) color1 (Fin 0.5) D1;
                Element.mk name2 (Fin 12) color2 (Fin 0.5) D2]))
    = Some (m, more_calls c (3 * 2000) 2000)
    /\ length (SupernovaModel.particles m) = 2000%nat
    /\ map Particle.element (SupernovaModel.particles m)
       = repeat name1 1000 ++ repeat name2 1000
    /\ map Particle.id (SupernovaModel.particles m) = seq 0 2000.
Proof.
  destruct (two_halves h c
              (Element.mk name1 (Fin 56) color1 (Fin 0.5) D1)
              (Element.mk name2 (Fin 12) color2 (Fin 0.5) D2)
              eq_refl eq_refl) as (m & Hm & Hsp & Hids).
  exists m. split; [exact Hm|]. split; [|split; [exact Hsp|exact Hids]].
  rewrite <- (length_map Particle.id), Hids. apply length_seq.
Qed.

(** X4.  Ingests that return push one sample each, the sample of the model
    they read, and keep the series within the cap: after them the series is
    the old series followed by the new samples without the oldest samples in
    excess of the cap. *)
Theorem ingests_push_their_samples
    (models : list SupernovaModel.t) (this this' : DataManager.t) :
  (length (DataManager.timeSeries this) <= DataManager.maxHistory this)%nat ->
  Driver.ingest_all models this = DataManager.Returns this' ->
  let pushed := DataManager.timeSeries this ++ map sample_of_model models in
  DataManager.timeSeries this'
  = skipn (length pushed - DataManager.maxHistory this) pushed
  /\ (length (DataManager.timeSeries this') <= DataManager.maxHistory this)%nat.
Proof.
  intros Hlen Hrun. exact (ingest_all_timeSeries models this this' Hlen Hrun).
Qed.

Lemma ingests_push_their_samples_witness :
  let models :=
    [bare_model (Fin 100); bare_model (Fin 200); bare_model (Fin 300)] in
  let this := DataManager.mk [] [] [] [] 50 36 2 in
  exists this',
    Driver.ingest_all models this = DataManager.Returns this'
    /\ DataManager.timeSeries this'
       = skipn (length (map sample_of_model models) - 2)
           (map sample_of_model models)
    /\ (length (DataManager.timeSeries this') <= 2)%nat.
Proof.
  cbv zeta.
  assert (Hts : Forall (fun t => 0 < t)%R [100; 200; 300]%R)
    by (repeat constructor; lra).
  destruct (ingest_bare_models [100; 200; 300]%R Hts
              (DataManager.mk [] [] [] [] 50 36 2) eq_refl)
    as (this' & Hrun).
  exists this'. split; [exact Hrun|].
  apply (ingests_push_their_samples
           [bare_model (Fin 100); bare_model (Fin 200); bare_model (Fin 300)]
           (DataManager.mk [] [] [] [] 50 36 2) this').
  - apply Nat.le_0_l.
  - exact Hrun.
Defined.

(** * Further properties of the code *)

(** X5.  On [0, 1] the velocity factor [velocityProfile(xi)] is a number
    between 0 and 1, 1 at the centre and 0 at the shock.  The two branches
    do not meet at the break: the factor is at least 0.55 for [xi < 0.8] and
    at most 0.5 for [xi >= 0.8]. *)
Theorem velocity_profile_jumps_at_the_break (x : R) :
  (0 <= x <= 1)%R ->
  exists vf,
    SupernovaModel.velocityProfile (Fin x) = Fin vf
    /\ (0 <= vf <= 1)%R
    /\ ((x < 0.8)%R -> (0.55 <= vf)%R)
    /\ ((0.8 <= x)%R -> (vf <= 0.5)%R)
    /\ (x = 0%R -> vf = 1%R)
    /\ (x = 1%R -> vf = 0%R).
Proof. exact (velocityProfile_range x). Qed.

Lemma velocity_profile_jumps_at_the_break_witness :
  exists vf,
    SupernovaModel.velocityProfile (Fin 0.8) = Fin vf
    /\ (0 <= vf <= 1)%R
    /\ ((0.8 < 0.8)%R -> (0.55 <= vf)%R)
    /\ ((0.8 <= 0.8)%R -> (vf <= 0.5)%R)
    /\ (0.8%R = 0%R -> vf = 1%R)
    /\ (0.8%R = 1%R -> vf = 0%R).
Proof. apply (velocity_profile_jumps_at_the_break 0.8). lra. Defined.

(** X6.  On [0, 1] the density factor [densityProfile(xi)] is a number
    between 0 and 1: below the shock it is
    [(1 - xi)^1.5 / (1 - xi / 4)], which is positive, and at [xi = 1] it
    is 0. *)
Theorem density_profile_range (x : R) :
  (0 <= x <= 1)%R ->
  exists r,
    SupernovaModel.densityProfile (Fin x) = Fin r
    /\ (0 <= r <= 1)%R
    /\ ((x < 1)%R -> r = (Rpower (1 - x) 1.5 / (1 - x / 4))%R /\ (0 < r)%R)
    /\ (x = 1%R -> r = 0%R).
Proof.
  intros Hx. destruct (densityProfile_range x Hx) as (r & Hr & Hrange & Hlt).
  exists r. split; [exact Hr|]. split; [exact Hrange|]. split; [exact Hlt|].
  intros ->. rewrite densityProfile_one in Hr. injection Hr as <-.
  reflexivity.
Qed.

Lemma density_profile_range_witness :
  exists r,
    SupernovaModel.densityProfile (Fin 0.5) = Fin r
    /\ (0 <= r <= 1)%R
    /\ ((0.5 < 1)%R
        -> r = (Rpower (1 - 0.5) 1.5 / (1 - 0.5 / 4))%R /\ (0 < r)%R)
    /\ (0.5%R = 1%R -> r = 0%R).
Proof. apply (density_profile_range 0.5). lra. Defined.

(** X7.  In a run on a configuration in the working ranges (the
    constructor, then one or more steps of at least 1e-6 years that add up
    to at most 1e15 years) every particle lies inside the shock sphere: its
    distance from the origin, as the aggregator computes it from [x], [y]
    and [z], is [xi] times the shock radius, with [xi] in [0, 1]. *)
Theorem particles_lie_inside_the_shock
    (h : host) (c : calls) (config : Config.t) (d : R) (ds : list R) :
  uniform_host h -> bounded_normal_host h ->
  moderate_config config -> moderate_steps (d :: ds) ->
  exists m c' Rs,
    SupernovaModel.constructor h c config = Some (m, c')
    /\ SupernovaModel.getShockRadius
         (fst (Driver.steps h c' (map Fin (d :: ds)) m)) = Fin Rs
    /\ (0 < Rs)%R
    /\ Forall (placed_at Rs)
         (SupernovaModel.particles
            (fst (Driver.steps h c' (map Fin (d :: ds)) m))).
Proof.
  intros Hu Hb Hconfig Hds.
  destruct (moderate_run h
              (fun m' =>
                 exists Rs,
                   SupernovaModel.getShockRadius m' = Fin Rs /\ (0 < Rs)%R
                   /\ Forall (placed_at Rs) (SupernovaModel.particles m'))
              Hu Hb (update_placed h Hu) c config d ds Hconfig Hds)
    as (m & c' & Hm & Rs & HR & HRpos & Hall).
  exists m, c', Rs. auto.
Qed.

Lemma particles_lie_inside_the_shock_witness :
  exists m c' Rs,
    SupernovaModel.constructor host_half no_calls Config.empty = Some (m, c')
    /\ SupernovaModel.getShockRadius
         (fst (Driver.steps host_half c' (map Fin [100; 50]%R) m)) = Fin Rs
    /\ (0 < Rs)%R
    /\ Forall (placed_at Rs)
         (SupernovaModel.particles
            (fst (Driver.steps host_half c' (map Fin [100; 50]%R) m))).
Proof.
  apply (particles_lie_inside_the_shock host_half no_calls Config.empty
           100 [50]%R).
  - exact uniform_host_half.
  - exact bounded_normal_host_half.
  - exact moderate_config_empty.
  - exact moderate_steps_100_50.
Defined.

(** X8.  In such a run no particle is hotter than the gas behind the
    shock, denser than the ambient medium or faster than the shock: its
    temperature lies in [0, T_shock], its density in [0, density] and the
    magnitude of its velocity is at most the shock velocity (in cm/s). *)
Theorem particles_are_bounded_by_the_shock_state
    (h : host) (c : calls) (config : Config.t) (d : R) (ds : list R) :
  uniform_host h -> bounded_normal_host h ->
  moderate_config config -> moderate_steps (d :: ds) ->
  exists m c' v Ts rho,
    SupernovaModel.constructor h c config = Some (m, c')
    /\ SupernovaModel.getShockVelocity
         (fst (Driver.steps h c' (map Fin (d :: ds)) m)) = Fin v
    /\ SupernovaModel.getShockTemperature
         (fst (Driver.steps h c' (map Fin (d :: ds)) m)) = Fin Ts
    /\ SupernovaModel.density (fst (Driver.steps h c' (map Fin (d :: ds)) m))
       = Fin rho
    /\ Forall
         (fun p =>
            in_range 0 Ts (Particle.temperature p)
            /\ in_range 0 rho (Particle.density p)
            /\ speed_at_most (v * 1e5) p)
         (SupernovaModel.particles
            (fst (Driver.steps h c' (map Fin (d :: ds)) m))).
Proof.
  intros Hu Hb Hconfig Hds.
  destruct (moderate_run h
              (fun m' =>
                 exists v Ts rho,
                   SupernovaModel.getShockVelocity m' = Fin v /\ (0 < v)%R
                   /\ SupernovaModel.getShockTemperature m' = Fin Ts
                   /\ (0 < Ts)%R
                   /\ SupernovaModel.density m' = Fin rho /\ (0 < rho)%R
                   /\ Forall
                        (fun p =>
                           in_range 0 Ts (Particle.temperature p)
                           /\ in_range 0 rho (Particle.density p)
                           /\ speed_at_most (v * 1e5) p)
                        (SupernovaModel.particles m'))
              Hu Hb (update_bounded h Hu) c config d ds Hconfig Hds)
    as (m & c' & Hm & v & Ts & rho & HV & _ & HT & _ & HD & _ & Hall).
  exists m, c', v, Ts, rho. auto 6.
Qed.

Lemma particles_are_bounded_by_the_shock_state_witness :
  exists m c' v Ts rho,
    SupernovaModel.constructor host_half no_calls Config.empty = Some (m, c')
    /\ SupernovaModel.getShockVelocity
         (fst (Driver.steps host_half c' (map Fin [100; 50]%R) m)) = Fin v
    /\ SupernovaModel.getShockTemperature
         (fst (Driver.steps host_half c' (map Fin [100; 50]%R) m)) = Fin Ts
    /\ SupernovaModel.density
         (fst (Driver.steps host_half c' (map Fin [100; 50]%R) m)) = Fin rho
    /\ Forall
         (fun p =>
            in_range 0 Ts (Particle.temperature p)
            /\ in_range 0 rho (Particle.density p)
            /\ speed_at_most (v * 1e5) p)
         (SupernovaModel.particles
            (fst (Driver.steps host_half c' (map Fin [100; 50]%R) m))).
Proof.
  apply (particles_are_bounded_by_the_shock_state host_half no_calls
           Config.empty 100 [50]%R).
  - exact uniform_host_half.
  - exact bounded_normal_host_half.
  - exact moderate_config_empty.
  - exact moderate_steps_100_50.
Defined.

(** X9.  In such a run a step with a positive [dt] turns the azimuth
    [theta] and the polar angle [phi] of every particle by at most 0.075
    rad each. *)
Theorem a_step_turns_the_angles_a_little
    (h : host) (c : calls) (config : Config.t) (dts : list num) (dt : num) :
  uniform_host h -> bounded_normal_host h ->
  valid_config config -> Forall positive dts -> positive dt ->
  exists m c',
    SupernovaModel.constructor h c config = Some (m, c')
    /\ Forall2 turned
         (SupernovaModel.particles (fst (Driver.steps h c' dts m)))
         (SupernovaModel.particles
            (fst (SupernovaModel.update h (snd (Driver.steps h c' dts m)) dt
                    (fst (Driver.steps h c' dts m))))).
Proof.
  intros Hu Hb Hconfig Hdts Hdt.
  destruct (constructor_inv h Hu Hb c config Hconfig) as (m & c' & Hm & Hinv).
  exists m, c'. split; [exact Hm|].
  apply (update_turns h Hu); [exact Hdt|].
  exact (steps_inv h Hu dts Hdts c' m Hinv).
Qed.

Lemma a_step_turns_the_angles_a_little_witness :
  exists m c',
    SupernovaModel.constructor host_half no_calls Config.empty = Some (m, c')
    /\ Forall2 turned
         (SupernovaModel.particles
            (fst (Driver.steps host_half c' [Fin 100] m)))
         (SupernovaModel.particles
            (fst (SupernovaModel.update host_half
                    (snd (Driver.steps host_half c' [Fin 100] m)) (Fin 50)
                    (fst (Driver.steps host_half c' [Fin 100] m))))).
Proof.
  apply (a_step_turns_the_angles_a_little host_half no_calls Config.empty
           [Fin 100] (Fin 50)).
  - exact uniform_host_half.
  - exact bounded_normal_host_half.
  - exact valid_config_empty.
  - repeat constructor; eexists; (split; [reflexivity|lra]).
  - exists 50%R. split; [reflexivity|lra].
Defined.

(** X10.  For a positive energy and density whose quotient is between
    1e-100 and 1e200 the shock slows down and cools down: at times
    [1e-6 <= t1 < t2 <= 1e15] that are apart by more than the rounding of
    a double ([t2 >= t1 * (1 + 1e-9)]) the shock velocity and the
    post-shock temperature are positive numbers, smaller at [t2] than at
    [t1]. *)
Theorem shock_slows_and_cools (m : SupernovaModel.t) (e d t1 t2 : R) :
  SupernovaModel.energy m = Fin e ->
  SupernovaModel.density m = Fin d ->
  moderate_quotient e d ->
  (1e-6 <= t1)%R -> (t1 * (1 + 1e-9) <= t2)%R -> (t2 <= 1e15)%R ->
  exists v1 v2 T1 T2,
    SupernovaModel.getShockVelocity (at_time (Fin t1) m) = Fin v1
    /\ SupernovaModel.getShockVelocity (at_time (Fin t2) m) = Fin v2
    /\ (0 < v2 < v1)%R
    /\ SupernovaModel.getShockTemperature (at_time (Fin t1) m) = Fin T1
    /\ SupernovaModel.getShockTemperature (at_time (Fin t2) m) = Fin T2
    /\ (0 < T2 < T1)%R.
Proof.
  intros He Hd (Hepos & Hdpos & _) H1 H12 _.
  apply (shock_slows_down m e d t1 t2 He Hd Hepos Hdpos). nra.
Qed.

Lemma shock_slows_and_cools_witness :
  exists v1 v2 T1 T2,
    SupernovaModel.getShockVelocity (at_time (Fin 100) (bare_model (Fin 0)))
    = Fin v1
    /\ SupernovaModel.getShockVelocity (at_time (Fin 200) (bare_model (Fin 0)))
       = Fin v2
    /\ (0 < v2 < v1)%R
    /\ SupernovaModel.getShockTemperature
         (at_time (Fin 100) (bare_model (Fin 0))) = Fin T1
    /\ SupernovaModel.getShockTemperature
         (at_time (Fin 200) (bare_model (Fin 0))) = Fin T2
    /\ (0 < T2 < T1)%R.
Proof.
  apply (shock_slows_and_cools (bare_model (Fin 0)) 1e51 1e-24 100 200);
    try reflexivity; try lra.
  unfold moderate_quotient. lra.
Defined.

(** X11.  At the same time, no later than 1e300 years, a model with at
    least the energy and at most the density of another one (all positive,
    with quotients between 1e-300 and 1e300) has a shock radius that is at
    least the other's. *)
Theorem shock_radius_grows_with_energy_over_density
    (m1 m2 : SupernovaModel.t) (e1 d1 e2 d2 tm : R) :
  SupernovaModel.energy m1 = Fin e1 -> SupernovaModel.density m1 = Fin d1 ->
  SupernovaModel.energy m2 = Fin e2 -> SupernovaModel.density m2 = Fin d2 ->
  quotient_in_range e1 d1 -> quotient_in_range e2 d2 ->
  (e1 <= e2)%R -> (d2 <= d1)%R ->
  SupernovaModel.time m1 = Fin tm -> SupernovaModel.time m2 = Fin tm ->
  (0 <= tm <= 1e300)%R ->
  Num.le (SupernovaModel.getShockRadius m1)
    (SupernovaModel.getShockRadius m2) = true.
Proof.
  intros He1 Hd1 He2 Hd2 (He1pos & Hd1pos & _) (He2pos & Hd2pos & _)
    He12 Hd21 Ht1 Ht2 [Htm _].
  exact (shock_radius_grows_with_energy m1 m2 e1 d1 e2 d2 tm He1 Hd1 He2 Hd2
           (conj He1pos He12) (conj Hd2pos Hd21) Ht1 Ht2 Htm).
Qed.

Lemma shock_radius_grows_with_energy_over_density_witness :
  Num.le
    (SupernovaModel.getShockRadius
       (SupernovaModel.mk (Fin 1e51) (Fin 1e-24) (Fin 100) [] []))
    (SupernovaModel.getShockRadius
       (SupernovaModel.mk (Fin 2e51) (Fin 1e-25) (Fin 100) [] []))
  = true.
Proof.
  apply (shock_radius_grows_with_energy_over_density
           (SupernovaModel.mk (Fin 1e51) (Fin 1e-24) (Fin 100) [] [])
           (SupernovaModel.mk (Fin 2e51) (Fin 1e-25) (Fin 100) [] [])
           1e51 1e-24 2e51 1e-25 100);
    try reflexivity; try (unfold quotient_in_range); lra.
Defined.

(** X12.  The state [getState] returns after a run of steps is the state of
    the model at the time advanced by the sum of the steps: over the reals
    it depends on the elapsed time only, not on the samples drawn, on the
    particles or on how the time is split into steps. *)
Theorem state_depends_on_elapsed_time
    (h : host) (c : calls) (m : SupernovaModel.t) (tm : R) (ds : list R) :
  SupernovaModel.time m = Fin tm ->
  SupernovaModel.getState (fst (Driver.steps h c (map Fin ds) m))
  = SupernovaModel.getState (at_time (Fin (tm + Rsum ds)) m).
Proof. intros Ht. exact (steps_state h ds c m tm Ht). Qed.

Lemma state_depends_on_elapsed_time_witness :
  SupernovaModel.getState
    (fst (Driver.steps host_half (Calls 3 1) (map Fin [100; 50]%R)
            one_particle_model))
  = SupernovaModel.getState
      (at_time (Fin (0 + Rsum [100; 50]%R)) one_particle_model).
Proof.
  apply (state_depends_on_elapsed_time host_half (Calls 3 1)
           one_particle_model 0 [100; 50]%R).
  reflexivity.
Defined.

(** X13.  For species whose mass fractions are numbers between 0 and 1 the
    constructor returns with about 2000 particles per unit of mass
    fraction, each species losing less than one particle to [Math.floor]:
    to the relative 1e-9 that the rounding of the product
    [2000 * massFrac] may move it across an integer, the ensemble has at
    most [2000 * sum of the fractions] particles, and no more than one
    particle per species short of that.  The fractions are not normalised. *)
Theorem ensemble_size
    (h : host) (c : calls) (oe od : option num)
    (es : list Element.t) (fs : list R) :
  Forall2 (fun elem f => Element.massFrac elem = Fin f /\ (0 <= f <= 1)%R)
    es fs ->
  exists m c',
    SupernovaModel.constructor h c (Config.mk oe od (Some es)) = Some (m, c')
    /\ (2000 * Rsum fs * (1 - 1e-9) - INR (length es)
        <= INR (length (SupernovaModel.particles m))
        <= 2000 * Rsum fs * (1 + 1e-9))%R.
Proof.
  intros Hfs.
  assert (Hfs0 : Forall2
                   (fun elem f => Element.massFrac elem = Fin f /\ (0 <= f)%R)
                   es fs).
  { induction Hfs as [|elem f es fs [Hf Hr] _ IH]; constructor; auto.
    split; [exact Hf|lra]. }
  assert (Hsum : (0 <= Rsum fs)%R).
  { clear Hfs0. induction Hfs as [|elem f es fs [_ Hr] _ IH].
    - cbn [Rsum fold_right]. lra.
    - change (Rsum (f :: fs)) with (f + Rsum fs)%R. lra. }
  destruct (constructor_size h c oe od es fs Hfs0)
    as (m & c' & Hm & _ & Hb & _).
  exists m, c'. split; [exact Hm|]. lra.
Qed.

Lemma ensemble_size_witness :
  exists m c',
    SupernovaModel.constructor host_half no_calls
      (Config.mk None None (Some SupernovaModel.default_elements))
    = Some (m, c')
    /\ (2000 * Rsum [0.15; 0.25; 0.35; 0.25] * (1 - 1e-9)
        - INR (length SupernovaModel.default_elements)
        <= INR (length (SupernovaModel.particles m))
        <= 2000 * Rsum [0.15; 0.25; 0.35; 0.25] * (1 + 1e-9))%R.
Proof.
  apply (ensemble_size host_half no_calls None None
           SupernovaModel.default_elements [0.15; 0.25; 0.35; 0.25]%R).
  unfold SupernovaModel.default_elements.
  repeat constructor; cbn [Element.massFrac]; lra.
Defined.

(** X14.  A species whose mass fraction is [Infinity] makes the particle
    loop of the constructor endless: the constructor does not return. *)
Theorem infinite_mass_fraction_never_returns
    (h : host) (c : calls) (oe od : option num)
    (es : list Element.t) (elem : Element.t) :
  In elem es -> Element.massFrac elem = PInf ->
  SupernovaModel.constructor h c (Config.mk oe od (Some es)) = None.
Proof. exact (constructor_infinite h c oe od es elem). Qed.

Lemma infinite_mass_fraction_never_returns_witness :
  SupernovaModel.constructor host_half no_calls
    (Config.mk None None
       (Some [Element.mk "Fe" (Fin 56) "#e74c3c" PInf (Fin 1e18)]))
  = None.
Proof.
  apply (infinite_mass_fraction_never_returns host_half no_calls None None
           [Element.mk "Fe" (Fin 56) "#e74c3c" PInf (Fin 1e18)]
           (Element.mk "Fe" (Fin 56) "#e74c3c" PInf (Fin 1e18))).
  - left. reflexivity.
  - reflexivity.
Defined.

(** X15.  A species whose mass fraction is [NaN] or [-Infinity] gets no
    particle and raises no error: the constructor makes the particles, from
    the same samples, that it makes for the list without that species. *)
Theorem species_without_a_fraction_is_skipped
    (h : host) (c : calls) (oe od : option num)
    (es1 es2 : list Element.t) (elem : Element.t) :
  Element.massFrac elem = NaN \/ Element.massFrac elem = NInf ->
  option_map (fun r => (SupernovaModel.particles (fst r), snd r))
    (SupernovaModel.constructor h c
       (Config.mk oe od (Some (es1 ++ elem :: es2))))
  = option_map (fun r => (SupernovaModel.particles (fst r), snd r))
      (SupernovaModel.constructor h c (Config.mk oe od (Some (es1 ++ es2)))).
Proof. exact (constructor_skips h c oe od es1 es2 elem). Qed.

Lemma species_without_a_fraction_is_skipped_witness :
  option_map (fun r => (SupernovaModel.particles (fst r), snd r))
    (SupernovaModel.constructor host_half no_calls
       (Config.mk None None
          (Some ([] ++ Element.mk "Fe" (Fin 56) "#e74c3c" NaN (Fin 1e18)
                 :: SupernovaModel.default_elements))))
  = option_map (fun r => (SupernovaModel.particles (fst r), snd r))
      (SupernovaModel.constructor host_half no_calls
         (Config.mk None None (Some ([] ++ SupernovaModel.default_elements)))).
Proof.
  apply (species_without_a_fraction_is_skipped host_half no_calls None None
           [] SupernovaModel.default_elements
           (Element.mk "Fe" (Fin 56) "#e74c3c" NaN (Fin 1e18))).
  left. reflexivity.
Defined.

(** X16.  On a valid configuration, with uniform samples in [0, 1), every
    particle of the first ensemble has the name, the mass number and the
    colour of one of the species, the diffusion coefficient
    [D0 / sqrt(A)], a mass between 0.5 and 1.5 times [A * 1.66e-24] (so
    positive), an azimuth in [0, 2 PI], and is at rest at the origin with
    temperature and density 0, whatever its [xi]. *)
Theorem first_ensemble_is_at_rest_at_the_origin
    (h : host) (c : calls) (config : Config.t) :
  uniform_host h -> bounded_normal_host h -> valid_config config ->
  exists m c',
    SupernovaModel.constructor h c config = Some (m, c')
    /\ Forall (fresh (SupernovaModel.elements m))
         (SupernovaModel.particles m).
Proof.
  intros Hu Hb Hconfig.
  destruct (constructor_inv h Hu Hb c config Hconfig) as (m & c' & Hm & _).
  exists m, c'. split; [exact Hm|].
  exact (constructor_fresh h Hu c c' config m Hconfig Hm).
Qed.

Lemma first_ensemble_is_at_rest_at_the_origin_witness :
  exists m c',
    SupernovaModel.constructor host_half no_calls Config.empty = Some (m, c')
    /\ Forall (fresh (SupernovaModel.elements m))
         (SupernovaModel.particles m).
Proof.
  apply (first_ensemble_is_at_rest_at_the_origin host_half no_calls
           Config.empty).
  - exact uniform_host_half.
  - exact bounded_normal_host_half.
  - exact valid_config_empty.
Defined.

(** X17.  An ingest of a model whose shock radius is a positive number and
    whose particles have numbers for [x] and [y] that keep them clear of
    the negative x axis ([x > 0], or [y < 0], or [y > 0] with
    [y >= 1e-9 * |x|]) returns; its angular histogram has 36 bins without
    a hole, at the angles [(i + 0.5) * 2 PI / 36], whose counts are natural
    numbers adding up to the number of particles. *)
Theorem angular_counts_add_up_off_the_negative_x_axis
    (model : SupernovaModel.t) (this : DataManager.t) (maxR : R) :
  SupernovaModel.getShockRadius model = Fin maxR -> (0 < maxR)%R ->
  DataManager.radial this = 50%nat -> DataManager.angular this = 36%nat ->
  Forall clear_of_negative_x_axis (SupernovaModel.particles model) ->
  exists this' ks,
    DataManager.update model this = DataManager.Returns this'
    /\ length ks = 36%nat
    /\ angular_counts_are (DataManager.angularDist this') ks
    /\ list_sum ks = length (SupernovaModel.particles model)
    /\ map (option_map DataManager.a_angle) (DataManager.angularDist this')
       = map (fun i => Some (Fin ((INR i + 0.5) * 2 * PI / 36))) (seq 0 36).
Proof.
  intros HR Hpos Hrad Hang Hps.
  apply (update_angular_counts maxR model this Hpos HR Hrad Hang).
  apply (Forall_impl _ (P := clear_of_negative_x_axis)); [|exact Hps].
  intros p (x & y & Hx & Hy & Hxy). exists x, y.
  split; [exact Hx|]. split; [exact Hy|]. lra.
Qed.

Lemma angular_counts_add_up_off_the_negative_x_axis_witness :
  let model :=
    model_with (Fin 100)
      [particle_at (Fin 1) (Fin 0) (Fin 0);
       particle_at (Fin (-1)) (Fin 1) (Fin 0);
       particle_at (Fin 0) (Fin (-1)) (Fin 0)] in
  exists this' ks,
    DataManager.update model DataManager.constructor
    = DataManager.Returns this'
    /\ length ks = 36%nat
    /\ angular_counts_are (DataManager.angularDist this') ks
    /\ list_sum ks = length (SupernovaModel.particles model)
    /\ map (option_map DataManager.a_angle) (DataManager.angularDist this')
       = map (fun i => Some (Fin ((INR i + 0.5) * 2 * PI / 36))) (seq 0 36).
Proof.
  cbv zeta.
  apply (angular_counts_add_up_off_the_negative_x_axis
           (model_with (Fin 100)
              [particle_at (Fin 1) (Fin 0) (Fin 0);
               particle_at (Fin (-1)) (Fin 1) (Fin 0);
               particle_at (Fin 0) (Fin (-1)) (Fin 0)])
           DataManager.constructor (sedov_radius_pc 1e51 1e-24 100)).
  - apply (getShockRadius_positive_time _ 1e51 1e-24); try reflexivity; lra.
  - apply sedov_radius_pos. lra.
  - reflexivity.
  - reflexivity.
  - repeat constructor.
    + exists 1%R, 0%R. repeat split. left. lra.
    + exists (-1)%R, 1%R. repeat split. right. right. lra.
    + exists 0%R, (-1)%R. repeat split. right. left. lra.
Defined.

(** X18.  The radial histogram keeps the mass, bin by bin: an ingest of a
    model whose shock radius [R] is a number between 1e-100 and 1e100 and
    whose particles have coordinates [x] and [y] that are not [NaN] and
    masses between 0 and 1e50 returns; the density of bin [i] is
    [M_i / (PI * (2 i + 1) * w^2)] with [w = R / 50], where [M_i] is the
    sum of the masses of the particles of bin [i], every particle being in
    the bin of its radius (to a relative 1e-9 at the edges); the [M_i] add
    up to the sum of the particles' masses, and the radius of bin [i] is
    the middle of the bin, [(i + 0.5) * w]. *)
Theorem radial_histogram_keeps_the_mass
    (model : SupernovaModel.t) (this : DataManager.t) (maxR : R)
    (ms : list R) :
  SupernovaModel.getShockRadius model = Fin maxR ->
  (1e-100 <= maxR <= 1e100)%R ->
  DataManager.radial this = 50%nat ->
  Forall located (SupernovaModel.particles model) ->
  masses_are (SupernovaModel.particles model) ms ->
  Forall (fun m => (0 <= m <= 1e50)%R) ms ->
  exists this' bins,
    DataManager.update model this = DataManager.Returns this'
    /\ Forall2 (radial_bin_of maxR) (SupernovaModel.particles model) bins
    /\ map DataManager.r_density (DataManager.radialDist this')
       = map (fun i =>
                Fin (mass_in_bin bins ms i
                     / (PI * (2 * INR i + 1) * (maxR / 50 * (maxR / 50)))))
           (seq 0 50)
    /\ Rsum (map (mass_in_bin bins ms) (seq 0 50)) = Rsum ms
    /\ map DataManager.r_radius (DataManager.radialDist this')
       = map (fun i => Fin ((INR i + 0.5) * maxR / 50)) (seq 0 50).
Proof.
  intros HR Hrange Hrad Hps Hms _.
  assert (Hpos : (0 < maxR)%R) by lra.
  destruct (located_binned maxR Hpos _ Hps) as (bins & Hb).
  destruct (update_radial_bins maxR Hpos model this bins HR Hrad Hb)
    as (this' & Hup & _ & _ & _ & _ & _ & Hradius & Hmass).
  destruct (Hmass ms Hms) as [Hdens Hsum].
  pose proof (binned_bins maxR _ _ Hb) as Hb'.
  exists this', bins. auto 6.
Qed.

Lemma radial_histogram_keeps_the_mass_witness :
  let model :=
    model_with (Fin 100)
      [particle_at (Fin 1) (Fin 0) (Fin 0);
       particle_at (Fin 0) (Fin 1000) NaN] in
  let maxR := sedov_radius_pc 1e51 1e-24 100 in
  exists this' bins,
    DataManager.update model DataManager.constructor
    = DataManager.Returns this'
    /\ Forall2 (radial_bin_of maxR) (SupernovaModel.particles model) bins
    /\ map DataManager.r_density (DataManager.radialDist this')
       = map (fun i =>
                Fin (mass_in_bin bins [1; 1]%R i
                     / (PI * (2 * INR i + 1) * (maxR / 50 * (maxR / 50)))))
           (seq 0 50)
    /\ Rsum (map (mass_in_bin bins [1; 1]%R) (seq 0 50)) = Rsum [1; 1]%R
    /\ map DataManager.r_radius (DataManager.radialDist this')
       = map (fun i => Fin ((INR i + 0.5) * maxR / 50)) (seq 0 50).
Proof.
  cbv zeta.
  apply (radial_histogram_keeps_the_mass
           (model_with (Fin 100)
              [particle_at (Fin 1) (Fin 0) (Fin 0);
               particle_at (Fin 0) (Fin 1000) NaN])
           DataManager.constructor (sedov_radius_pc 1e51 1e-24 100)
           [1; 1]%R).
  - apply (getShockRadius_positive_time _ 1e51 1e-24); try reflexivity; lra.
  - apply sedov_radius_default_range; lra.
  - reflexivity.
  - repeat constructor; discriminate.
  - reflexivity.
  - repeat constructor; lra.
Defined.

(** X19.  When an ingest throws and when it returns: with 50 radial bins,
    [dataManager.update()] throws the [TypeError] exactly when some
    particle's radial bin index is no array index (it is [NaN]); it has
    then replaced [data.particles] by the model's particles and has left
    the two histograms and the time series as they were.  When every
    particle has a bin the ingest returns. *)
Theorem ingest_throws_when_a_particle_has_no_bin
    (model : SupernovaModel.t) (this : DataManager.t) :
  DataManager.radial this = 50%nat ->
  let no_bin p :=
    JsArray.to_index
      (DataManager.radial_binIdx 50 (SupernovaModel.getShockRadius model) p)
    = None in
  (Exists no_bin (SupernovaModel.particles model) ->
   DataManager.update model this
   = DataManager.TypeError
       (with_particles (SupernovaModel.particles model) this))
  /\ (Forall (fun p => ~ no_bin p) (SupernovaModel.particles model) ->
      exists this', DataManager.update model this = DataManager.Returns this').
Proof. exact (update_outcome model this). Qed.

Lemma ingest_throws_when_a_particle_has_no_bin_witness :
  DataManager.update one_particle_model DataManager.constructor
  = DataManager.TypeError
      (with_particles (SupernovaModel.particles one_particle_model)
         DataManager.constructor).
Proof.
  apply (ingest_throws_when_a_particle_has_no_bin one_particle_model
           DataManager.constructor eq_refl).
  apply Exists_cons_hd.
  rewrite (getShockRadius_time_zero one_particle_model 1e51 1e-24);
    try reflexivity; try lra.
  apply radial_binIdx_at_origin; reflexivity.
Defined.

(** X20.  A second ingest of the same model state is harmless for the
    histograms: it returns, with the same particles and the same radial and
    angular histograms, and pushes the same sample on the time series
    again. *)
Theorem second_ingest_repeats_the_first
    (model : SupernovaModel.t) (this this1 : DataManager.t) :
  DataManager.update model this = DataManager.Returns this1 ->
  DataManager.update model this1
  = DataManager.Returns (DataManager.updateTimeSeries model this1).
Proof. exact (update_twice model this this1). Qed.

Lemma second_ingest_repeats_the_first_witness :
  exists this1,
    DataManager.update (bare_model (Fin 100)) DataManager.constructor
    = DataManager.Returns this1
    /\ DataManager.update (bare_model (Fin 100)) this1
       = DataManager.Returns
           (DataManager.updateTimeSeries (bare_model (Fin 100)) this1).
Proof.
  destruct (update_no_particles (bare_model (Fin 100)) DataManager.constructor
              eq_refl) as (this1 & Hu & _).
  exists this1. split; [exact Hu|].
  exact (second_ingest_repeats_the_first (bare_model (Fin 100))
           DataManager.constructor this1 Hu).
Defined.

(** X21.  The ingest of a model without particles returns at any time, the
    time 0 included: every radial and angular bin has the count 0 and the
    time series gets the sample of the model, with the particle count 0. *)
Theorem empty_ensemble_is_ingested
    (model : SupernovaModel.t) (this : DataManager.t) :
  SupernovaModel.particles model = [] ->
  exists this',
    DataManager.update model this = DataManager.Returns this'
    /\ DataManager.particles this' = []
    /\ map DataManager.r_count (DataManager.radialDist this')
       = repeat (Fin 0) (DataManager.radial this)
    /\ map (option_map DataManager.a_count) (DataManager.angularDist this')
       = repeat (Some (Fin 0)) (DataManager.angular this)
    /\ DataManager.timeSeries this'
       = DataManager.timeSeries
           (DataManager.updateTimeSeries model (with_particles [] this)).
Proof. exact (update_no_particles model this). Qed.

Lemma empty_ensemble_is_ingested_witness :
  exists this',
    DataManager.update (bare_model (Fin 0)) DataManager.constructor
    = DataManager.Returns this'
    /\ DataManager.particles this' = []
    /\ map DataManager.r_count (DataManager.radialDist this')
       = repeat (Fin 0) (DataManager.radial DataManager.constructor)
    /\ map (option_map DataManager.a_count) (DataManager.angularDist this')
       = repeat (Some (Fin 0)) (DataManager.angular DataManager.constructor)
    /\ DataManager.timeSeries this'
       = DataManager.timeSeries
           (DataManager.updateTimeSeries (bare_model (Fin 0))
              (with_particles [] DataManager.constructor)).
Proof.
  apply (empty_ensemble_is_ingested (bare_model (Fin 0))
           DataManager.constructor).
  reflexivity.
Defined.

(** X22.  [project3DTo2D] on a point no further from the origin than the
    view range, for a view whose angles are within a full turn and whose
    range is between 1e-100 and 1e100: the point is turned by the azimuth
    [az] about the z axis, then by the elevation [el] about the x axis
    (both taken in degrees), which keeps its distance from the origin, and
    the turned [x] and [y] are scaled by the perspective factor
    [1 / (1 + z2 / (2 * viewRange))] of the turned [z], a number between
    two thirds and 2. *)
Theorem projection_near_the_origin
    (v : Visualization.t) (p : Particle.t) (az el V x y z : R) :
  Visualization.azimuth v = Fin az -> Visualization.elevation v = Fin el ->
  Visualization.viewRange v = Fin V ->
  (-360 <= az <= 360)%R -> (-360 <= el <= 360)%R ->
  (1e-100 <= V <= 1e100)%R ->
  Particle.x p = Fin x -> Particle.y p = Fin y -> Particle.z p = Fin z ->
  (x * x + y * y + z * z <= V * V)%R ->
  let a := (az * PI / 180)%R in
  let e := (el * PI / 180)%R in
  let x1 := (x * cos a - y * sin a)%R in
  let y1 := (x * sin a + y * cos a)%R in
  let y2 := (y1 * cos e - z * sin e)%R in
  let z2 := (y1 * sin e + z * cos e)%R in
  let k := (1 / (1 + z2 / (V * 2)))%R in
  Visualization.project3DTo2D v p
  = {| Visualization.xp := Fin (x1 * k); Visualization.yp := Fin (y2 * k) |}
  /\ (x1 * x1 + y2 * y2 + z2 * z2 = x * x + y * y + z * z)%R
  /\ (2 / 3 <= k <= 2)%R.
Proof.
  intros Haz Hel HV _ _ HVr Hx Hy Hz Hnear.
  apply (project3DTo2D_near v p az el V x y z Haz Hel HV); try assumption.
  lra.
Qed.

Lemma projection_near_the_origin_witness :
  let a := (45 * PI / 180)%R in
  let e := (20 * PI / 180)%R in
  let x1 := (1 * cos a - 2 * sin a)%R in
  let y1 := (1 * sin a + 2 * cos a)%R in
  let y2 := (y1 * cos e - 2 * sin e)%R in
  let z2 := (y1 * sin e + 2 * cos e)%R in
  let k := (1 / (1 + z2 / (10 * 2)))%R in
  Visualization.project3DTo2D Visualization.constructor
    (particle_at (Fin 1) (Fin 2) (Fin 2))
  = {| Visualization.xp := Fin (x1 * k); Visualization.yp := Fin (y2 * k) |}
  /\ (x1 * x1 + y2 * y2 + z2 * z2 = 1 * 1 + 2 * 2 + 2 * 2)%R
  /\ (2 / 3 <= k <= 2)%R.
Proof.
  apply (projection_near_the_origin Visualization.constructor
           (particle_at (Fin 1) (Fin 2) (Fin 2)) 45 20 10 1 2 2);
    try reflexivity; lra.
Defined.

(** X23.  The perspective of [project3DTo2D] divides by zero: with an
    elevation of 0 degrees a point at [z = -2 * viewRange] projects to
    coordinates that are no numbers ([Infinity], [-Infinity] or [NaN]),
    whatever its [x] and [y] and the azimuth. *)
Theorem projection_divides_by_zero
    (v : Visualization.t) (p : Particle.t) (az V x y : R) :
  Visualization.azimuth v = Fin az -> Visualization.elevation v = Fin 0 ->
  Visualization.viewRange v = Fin V -> (0 < V)%R ->
  Particle.x p = Fin x -> Particle.y p = Fin y ->
  Particle.z p = Fin (- (V * 2)) ->
  ~ (exists r, Visualization.xp (Visualization.project3DTo2D v p) = Fin r)
  /\ ~ (exists r, Visualization.yp (Visualization.project3DTo2D v p) = Fin r).
Proof.
  intros Haz Hel HV HVpos Hx Hy Hz.
  split; intros (r & Hr);
    destruct (project3DTo2D_pole v p az V x y Haz Hel HV HVpos Hx Hy Hz r)
      as [H1 H2]; contradiction.
Qed.

Lemma projection_divides_by_zero_witness :
  ~ (exists r,
        Visualization.xp
          (Visualization.project3DTo2D
             (Visualization.setViewAngles (Fin 45) (Fin 0)
                Visualization.constructor)
             (particle_at (Fin 1) (Fin 1) (Fin (- (10 * 2))))) = Fin r)
  /\ ~ (exists r,
           Visualization.yp
             (Visualization.project3DTo2D
                (Visualization.setViewAngles (Fin 45) (Fin 0)
                   Visualization.constructor)
                (particle_at (Fin 1) (Fin 1) (Fin (- (10 * 2))))) = Fin r).
Proof.
  apply (projection_divides_by_zero
           (Visualization.setViewAngles (Fin 45) (Fin 0)
              Visualization.constructor)
           (particle_at (Fin 1) (Fin 1) (Fin (- (10 * 2)))) 45 10 1 1);
    try reflexivity; lra.
Defined.

(** X25.  A [NaN] stays: when the [xi] of some particle is [NaN] (as after
    [update(0)] at time 0), every later step, whatever its [dt] and its
    samples, leaves that [xi] at [NaN] and makes the particle's [x] [NaN],
    and the ingest that follows throws the [TypeError]. *)
Theorem a_NaN_particle_stays_NaN
    (h : host) (c : calls) (dt : num) (dts : list num)
    (m : SupernovaModel.t) (this : DataManager.t) :
  Exists (fun p => Particle.xi p = NaN) (SupernovaModel.particles m) ->
  Exists (fun p => Particle.xi p = NaN /\ Particle.x p = NaN)
    (SupernovaModel.particles (fst (Driver.steps h c (dt :: dts) m)))
  /\ DataManager.update (fst (Driver.steps h c (dt :: dts) m)) this
     = DataManager.TypeError
         (with_particles
            (SupernovaModel.particles (fst (Driver.steps h c (dt :: dts) m)))
            this).
Proof.
  intros Hex. pose proof (steps_poisoned h dts dt c m Hex) as H1.
  split; [exact H1|].
  apply update_poisoned_throws.
  eapply Exists_impl; [|exact H1]. intros p [_ Hp]. exact Hp.
Qed.

Lemma a_NaN_particle_stays_NaN_witness :
  let m :=
    fst (SupernovaModel.update host_half (Calls 3 1) (Fin 0)
           one_particle_model) in
  Exists (fun p => Particle.xi p = NaN /\ Particle.x p = NaN)
    (SupernovaModel.particles
       (fst (Driver.steps host_half (Calls 7 1) [Fin 100; Fin 50] m)))
  /\ DataManager.update
       (fst (Driver.steps host_half (Calls 7 1) [Fin 100; Fin 50] m))
       DataManager.constructor
     = DataManager.TypeError
         (with_particles
            (SupernovaModel.particles
               (fst (Driver.steps host_half (Calls 7 1) [Fin 100; Fin 50] m)))
            DataManager.constructor).
Proof.
  cbv zeta.
  apply (a_NaN_particle_stays_NaN host_half (Calls 7 1) (Fin 100) [Fin 50]).
  destruct (zero_step_at_time_zero host_half (Calls 3 1) one_particle_model
              1e51 1e-24
              (SupernovaModel.new_particle host_half no_calls 0
                 (Element.mk "Fe" (Fin 56) "#e74c3c" (Fin 0.0005) (Fin 1e18)))
              []) as (p' & rest' & Hps & Hxi);
    try reflexivity; try lra.
  rewrite Hps. apply Exists_cons_hd. exact Hxi.
Defined.

(** X26.  From the model to the view: in a run on a configuration in the
    working ranges (the constructor, then one or more steps of at least
    1e-6 years that add up to at most 1e15 years), for a view whose angles
    are within a full turn and whose range is at least the shock radius,
    [project3DTo2D] takes every particle to coordinates that are numbers,
    no further than twice the shock radius from the centre of the
    picture. *)
Theorem particles_project_to_numbers_while_the_shock_is_in_range
    (h : host) (c c' : calls) (config : Config.t) (m : SupernovaModel.t)
    (d : R) (ds : list R) (v : Visualization.t) (az el V Rs : R) :
  uniform_host h -> bounded_normal_host h ->
  moderate_config config -> moderate_steps (d :: ds) ->
  SupernovaModel.constructor h c config = Some (m, c') ->
  SupernovaModel.getShockRadius
    (fst (Driver.steps h c' (map Fin (d :: ds)) m)) = Fin Rs ->
  Visualization.azimuth v = Fin az -> Visualization.elevation v = Fin el ->
  (-360 <= az <= 360)%R -> (-360 <= el <= 360)%R ->
  Visualization.viewRange v = Fin V -> (Rs <= V)%R ->
  Forall (projects_within v Rs)
    (SupernovaModel.particles
       (fst (Driver.steps h c' (map Fin (d :: ds)) m))).
Proof.
  intros Hu Hb Hconfig Hds Hm HR Haz Hel _ _ HV HRs.
  destruct (moderate_run h
              (fun m' =>
                 exists Rs',
                   SupernovaModel.getShockRadius m' = Fin Rs' /\ (0 < Rs')%R
                   /\ Forall (within Rs') (SupernovaModel.particles m'))
              Hu Hb (update_within h Hu) c config d ds Hconfig Hds)
    as (m0 & c0 & Hm0 & Rs' & HR' & HRpos & Hall).
  rewrite Hm in Hm0. injection Hm0 as <- <-.
  rewrite HR in HR'. injection HR' as <-.
  assert (HVpos : (0 < V)%R) by lra.
  apply (Forall_impl _ (fun p => within_projects v p az el V Rs Haz Hel HV
                                    HVpos (conj (Rlt_le _ _ HRpos) HRs))).
  exact Hall.
Qed.

Lemma particles_project_to_numbers_while_the_shock_is_in_range_witness :
  let Rs := sedov_radius_pc 1e51 1e-24 (0 + 100) in
  Forall
    (projects_within
       (Visualization.setViewRange (Fin Rs) Visualization.constructor) Rs)
    (SupernovaModel.particles
       (fst (Driver.steps host_half (Calls 3 1) (map Fin [100]%R)
               one_particle_model))).
Proof.
  cbv zeta.
  apply (particles_project_to_numbers_while_the_shock_is_in_range host_half
           no_calls (Calls 3 1) one_particle_config one_particle_model
           100 []
           (Visualization.setViewRange
              (Fin (sedov_radius_pc 1e51 1e-24 (0 + 100)))
              Visualization.constructor)
           45 20 (sedov_radius_pc 1e51 1e-24 (0 + 100))
           (sedov_radius_pc 1e51 1e-24 (0 + 100))).
  - exact uniform_host_half.
  - exact bounded_normal_host_half.
  - exact moderate_one_particle_config.
  - exact moderate_steps_100.
  - exact constructor_one_particle.
  - exact (one_particle_radius host_half (Calls 3 1)).
  - reflexivity.
  - reflexivity.
  - lra.
  - lra.
  - reflexivity.
  - lra.
Defined.

(** X27.  Mass is kept from the constructor to the histogram: in a run on
    a configuration in the working ranges the masses of the first ensemble
    are positive numbers, and after one or more steps (of at least 1e-6
    years, adding up to at most 1e15 years) an ingest returns with a radial
    histogram in which the density of bin [i] is the sum of the first
    masses of the particles of that bin over the ring area
    [PI * (2 i + 1) * (R / 50)^2], every particle being in the bin of its
    radius (to a relative 1e-9 at the edges); the bin masses add up to
    the sum of the first masses. *)
Theorem mass_is_kept_from_the_constructor_to_the_histogram
    (h : host) (c : calls) (config : Config.t) (d : R) (ds : list R)
    (this : DataManager.t) :
  uniform_host h -> bounded_normal_host h ->
  moderate_config config -> moderate_steps (d :: ds) ->
  DataManager.radial this = 50%nat ->
  exists m c' ms Rs this' bins,
    SupernovaModel.constructor h c config = Some (m, c')
    /\ masses_are (SupernovaModel.particles m) ms
    /\ Forall (fun x => (0 < x)%R) ms
    /\ SupernovaModel.getShockRadius
         (fst (Driver.steps h c' (map Fin (d :: ds)) m)) = Fin Rs
    /\ DataManager.update (fst (Driver.steps h c' (map Fin (d :: ds)) m)) this
       = DataManager.Returns this'
    /\ Forall2 (radial_bin_of Rs)
         (SupernovaModel.particles
            (fst (Driver.steps h c' (map Fin (d :: ds)) m))) bins
    /\ map DataManager.r_density (DataManager.radialDist this')
       = map (fun i =>
                Fin (mass_in_bin bins ms i
                     / (PI * (2 * INR i + 1) * (Rs / 50 * (Rs / 50)))))
           (seq 0 50)
    /\ Rsum (map (mass_in_bin bins ms) (seq 0 50)) = Rsum ms.
Proof.
  intros Hu Hb Hconfig Hds Hbins.
  destruct (moderate_run h
              (fun m' =>
                 positive (SupernovaModel.getShockRadius m')
                 /\ Forall located (SupernovaModel.particles m'))
              Hu Hb (update_located h Hu) c config d ds Hconfig Hds)
    as (m & c' & Hm & (Rs & HR & HRpos) & Hloc).
  pose proof (constructor_fresh h Hu c c' config m
                (moderate_config_valid _ Hconfig) Hm) as Hfresh.
  destruct (fresh_masses _ _ Hfresh) as (ms & Hms & Hpos).
  destruct (located_binned Rs HRpos _ Hloc) as (bins & Hb').
  destruct (update_radial_bins Rs HRpos
              (fst (Driver.steps h c' (map Fin (d :: ds)) m)) this bins HR
              Hbins Hb')
    as (this' & Hup & _ & _ & _ & _ & _ & _ & Hmass).
  destruct (Hmass ms) as [Hdens Hsum].
  { unfold masses_are.
    rewrite (steps_keep_mass h (map Fin (d :: ds)) c' m). exact Hms. }
  pose proof (binned_bins Rs _ _ Hb') as Hb2.
  exists m, c', ms, Rs, this', bins. auto 8.
Qed.

Lemma mass_is_kept_from_the_constructor_to_the_histogram_witness :
  exists m c' ms Rs this' bins,
    SupernovaModel.constructor host_half no_calls Config.empty = Some (m, c')
    /\ masses_are (SupernovaModel.particles m) ms
    /\ Forall (fun x => (0 < x)%R) ms
    /\ SupernovaModel.getShockRadius
         (fst (Driver.steps host_half c' (map Fin [100; 50]%R) m)) = Fin Rs
    /\ DataManager.update
         (fst (Driver.steps host_half c' (map Fin [100; 50]%R) m))
         DataManager.constructor
       = DataManager.Returns this'
    /\ Forall2 (radial_bin_of Rs)
         (SupernovaModel.particles
            (fst (Driver.steps host_half c' (map Fin [100; 50]%R) m))) bins
    /\ map DataManager.r_density (DataManager.radialDist this')
       = map (fun i =>
                Fin (mass_in_bin bins ms i
                     / (PI * (2 * INR i + 1) * (Rs / 50 * (Rs / 50)))))
           (seq 0 50)
    /\ Rsum (map (mass_in_bin bins ms) (seq 0 50)) = Rsum ms.
Proof.
  apply (mass_is_kept_from_the_constructor_to_the_histogram host_half
           no_calls Config.empty 100 [50]%R DataManager.constructor).
  - exact uniform_host_half.
  - exact bounded_normal_host_half.
  - exact moderate_config_empty.
  - exact moderate_steps_100_50.
  - reflexivity.
Defined.

(** X28.  The time series of a run: on a configuration in the working
    ranges, after the constructor and frames ([model.update(dt)], then
    [dataManager.update()]) with steps of at least 1e-6 years that add up
    to at most 1e15 years, on a new [DataManager], every ingest has
    returned and the time series holds, for the last 100 frames, the time
    each frame has reached (the sum of the [dt]s so far) and the number of
    particles the constructor made. *)
Theorem time_series_records_the_elapsed_time
    (h : host) (c : calls) (config : Config.t) (ds : list R) :
  uniform_host h -> bounded_normal_host h -> moderate_config config ->
  moderate_steps ds ->
  exists m c1 m' dm' c',
    SupernovaModel.constructor h c config = Some (m, c1)
    /\ Driver.frames h c1 (map Fin ds) m DataManager.constructor
       = (m', DataManager.Returns dm', c')
    /\ map DataManager.s_time (DataManager.timeSeries dm')
       = skipn (length ds - 100) (map Fin (elapsed 0 ds))
    /\ Forall
         (fun s =>
            DataManager.s_particleCount s
            = length (SupernovaModel.particles m))
         (DataManager.timeSeries dm').
Proof.
  intros Hu Hb Hconfig Hsteps.
  pose proof (moderate_steps_lower _ Hsteps) as Hds.
  destruct (constructor_inv h Hu Hb c config
              (moderate_config_valid _ Hconfig)) as (m & c1 & Hm & Hinv).
  pose proof (constructor_time h c c1 config m Hm) as Ht.
  destruct (frames_series h Hu ds Hds c1 m DataManager.constructor 0 Hinv Ht
              eq_refl (Nat.le_0_l _))
    as (m' & dm' & c' & samples & Hrun & Hts & Htimes & Hcounts & _ & _).
  cbn [DataManager.constructor DataManager.timeSeries DataManager.maxHistory
       app] in Hts.
  exists m, c1, m', dm', c'. split; [exact Hm|]. split; [exact Hrun|].
  rewrite Hts. split.
  - rewrite map_skipn, Htimes. f_equal.
    rewrite <- (length_map DataManager.s_time), Htimes, length_map.
    rewrite elapsed_length. reflexivity.
  - apply Forall_skipn_list. exact Hcounts.
Qed.

Lemma time_series_records_the_elapsed_time_witness :
  exists m c1 m' dm' c',
    SupernovaModel.constructor host_half no_calls Config.empty = Some (m, c1)
    /\ Driver.frames host_half c1 (map Fin [100; 50]%R) m
         DataManager.constructor
       = (m', DataManager.Returns dm', c')
    /\ map DataManager.s_time (DataManager.timeSeries dm')
       = skipn (length [100; 50]%R - 100) (map Fin (elapsed 0 [100; 50]%R))
    /\ Forall
         (fun s =>
            DataManager.s_particleCount s
            = length (SupernovaModel.particles m))
         (DataManager.timeSeries dm').
Proof.
  apply (time_series_records_the_elapsed_time host_half no_calls Config.empty
           [100; 50]%R).
  - exact uniform_host_half.
  - exact bounded_normal_host_half.
  - exact moderate_config_empty.
  - exact moderate_steps_100_50.
Defined.
